(** * mad_adders: a genetic search for digit-wise addition algorithms

    A shallow embedding of [mad_adders.py].  Python integers are [Z],
    Python floats are IEEE binary64 values ([spec_float] with precision 53
    and maximal exponent 1024), exceptions are explicit results, and the
    global random generator is an explicit tape of draws threaded through
    every function that calls [choice] or [uniform].  Printing is not an
    effect of the model, the program never reads it back: the texts that
    [print_problem] and [print_algorithm] print are the values of the
    functions of these names. *)

From Stdlib Require Import ZArith List Bool Lia Permutation Sorted.
From Stdlib Require Import Floats.SpecFloat.
From stdpp Require Import gmap strings.
From Stdlib Require DecimalString.
Import ListNotations.

Local Open Scope Z_scope.

(** ** Python numbers *)

Module Py.

(** The exceptions the program can meet. *)
Inductive exn :=
  | ZeroDivisionError
  | IndexError
  | OverflowError
  | ValueError.

Inductive result (A : Type) :=
  | Ok (a : A)
  | Raise (e : exn).
Arguments Ok {A} a.
Arguments Raise {A} e.

Definition rbind {A B} (r : result A) (k : A -> result B) : result B :=
  match r with
  | Ok a => k a
  | Raise e => Raise e
  end.

(** A number is an [int] or a [float]. *)
Inductive value :=
  | VInt (z : Z)
  | VFloat (f : spec_float).

Definition prec : Z := 53.
Definition emax : Z := 1024.

(** [float(z)]: rounds to nearest even, raises [OverflowError] past the
    largest finite double. *)
Definition float_of_int (z : Z) : result spec_float :=
  match binary_normalize prec emax z 0 false with
  | S754_infinity _ => Raise OverflowError
  | f => Ok f
  end.

Definition to_float (v : value) : result spec_float :=
  match v with
  | VInt z => float_of_int z
  | VFloat f => Ok f
  end.

Definition float_is_zero (f : spec_float) : bool :=
  match f with
  | S754_zero _ => true
  | _ => false
  end.

(** Arithmetic on two floats after the operands are converted. *)
Definition float_binop (op : spec_float -> spec_float -> spec_float)
    (x y : value) : result value :=
  rbind (to_float x) (fun fx =>
  rbind (to_float y) (fun fy =>
  Ok (VFloat (op fx fy)))).

(** [x + y] *)
Definition py_add (x y : value) : result value :=
  match x, y with
  | VInt a, VInt b => Ok (VInt (a + b))
  | _, _ => float_binop (SFadd prec emax) x y
  end.

(** [x - y] *)
Definition py_sub (x y : value) : result value :=
  match x, y with
  | VInt a, VInt b => Ok (VInt (a - b))
  | _, _ => float_binop (SFsub prec emax) x y
  end.

(** [x * y] *)
Definition py_mul (x y : value) : result value :=
  match x, y with
  | VInt a, VInt b => Ok (VInt (a * b))
  | _, _ => float_binop (SFmul prec emax) x y
  end.

(** [a / b] on two ints: the exact quotient rounded once to a double. *)
Definition int_truediv (a b : Z) : result value :=
  if b =? 0 then Raise ZeroDivisionError
  else if a =? 0 then Ok (VFloat (S754_zero (b <? 0)))
  else
    let '(mz, ez, lz) :=
      SFdiv_core_binary prec emax (Z.abs a) 0 (Z.abs b) 0 in
    match binary_round_aux prec emax (xorb (a <? 0) (b <? 0)) mz ez lz with
    | S754_infinity _ => Raise OverflowError
    | f => Ok (VFloat f)
    end.

(** [x / y]: true division. *)
Definition py_truediv (x y : value) : result value :=
  match x, y with
  | VInt a, VInt b => int_truediv a b
  | _, _ =>
    rbind (to_float x) (fun fx =>
    rbind (to_float y) (fun fy =>
    if float_is_zero fy then Raise ZeroDivisionError
    else Ok (VFloat (SFdiv prec emax fx fy))))
  end.

(** [abs(x)] *)
Definition py_abs (x : value) : value :=
  match x with
  | VInt a => VInt (Z.abs a)
  | VFloat f => VFloat (SFabs f)
  end.

(** Comparison of an int with a float is exact: no conversion, no
    overflow.  [None] is the unordered case (NaN). *)
Definition int_float_compare (z : Z) (f : spec_float) : option comparison :=
  match f with
  | S754_nan => None
  | S754_infinity s => Some (if s then Gt else Lt)
  | S754_zero _ => Some (z ?= 0)
  | S754_finite s m e =>
    let fm := if s then Z.neg m else Z.pos m in
    Some (if 0 <=? e then z ?= fm * 2 ^ e else z * 2 ^ (- e) ?= fm)
  end.

Definition py_compare (x y : value) : option comparison :=
  match x, y with
  | VInt a, VInt b => Some (a ?= b)
  | VFloat f, VFloat g => SFcompare f g
  | VInt a, VFloat g => int_float_compare a g
  | VFloat f, VInt b => option_map CompOpp (int_float_compare b f)
  end.

(** [x < y] and [x > y] *)
Definition py_lt (x y : value) : bool :=
  match py_compare x y with
  | Some Lt => true
  | _ => false
  end.

Definition py_gt (x y : value) : bool :=
  match py_compare x y with
  | Some Gt => true
  | _ => false
  end.

(** [a % b] on ints: the result takes the sign of the divisor. *)
Definition py_mod (a b : Z) : result Z :=
  if b =? 0 then Raise ZeroDivisionError else Ok (a mod b).

End Py.
Import Py.

(** ** The random generator and the effects of the program

    The module-level generator of [random] is a tape of draws; an exhausted
    tape keeps answering 0.  A computation takes the tape, returns a value
    or raises, and hands back the rest of the tape: a draw made before an
    exception stays made. *)

Module Rand.

Definition rng := list N.

Definition M (A : Type) : Type := rng -> result A * rng.

Definition ret {A} (a : A) : M A := fun s => (Ok a, s).

Definition raise {A} (e : exn) : M A := fun s => (Raise e, s).

Definition bind {A B} (m : M A) (k : A -> M B) : M B :=
  fun s =>
    match m s with
    | (Ok a, s') => k a s'
    | (Raise e, s') => (Raise e, s')
    end.

Definition lift {A} (r : result A) : M A := fun s => (r, s).

(** [try: m except: h], the bare [except] that catches everything. *)
Definition try_except {A} (m h : M A) : M A :=
  fun s =>
    match m s with
    | (Ok a, s') => (Ok a, s')
    | (Raise _, s') => h s'
    end.

Definition draw : M N :=
  fun s =>
    match s with
    | [] => (Ok 0%N, [])
    | r :: s' => (Ok r, s')
    end.

End Rand.
Import Rand.

Notation "'let*' x ':=' m 'in' k" := (bind m (fun x => k))
  (at level 10, x pattern, m at level 100, k at level 200).

(** [for a in l: st = body(st, a)] *)
Fixpoint for_each {A S} (l : list A) (st : S) (body : S -> A -> M S) : M S :=
  match l with
  | [] => ret st
  | a :: l' => let* st' := body st a in for_each l' st' body
  end.

(** [[f(a) for a in l]] *)
Fixpoint comprehension {A B} (f : A -> M B) (l : list A) : M (list B) :=
  match l with
  | [] => ret []
  | a :: l' =>
    let* b := f a in
    let* bs := comprehension f l' in
    ret (b :: bs)
  end.

(** [range(lo, hi)] *)
Definition range (lo hi : Z) : list Z :=
  map (fun k => lo + Z.of_nat k) (seq 0 (Z.to_nat (hi - lo))).

(** [len(seq)] *)
Definition len {A} (l : list A) : Z := Z.of_nat (length l).

(** [seq[i]], negative indices counting from the end. *)
Definition subscript {A} (l : list A) (i : Z) : result A :=
  let j := if i <? 0 then len l + i else i in
  if j <? 0 then Raise IndexError
  else
    match nth_error l (Z.to_nat j) with
    | Some a => Ok a
    | None => Raise IndexError
    end.

(** [random.choice(seq)] *)
Definition choice {A} (l : list A) : M A :=
  match l with
  | [] => raise IndexError
  | d :: _ =>
    let* r := draw in
    ret (nth (N.to_nat (r mod N.of_nat (length l))) l d)
  end.

(** [random.random()]: a multiple of 2^-53 in [0, 1). *)
Definition random : M value :=
  let* r := draw in
  ret (VFloat (binary_normalize prec emax (Z.of_N (r mod 2 ^ 53)) (-53) false)).

(** [random.uniform(a, b)] is [a + (b - a) * random()]. *)
Definition uniform (a b : value) : M value :=
  let* d := lift (py_sub b a) in
  let* x := random in
  let* p := lift (py_mul d x) in
  lift (py_add a p).

(** The literal [0.25]. *)
Definition quarter : value := VFloat (S754_finite false 4503599627370496 (-54)).

(** ** The program *)

(** The three gene pools hold functions; a gene is the tag of one. *)
Inductive operation := Add | Mult | Div | Exp.
Inductive accumulator := Append | Prepend | Replace | InsertRand.
Inductive chooser := Len | RandInLen | Zero.

Definition candidate : Type := operation * accumulator * chooser.

(** A problem [(a, b, answer)]. *)
Definition problem : Type := list Z * list Z * value.

(** [[f(a) for a in l]] for an [f] that draws nothing. *)
Fixpoint pure_comprehension {A B} (f : A -> result B) (l : list A)
    : result (list B) :=
  match l with
  | [] => Ok []
  | a :: l' =>
    rbind (f a) (fun b =>
    rbind (pure_comprehension f l') (fun bs => Ok (b :: bs)))
  end.

(** [sum(l)]: [0 + l[0] + l[1] + ...], from the left. *)
Definition py_sum (l : list value) : result value :=
  fold_left (fun acc t => rbind acc (fun s => py_add s t)) l (Ok (VInt 0)).

Definition list_to_int (x : list value) : result value :=
  rbind (pure_comprehension
           (fun i => rbind (subscript x i) (py_mul (VInt (10 ^ i))))
           (range 0 (len x)))
        py_sum.

Definition list_sum (a b : list value) : result value :=
  rbind (list_to_int a) (fun va =>
  rbind (list_to_int b) (fun vb =>
  py_add va vb)).

(** A list of ints as a list of numbers. *)
Definition ints (l : list Z) : list value := map VInt l.

Definition generate_problem (min_size max_size : Z) : M problem :=
  let* size := choice (range min_size max_size) in
  let* a := comprehension (fun _ => choice (range 0 10)) (range 0 size) in
  let* b := comprehension (fun i =>
              let* r := choice (range 0 10) in
              let* ai := lift (subscript a i) in
              lift (py_mod r (10 - ai))) (range 0 size) in
  let* c := lift (list_sum (ints a) (ints b)) in
  ret (a, b, c).

Section Program.

(** [x ** y] with a negative exponent is computed by the C library's
    [pow] on the two operands converted to doubles; its result is the
    platform's, so it stays a parameter of the development. *)
Variable libm_pow : spec_float -> spec_float -> spec_float.

Definition add (x y : Z) : result value := py_add (VInt x) (VInt y).

Definition mult (x y : Z) : result value := py_mul (VInt x) (VInt y).

Definition div (x y : Z) : result value := py_truediv (VInt x) (VInt y).

Definition exp (x y : Z) : result value :=
  if 0 <=? y then Ok (VInt (x ^ y))
  else
    rbind (float_of_int x) (fun fx =>
    rbind (float_of_int y) (fun fy =>
    if x =? 0 then Raise ZeroDivisionError
    else Ok (VFloat (libm_pow fx fy)))).

Definition rand_in_len (seq : list Z) : M Z := choice (range 0 (len seq)).

Definition zero (seq : list Z) : M Z := ret 0.

Definition append (prev : list value) (new : value) : M (list value) :=
  ret (prev ++ [new]).

Definition prepend (prev : list value) (new : value) : M (list value) :=
  ret ([new] ++ prev).

Definition replace (prev : list value) (new : value) : M (list value) :=
  ret [new].

(** [prev[:i]] and [prev[i:]] for an index [0 <= i]. *)
Definition insert_rand (prev : list value) (new : value) : M (list value) :=
  let* i := choice (range 0 (len prev + 1)) in
  ret (firstn (Z.to_nat i) prev ++ [new] ++ skipn (Z.to_nat i) prev).

Definition BINARY_OPERATIONS : list operation := [Add; Mult; Div; Exp].
Definition ACCUMULATORS : list accumulator := [Append; Prepend; Replace; InsertRand].
Definition CHOOSERS : list chooser := [Len; RandInLen; Zero].

Definition call_op (op : operation) : Z -> Z -> result value :=
  match op with
  | Add => add
  | Mult => mult
  | Div => div
  | Exp => exp
  end.

Definition call_acc (acc : accumulator) : list value -> value -> M (list value) :=
  match acc with
  | Append => append
  | Prepend => prepend
  | Replace => replace
  | InsertRand => insert_rand
  end.

Definition call_chooser (ch : chooser) : list Z -> M Z :=
  match ch with
  | Len => fun seq => ret (len seq)
  | RandInLen => rand_in_len
  | Zero => zero
  end.

(** One turn of the loop: [z = acc(z, op(x[i], y[i]))]. *)
Definition loop_body (x y : list Z) (op : operation) (acc : accumulator)
    (z : list value) (i : Z) : M (list value) :=
  let* xi := lift (subscript x i) in
  let* yi := lift (subscript y i) in
  let* v := lift (call_op op xi yi) in
  call_acc acc z v.

Definition loop (x y : list Z) (op : operation) (acc : accumulator)
    (ch : chooser) : M (list value) :=
  let* n := call_chooser ch x in
  for_each (range 0 n) [] (loop_body x y op acc).

(** The body of the [try] for one problem: the new running score. *)
Definition attempt (algorithm : candidate) (score : value) (p : problem)
    : M value :=
  let '(op, acc, ch) := algorithm in
  let '(a, b, answer) := p in
  let* alg_ans := loop a b op acc ch in
  if existsb (fun x => py_gt x (VInt 9)) alg_ans then raise ValueError
  else
    let* alg_ans_val := lift (list_to_int alg_ans) in
    let* d := lift (py_sub alg_ans_val answer) in
    lift (py_add score (py_abs d)).

(** [try: ... except: score += 999] *)
Definition score_problem (algorithm : candidate) (score : value) (p : problem)
    : M value :=
  try_except (attempt algorithm score p) (lift (py_add score (VInt 999))).

Definition running_total (algorithm : candidate) (problems : list problem)
    : M value :=
  for_each problems (VInt 0) (score_problem algorithm).

Definition candidate_score (algorithm : candidate) (problems : list problem)
    : M value :=
  let* score := running_total algorithm problems in
  lift (py_truediv score (VInt (len problems))).

(** [sorted(l, key=...)] on a list already paired with its keys: a stable
    sort that compares keys with [<].  It stands for the host's sort on
    keys that [<] orders, where every stable sort returns the same list; a
    key that is not a number (NaN) is ordered by [<] with no other key, the
    place it gets then depends on the algorithm of the host's sort and is
    not modelled.  The results about rankings are stated for scores that are
    numbers, as all scores on well-formed problems are. *)
Fixpoint insert_by_key {A} (x : value * A) (l : list (value * A))
    : list (value * A) :=
  match l with
  | [] => [x]
  | y :: l' =>
    if py_lt (fst y) (fst x) then y :: insert_by_key x l' else x :: y :: l'
  end.

Definition sorted_by_key {A} (l : list (value * A)) : list (value * A) :=
  fold_right insert_by_key [] l.

(** The keys [sorted] computes, one call of [score] per candidate, in the
    order of the population. *)
Definition score_all (all_candidates : list candidate) (problems : list problem)
    : M (list (value * candidate)) :=
  comprehension (fun c => let* k := candidate_score c problems in ret (k, c))
                all_candidates.

Definition sort_candidates (all_candidates : list candidate)
    (problems : list problem) : M (list candidate) :=
  let* keyed := score_all all_candidates problems in
  ret (map snd (sorted_by_key keyed)).

(** [best = sort_candidates(candidates, problems)[:5]] *)
Definition best (candidates : list candidate) (problems : list problem)
    : M (list candidate) :=
  let* ranked := sort_candidates candidates problems in
  ret (firstn 5 ranked).

End Program.

(** ** Reproduction *)

#[global] Instance operation_eq_dec : EqDecision operation.
Proof. solve_decision. Defined.
#[global] Instance accumulator_eq_dec : EqDecision accumulator.
Proof. solve_decision. Defined.
#[global] Instance chooser_eq_dec : EqDecision chooser.
Proof. solve_decision. Defined.

#[global] Instance operation_countable : Countable operation.
Proof.
  refine (inj_countable'
    (fun g => match g with Add => 0 | Mult => 1 | Div => 2 | Exp => 3 end)%nat
    (fun n => match n with 0 => Add | 1 => Mult | 2 => Div | _ => Exp end)%nat _).
  intros []; reflexivity.
Defined.
#[global] Instance accumulator_countable : Countable accumulator.
Proof.
  refine (inj_countable'
    (fun g => match g with
              | Append => 0 | Prepend => 1 | Replace => 2 | InsertRand => 3
              end)%nat
    (fun n => match n with
              | 0 => Append | 1 => Prepend | 2 => Replace | _ => InsertRand
              end)%nat _).
  intros []; reflexivity.
Defined.
#[global] Instance chooser_countable : Countable chooser.
Proof.
  refine (inj_countable'
    (fun g => match g with Len => 0 | RandInLen => 1 | Zero => 2 end)%nat
    (fun n => match n with 0 => Len | 1 => RandInLen | _ => Zero end)%nat _).
  intros []; reflexivity.
Defined.

(** [x in l] *)
Definition py_in {G} `{EqDecision G} (x : G) (l : list G) : bool :=
  existsb (fun y => bool_decide (x = y)) l.

(** The mutation branch: [choice([x for x in pool if x not in [g1, g2]])]. *)
Definition mutate {G} `{EqDecision G} (pool : list G) (g1 g2 : G) : M G :=
  choice (List.filter (fun x => negb (py_in x [g1; g2])) pool).

(** One trait of a child; [repopulate] has this block three times, once
    per pool. *)
Definition trait {G} `{EqDecision G} (pool : list G) (g1 g2 : G) : M G :=
  let* u := uniform (VInt 0) (VInt 1) in
  if py_gt u quarter then choice [g1; g2] else mutate pool g1 g2.

Definition breed (c1 c2 : candidate) : M candidate :=
  let* op := trait BINARY_OPERATIONS c1.1.1 c2.1.1 in
  let* acc := trait ACCUMULATORS c1.1.2 c2.1.2 in
  let* ch := trait CHOOSERS c1.2 c2.2 in
  ret (op, acc, ch).

Definition repopulate (candidates : list candidate) : M (gset candidate) :=
  for_each candidates (list_to_set candidates) (fun children c1 =>
    for_each candidates children (fun children c2 =>
      if decide (c1 = c2) then ret children
      else
        let* child := breed c1 c2 in
        ret ({[child]} ∪ children))).

(** ** The specification's vocabulary *)

(** [Σ seq[i] × 10^i], the sum starting at position [i]. *)
Fixpoint weighted_sum (i : Z) (seq : list Z) : Z :=
  match seq with
  | [] => 0
  | d :: seq' => d * 10 ^ i + weighted_sum (i + 1) seq'
  end.

Definition sequence_to_integer (seq : list Z) : Z := weighted_sum 0 seq.

(** The products [10**i * x[i]] of a list of ints, from position [i]. *)
Fixpoint weights (i : Z) (seq : list Z) : list Z :=
  match seq with
  | [] => []
  | d :: seq' => 10 ^ i * d :: weights (i + 1) seq'
  end.

Definition digit (d : Z) : Prop := 0 <= d <= 9.

(** A problem as the data model has it: equal lengths, digits, no carry
    out of any column, and the sum of the two operands. *)
Definition well_formed (p : problem) : Prop :=
  let '(a, b, answer) := p in
  length a = length b /\
  Forall digit a /\
  Forall digit b /\
  (forall i ai bi,
     nth_error a i = Some ai -> nth_error b i = Some bi -> ai + bi <= 9) /\
  answer = VInt (sequence_to_integer a + sequence_to_integer b).

Definition expected_sum (p : problem) : Z :=
  sequence_to_integer p.1.1 + sequence_to_integer p.1.2.

(** The validity check of the evaluator: some element of [z] exceeds 9. *)
Definition invalid_digit (z : list value) : bool :=
  existsb (fun x => py_gt x (VInt 9)) z.

(** [|sequence_to_integer(z) - expected|] in the host's arithmetic. *)
Definition abs_error (z : list value) (answer : value) : result value :=
  rbind (list_to_int z) (fun v =>
  rbind (py_sub v answer) (fun d => Ok (py_abs d))).

Definition float_999 : spec_float :=
  Eval vm_compute in binary_normalize prec emax 999 0 false.

(** The running total after the fixed penalty of 999. *)
Definition penalised (score : value) : value :=
  match score with
  | VInt t => VInt (t + 999)
  | VFloat f => VFloat (SFadd prec emax f float_999)
  end.

(** What one problem does to the running total, by cases on the outcome of
    the candidate's loop: the penalty when the loop raised, when an element
    exceeds 9, or when the error cannot be computed and added; the error
    otherwise. *)
Definition credited (score : value) (outcome : result (list value))
    (answer : value) : value :=
  match outcome with
  | Raise _ => penalised score
  | Ok z =>
    if invalid_digit z then penalised score
    else
      match rbind (abs_error z answer) (py_add score) with
      | Ok total => total
      | Raise _ => penalised score
      end
  end.

Section Totals.

Variable libm_pow : spec_float -> spec_float -> spec_float.

(** The running total over a batch, one problem after the other. *)
Fixpoint total_error (algorithm : candidate) (score : value)
    (problems : list problem) (s : rng) : value * rng :=
  match problems with
  | [] => (score, s)
  | (a, b, answer) :: rest =>
    let '(outcome, s') :=
      loop libm_pow a b algorithm.1.1 algorithm.1.2 algorithm.2 s in
    total_error algorithm (credited score outcome answer) rest s'
  end.

End Totals.

(** The sum of the expected sums of a batch. *)
Definition batch_sum (problems : list problem) : Z :=
  fold_right Z.add 0 (map expected_sum problems).

(** A reference [pow] for the runs made in this file: the exact power of a
    double to an integral negative exponent, rounded once to nearest even;
    not a number elsewhere. *)
Definition integral_exponent (y : spec_float) : option Z :=
  match y with
  | S754_finite true my ey =>
    if 0 <=? ey then Some (Z.pos my * 2 ^ ey)
    else if Z.pos my mod 2 ^ (- ey) =? 0 then Some (Z.pos my / 2 ^ (- ey))
    else None
  | _ => None
  end.

Definition reference_pow (x y : spec_float) : spec_float :=
  match x, integral_exponent y with
  | S754_finite sx mx ex, Some n =>
    let '(mz, ez, lz) :=
      SFdiv_core_binary prec emax 1 0 (Z.pos mx ^ n) (ex * n) in
    binary_round_aux prec emax (sx && Z.odd n) mz ez lz
  | _, _ => S754_nan
  end.

(** A problem of 310 columns, every digit of both operands 1. *)
Definition ones_310 : list Z := repeat 1 310.

Definition problem_310 : problem :=
  (ones_310, ones_310,
   VInt (sequence_to_integer ones_310 + sequence_to_integer ones_310)).

(** [x] comes before [y] in a list. *)
Inductive before {A} (x y : A) : list A -> Prop :=
  | before_here l : In y l -> before x y (x :: l)
  | before_later z l : before x y l -> before x y (z :: l).

(** Ascending keys: no entry's key is below the key of the entry before. *)
Definition ascending {A} (p q : value * A) : Prop := py_lt q.1 p.1 = false.

(** A float that is a number. *)
Definition is_number (v : value) : Prop :=
  exists f, v = VFloat f /\ f <> S754_nan.

(** The place of a float in the order of the doubles: sign class, then
    exponent, then mantissa. *)
Definition float_rank (f : spec_float) : Z * Z * Z :=
  match f with
  | S754_nan => (0, 0, 0)
  | S754_zero _ => (0, 0, 0)
  | S754_infinity true => (-2, 0, 0)
  | S754_infinity false => (2, 0, 0)
  | S754_finite true m e => (-1, - e, Z.neg m)
  | S754_finite false m e => (1, e, Z.pos m)
  end.

Definition rank_lt (r1 r2 : Z * Z * Z) : Prop :=
  r1.1.1 < r2.1.1 \/
  (r1.1.1 = r2.1.1 /\
   (r1.1.2 < r2.1.2 \/ (r1.1.2 = r2.1.2 /\ r1.2 < r2.2))).

(** The scenario of the specification and a population of six candidates
    to rank on it. *)
Definition scenario : problem := ([2; 3], [1; 1], VInt 43).

Definition population_6 : list candidate :=
  [(Add, Append, Zero); (Add, Append, Len); (Mult, Append, Len);
   (Add, Prepend, Len); (Div, Append, Len); (Exp, Replace, Len)].

(** Their scores on the scenario: 43.0, 0.0, 11.0, 9.0, 11.0 and 40.0. *)
Definition keyed_6 : list (value * candidate) :=
  [(VFloat (S754_finite false 6051711999279104 (-47)), (Add, Append, Zero));
   (VFloat (S754_zero false), (Add, Append, Len));
   (VFloat (S754_finite false 6192449487634432 (-49)), (Mult, Append, Len));
   (VFloat (S754_finite false 5066549580791808 (-49)), (Add, Prepend, Len));
   (VFloat (S754_finite false 6192449487634432 (-49)), (Div, Append, Len));
   (VFloat (S754_finite false 5629499534213120 (-47)), (Exp, Replace, Len))].

(** ** The rest of the program *)

Definition generate_candidate : M candidate :=
  let* op := choice BINARY_OPERATIONS in
  let* acc := choice ACCUMULATORS in
  let* ch := choice CHOOSERS in
  ret (op, acc, ch).

(** [f.__name__] for the functions of the three pools. *)
Definition operation_name (op : operation) : string :=
  match op with
  | Add => "add"
  | Mult => "mult"
  | Div => "div"
  | Exp => "exp"
  end.

Definition accumulator_name (acc : accumulator) : string :=
  match acc with
  | Append => "append"
  | Prepend => "prepend"
  | Replace => "replace"
  | InsertRand => "insert_rand"
  end.

Definition chooser_name (ch : chooser) : string :=
  match ch with
  | Len => "len"
  | RandInLen => "rand_in_len"
  | Zero => "zero"
  end.

(** [s[0]] on a string. *)
Definition first_char (s : string) : result string :=
  match s with
  | EmptyString => Raise IndexError
  | String c _ => Ok (String c EmptyString)
  end.

Definition algorithm_name (algorithm : candidate) : result string :=
  let '(op, acc, ch) := algorithm in
  rbind (first_char (operation_name op)) (fun o =>
  rbind (first_char (accumulator_name acc)) (fun a =>
  rbind (first_char (chooser_name ch)) (fun c =>
  Ok ("add_" +:+ ((o +:+ a) +:+ c))))).

Definition newline : string := String (Ascii.ascii_of_nat 10) EmptyString.

(** The text that [print_algorithm] prints. *)
Definition print_algorithm (algorithm : candidate) : result string :=
  let '(op, acc, ch) := algorithm in
  rbind (algorithm_name algorithm) (fun name =>
  let s := ("def " +:+ name) +:+ ("(x, y):" +:+ newline) in
  let s := s +:+ ("    z = []" +:+ newline) in
  let s := s +:+ ((("    for i in range(" +:+ chooser_name ch) +:+ "(x)):")
                  +:+ newline) in
  let s := s +:+ ((((("        z = " +:+ accumulator_name acc) +:+ "(z, ")
                    +:+ operation_name op) +:+ "(x[i], y[i]))") +:+ newline) in
  Ok (s +:+ "    return z")).

(** [str(z)] for an int. *)
Definition str (z : Z) : string :=
  DecimalString.NilZero.string_of_int (Z.to_int z).

(** [''.join(map(str, a))[::-1]] *)
Definition operand_text (a : list Z) : string :=
  String.rev (String.concat "" (map str a)).

(** The text that [print_problem] prints. *)
Definition print_problem (a b : list Z) : string :=
  ((operand_text a +:+ " + ") +:+ operand_text b) +:+ " = ?".

Section Driver.

Variable libm_pow : spec_float -> spec_float -> spec_float.

(** The order in which Python iterates over a set of candidates depends on
    the hashes of the function objects; it is a parameter. *)
Variable set_order : gset candidate -> list candidate.

(** [{generate_candidate() for _ in range(num_candidates)}] *)
Definition seed_candidates (num_candidates : Z) : M (gset candidate) :=
  let* l := comprehension (fun _ => generate_candidate)
                          (range 0 num_candidates) in
  ret (list_to_set l).

(** One round of the main loop; what it prints is left out, but the names
    and the text are still computed and [best[0]] is still indexed. *)
Definition evolution_round (num_problems : Z) (candidates : gset candidate)
    (r : Z) : M (gset candidate) :=
  let* problems := comprehension (fun _ => generate_problem 2 3)
                                 (range 0 num_problems) in
  let* top := best libm_pow (set_order candidates) problems in
  let* names := lift (pure_comprehension algorithm_name top) in
  let* first := lift (subscript top 0) in
  let* text := lift (print_algorithm first) in
  repopulate top.

(** The script from the three numbers it reads to the last population. *)
Definition evolution (num_candidates num_rounds num_problems : Z)
    : M (gset candidate) :=
  let* candidates := seed_candidates num_candidates in
  for_each (range 0 num_rounds) candidates (evolution_round num_problems).

End Driver.

(** The column sums [a[i] + b[i]] of two operands. *)
Definition column_sums (a b : list Z) : list Z :=
  map (fun p => p.1 + p.2) (combine a b).

(** A computation that makes no draw: its outcome is the same on every
    tape and the tape comes back untouched. *)
Definition draw_free {A} (m : M A) : Prop :=
  forall s, m s = ((m []).1, s).

(** The character of a digit, the text of a list of digits, and the number
    that a decimal numeral denotes. *)
Definition digit_char (d : Z) : Ascii.ascii :=
  Ascii.ascii_of_nat (48 + Z.to_nat d).

Fixpoint digits_text (l : list Z) : string :=
  match l with
  | [] => EmptyString
  | d :: l' => String (digit_char d) (digits_text l')
  end.

Fixpoint decimal_value_from (acc : Z) (s : string) : Z :=
  match s with
  | EmptyString => acc
  | String c s' =>
    decimal_value_from (10 * acc + (Z.of_nat (Ascii.nat_of_ascii c) - 48)) s'
  end.

Definition decimal_value (s : string) : Z := decimal_value_from 0 s.

(** Reading a name back: the genes whose names start with the letters at
    positions 4, 5 and 6. *)
Definition gene_of_letter {G} (name : G -> string) (pool : list G)
    (letter : string) : option G :=
  List.find (fun g => String.eqb (String.substring 0 1 (name g)) letter) pool.

Definition candidate_of_name (name : string) : option candidate :=
  match gene_of_letter operation_name BINARY_OPERATIONS
          (String.substring 4 1 name),
        gene_of_letter accumulator_name ACCUMULATORS
          (String.substring 5 1 name),
        gene_of_letter chooser_name CHOOSERS
          (String.substring 6 1 name) with
  | Some op, Some acc, Some ch => Some (op, acc, ch)
  | _, _, _ => None
  end.

(** ** Crossovers *)

(** The crossovers of [repopulate]: the ordered pairs of different
    candidates, in the order in which its two loops meet them. *)
Definition crossovers (candidates : list candidate)
    : list (candidate * candidate) :=
  flat_map (fun c1 =>
    flat_map (fun c2 => if decide (c1 = c2) then [] else [(c1, c2)])
             candidates)
    candidates.

(** ** Kinds of numbers *)

(** A float of sign [s] that is a number: a zero, a finite double or an
    infinity. *)
Definition signed (s : bool) (f : spec_float) : Prop :=
  match f with
  | S754_zero s' | S754_infinity s' | S754_finite s' _ _ => s' = s
  | S754_nan => False
  end.

(** A float that is a number and not negative. *)
Definition nonneg_float (f : spec_float) : Prop :=
  match f with
  | S754_zero _ => True
  | S754_infinity s | S754_finite s _ _ => s = false
  | S754_nan => False
  end.

Definition finite_float (f : spec_float) : Prop :=
  match f with
  | S754_zero _ | S754_finite _ _ _ => True
  | _ => False
  end.

Definition nonneg_value (v : value) : Prop :=
  match v with
  | VInt z => 0 <= z
  | VFloat f => nonneg_float f
  end.

(** What the operations return on two digits: an int that is not negative,
    or a finite float that is not negative. *)
Definition small_value (v : value) : Prop :=
  match v with
  | VInt z => 0 <= z
  | VFloat f => nonneg_float f /\ finite_float f
  end.

Definition is_int (v : value) : Prop :=
  match v with
  | VInt _ => True
  | VFloat _ => False
  end.

(** A bound on what one problem of at most 307 columns adds to a total that
    is an int: its expected sum and its digit sequences are below it, and so
    is the penalty. *)
Definition column_bound : Z := 2 * 10 ^ 307.

(** ** Running computations *)

Lemma bind_ok {A B} (m : M A) (k : A -> M B) s a s' :
  m s = (Ok a, s') -> bind m k s = k a s'.
Proof. intros H. unfold bind. now rewrite H. Qed.

Lemma bind_raise {A B} (m : M A) (k : A -> M B) s e s' :
  m s = (Raise e, s') -> bind m k s = (Raise e, s').
Proof. intros H. unfold bind. now rewrite H. Qed.

Lemma for_each_app {A S} (l1 l2 : list A) (st : S) body s :
  for_each (l1 ++ l2) st body s =
  bind (for_each l1 st body) (fun st' => for_each l2 st' body) s.
Proof.
  revert st s. induction l1 as [|a l1 IH]; intros st s; simpl.
  - reflexivity.
  - unfold bind in *. destruct (body st a s) as [[st'|e] s1].
    + apply IH.
    + reflexivity.
Qed.

(** ** Conversion of an int to a double *)

Lemma shr_1_m (r : shr_record) :
  0 <= shr_m r -> shr_m (shr_1 r) = shr_m r / 2.
Proof.
  destruct r as [m rb sb]. simpl. intros Hm.
  destruct m as [|[p|p|]|p]; simpl; try lia; try reflexivity.
  - apply Z.div_unique with (r := 1%Z); lia.
  - apply Z.div_unique with (r := 0); lia.
Qed.

Lemma iter_shr_1_m (n : positive) (r : shr_record) :
  0 <= shr_m r -> shr_m (SpecFloat.iter_pos shr_1 n r) = shr_m r / 2 ^ Z.pos n.
Proof.
  revert r. induction n as [n IH|n IH|]; intros r Hr; cbn [SpecFloat.iter_pos].
  - assert (0 <= shr_m (shr_1 r)) as H1
      by (rewrite shr_1_m by lia; apply Z.div_pos; lia).
    assert (0 <= shr_m (SpecFloat.iter_pos shr_1 n (shr_1 r))) as H2
      by (rewrite IH by lia; apply Z.div_pos; [lia|apply Z.pow_pos_nonneg; lia]).
    rewrite IH, IH, shr_1_m by lia.
    rewrite !Z.div_div by (try apply Z.pow_pos_nonneg; lia).
    f_equal. change (Z.pos n~1) with (2 * Z.pos n + 1).
    replace (2 * Z.pos n + 1) with (1 + Z.pos n + Z.pos n) by lia.
    rewrite !Z.pow_add_r by lia. lia.
  - assert (0 <= shr_m (SpecFloat.iter_pos shr_1 n r)) as H2
      by (rewrite IH by lia; apply Z.div_pos; [lia|apply Z.pow_pos_nonneg; lia]).
    rewrite IH, IH by lia.
    rewrite !Z.div_div by (try apply Z.pow_pos_nonneg; lia).
    f_equal. change (Z.pos n~0) with (2 * Z.pos n).
    replace (2 * Z.pos n) with (Z.pos n + Z.pos n) by lia.
    rewrite !Z.pow_add_r by lia. lia.
  - rewrite shr_1_m by lia. f_equal.
Qed.

Lemma digits2_pos_lower (p : positive) :
  2 ^ (Z.pos (digits2_pos p) - 1) <= Z.pos p.
Proof.
  induction p as [p IH|p IH|]; cbn [digits2_pos].
  - rewrite Pos2Z.inj_succ.
    replace (Z.succ (Z.pos (digits2_pos p)) - 1)
      with (1 + (Z.pos (digits2_pos p) - 1)) by lia.
    rewrite Z.pow_add_r by lia. lia.
  - rewrite Pos2Z.inj_succ.
    replace (Z.succ (Z.pos (digits2_pos p)) - 1)
      with (1 + (Z.pos (digits2_pos p) - 1)) by lia.
    rewrite Z.pow_add_r by lia. lia.
  - reflexivity.
Qed.

Lemma shr_record_of_loc_m m l : shr_m (shr_record_of_loc m l) = m.
Proof. destruct l as [|[]]; reflexivity. Qed.

Lemma shr_fexp_pos (m e : Z) (l : location) :
  0 < m -> emin prec emax <= e ->
  0 < shr_m (fst (shr_fexp prec emax m e l)) /\
  emin prec emax <= snd (shr_fexp prec emax m e l).
Proof.
  intros Hm He. unfold shr_fexp, shr.
  destruct m as [|p|p]; try lia. simpl Zdigits2.
  destruct (fexp prec emax (Z.pos (digits2_pos p) + e) - e) as [|n|n] eqn:En;
    simpl; rewrite ?shr_record_of_loc_m; try (split; lia).
  rewrite iter_shr_1_m by (rewrite shr_record_of_loc_m; lia).
  rewrite shr_record_of_loc_m. split; [|lia].
  unfold fexp, emin, prec, emax in *.
  assert (Z.pos n <= Z.pos (digits2_pos p) - 1) as Hn by lia.
  pose proof (digits2_pos_lower p) as Hlow.
  apply Z.div_str_pos. split; [apply Z.pow_pos_nonneg; lia|].
  eapply Z.le_trans; [|exact Hlow]. apply Z.pow_le_mono_r; lia.
Qed.

Lemma round_nearest_even_pos m l : 0 < m -> 0 < round_nearest_even m l.
Proof.
  intros Hm. destruct l as [|[]]; simpl; try lia.
  destruct (Z.even m); lia.
Qed.

Lemma binary_round_aux_nonzero sx mx ex lx s :
  0 < mx -> emin prec emax <= ex ->
  binary_round_aux prec emax sx mx ex lx <> S754_zero s.
Proof.
  intros Hm He. unfold binary_round_aux.
  pose proof (shr_fexp_pos mx ex lx Hm He) as [H1 H2].
  destruct (shr_fexp prec emax mx ex lx) as [mrs' e']. simpl in H1, H2.
  pose proof (round_nearest_even_pos (shr_m mrs') (loc_of_shr_record mrs') H1) as H3.
  pose proof (shr_fexp_pos _ e' loc_Exact H3 H2) as [H4 H5].
  destruct (shr_fexp prec emax _ e' loc_Exact) as [mrs'' e'']. simpl in H4, H5.
  destruct (shr_m mrs''); try lia.
  destruct (e'' <=? emax - prec); discriminate.
Qed.

Lemma binary_normalize_nonzero (z : Z) (s : bool) :
  z <> 0 -> binary_normalize prec emax z 0 false <> S754_zero s.
Proof.
  intros Hz. unfold binary_normalize.
  destruct z as [|p|p]; [congruence| |]; unfold binary_round;
    destruct (shl_align p 0 _) as [mz ez] eqn:E; unfold shl_align in E;
    apply binary_round_aux_nonzero; try lia;
    destruct (fexp prec emax (Z.pos (digits2_pos p) + 0) - 0) eqn:F;
    inversion E; subst; unfold fexp, emin, prec, emax in *; lia.
Qed.

Lemma float_of_int_nonzero (z : Z) (g : spec_float) :
  z <> 0 -> float_of_int z = Ok g -> float_is_zero g = false.
Proof.
  intros Hz. unfold float_of_int.
  pose proof (fun s => binary_normalize_nonzero z s Hz) as Hn.
  destruct (binary_normalize prec emax z 0 false) as [s| | |];
    intros H0; inversion H0; subst; try reflexivity.
  now destruct (Hn s).
Qed.

(** Dividing by a non-zero int never raises [ZeroDivisionError]. *)
Lemma truediv_by_nonzero (t : value) (n : Z) :
  n <> 0 -> py_truediv t (VInt n) <> Raise ZeroDivisionError.
Proof.
  intros Hn. destruct t as [a|f]; simpl.
  - unfold int_truediv. destruct (Z.eqb_spec n 0) as [|_]; [contradiction|].
    destruct (a =? 0); [discriminate|].
    destruct (SFdiv_core_binary _ _ _ _ _ _) as [[mz ez] lz].
    destruct (binary_round_aux _ _ _ _ _ _); discriminate.
  - destruct (float_of_int n) as [g|e] eqn:E; simpl.
    + now rewrite (float_of_int_nonzero n g Hn E).
    + unfold float_of_int in E.
      destruct (binary_normalize _ _ _ _ _); inversion E; discriminate.
Qed.

Lemma len_nonempty {A} (l : list A) : l <> [] -> len l <> 0.
Proof. destruct l; [congruence|]. unfold len. simpl. lia. Qed.

(** ** Ranges and subscripts *)

Lemma range_nil lo hi : hi <= lo -> range lo hi = [].
Proof.
  intros H. unfold range. replace (Z.to_nat (hi - lo)) with 0%nat by lia.
  reflexivity.
Qed.

Lemma range_cons lo hi : lo < hi -> range lo hi = lo :: range (lo + 1) hi.
Proof.
  intros H. unfold range.
  replace (Z.to_nat (hi - lo)) with (S (Z.to_nat (hi - (lo + 1)))) by lia.
  simpl. f_equal; [lia|].
  rewrite <- seq_shift, map_map. apply map_ext. intros k. lia.
Qed.

Lemma range_length lo hi : length (range lo hi) = Z.to_nat (hi - lo).
Proof. unfold range. now rewrite length_map, length_seq. Qed.

Lemma range_In lo hi i : In i (range lo hi) <-> lo <= i < hi.
Proof.
  unfold range. rewrite in_map_iff. split.
  - intros (k & <- & Hk). apply in_seq in Hk. lia.
  - intros H. exists (Z.to_nat (i - lo)). split; [lia|]. apply in_seq. lia.
Qed.

Lemma range_split lo mid hi :
  lo <= mid <= hi -> range lo hi = range lo mid ++ range mid hi.
Proof.
  intros H. unfold range.
  replace (Z.to_nat (hi - lo))
    with (Z.to_nat (mid - lo) + Z.to_nat (hi - mid))%nat by lia.
  rewrite seq_app, map_app. f_equal. simpl.
  replace (Z.to_nat (mid - lo)) with (0 + Z.to_nat (mid - lo))%nat at 1 by lia.
  generalize (Z.to_nat (hi - mid)) as n. generalize 0%nat as k.
  intros k n. revert k. induction n as [|n IH]; intros k; simpl.
  - reflexivity.
  - f_equal; [lia|]. apply (IH (S k)).
Qed.

Lemma subscript_nat {A} (l : list A) (k : nat) :
  subscript l (Z.of_nat k) =
  match nth_error l k with
  | Some a => Ok a
  | None => Raise IndexError
  end.
Proof.
  unfold subscript.
  destruct (Z.ltb_spec (Z.of_nat k) 0) as [H|H]; [lia|].
  destruct (Z.ltb_spec (Z.of_nat k) 0) as [H'|_]; [lia|].
  now rewrite Nat2Z.id.
Qed.

Lemma subscript_in_range {A} (l : list A) (i : Z) :
  0 <= i < len l -> exists a, subscript l i = Ok a /\ nth_error l (Z.to_nat i) = Some a.
Proof.
  intros H. unfold len in H.
  rewrite <- (Z2Nat.id i) by lia. rewrite subscript_nat, Nat2Z.id.
  destruct (nth_error l (Z.to_nat i)) as [a|] eqn:E.
  - eauto.
  - apply nth_error_None in E. lia.
Qed.

Lemma subscript_out_of_range {A} (l : list A) (i : Z) :
  len l <= i -> subscript l i = Raise IndexError.
Proof.
  intros H. unfold len in H.
  rewrite <- (Z2Nat.id i) by lia. rewrite subscript_nat.
  destruct (nth_error l (Z.to_nat i)) as [a|] eqn:E; [|reflexivity].
  assert (nth_error l (Z.to_nat i) <> None) as Hn by congruence.
  apply nth_error_Some in Hn. lia.
Qed.

(** ** Digit arithmetic *)

Lemma len_app {A} (l1 l2 : list A) : len (l1 ++ l2) = len l1 + len l2.
Proof. unfold len. rewrite length_app. lia. Qed.

Lemma len_cons {A} (a : A) (l : list A) : len (a :: l) = len l + 1.
Proof. unfold len. simpl. lia. Qed.

Lemma len_nonneg {A} (l : list A) : 0 <= len l.
Proof. unfold len. lia. Qed.

Lemma len_ints l : len (ints l) = len l.
Proof. unfold len, ints. now rewrite length_map. Qed.

Lemma terms_ints (l pre : list Z) :
  pure_comprehension
    (fun i => rbind (subscript (ints (pre ++ l)) i) (py_mul (VInt (10 ^ i))))
    (range (len pre) (len pre + len l))
  = Ok (map VInt (weights (len pre) l)).
Proof.
  revert pre. induction l as [|d l IH]; intros pre.
  - rewrite range_nil by (unfold len; simpl; lia). reflexivity.
  - rewrite range_cons by (pose proof (len_nonneg l); rewrite len_cons; lia).
    simpl pure_comprehension.
    assert (subscript (ints (pre ++ d :: l)) (len pre) = Ok (VInt d)) as ->.
    { unfold len. rewrite subscript_nat. unfold ints.
      rewrite nth_error_map, nth_error_app2, Nat.sub_diag by lia.
      reflexivity. }
    simpl rbind at 2.
    specialize (IH (pre ++ [d])).
    rewrite <- app_assoc in IH. simpl in IH.
    rewrite len_app in IH. change (len [d]) with 1 in IH.
    rewrite len_cons.
    replace (len pre + (len l + 1)) with (len pre + 1 + len l) by lia.
    rewrite IH. reflexivity.
Qed.

Lemma py_sum_ints (l : list Z) (acc : Z) :
  fold_left (fun acc t => rbind acc (fun s => py_add s t)) (map VInt l)
            (Ok (VInt acc))
  = Ok (VInt (fold_left Z.add l acc)).
Proof.
  revert acc. induction l as [|d l IH]; intros acc; simpl.
  - reflexivity.
  - apply IH.
Qed.

Lemma fold_weights (l : list Z) (i acc : Z) :
  fold_left Z.add (weights i l) acc = acc + weighted_sum i l.
Proof.
  revert i acc. induction l as [|d l IH]; intros i acc; simpl.
  - lia.
  - rewrite IH. lia.
Qed.

(** On a list of ints [list_to_int] is the sum the specification writes. *)
Lemma list_to_int_ints (l : list Z) :
  list_to_int (ints l) = Ok (VInt (sequence_to_integer l)).
Proof.
  unfold list_to_int. rewrite len_ints.
  pose proof (terms_ints l []) as H. simpl in H.
  change (len []) with 0 in H. rewrite Z.add_0_l in H. rewrite H. simpl.
  unfold py_sum. rewrite py_sum_ints, fold_weights. reflexivity.
Qed.

Lemma list_sum_ints (a b : list Z) :
  list_sum (ints a) (ints b)
  = Ok (VInt (sequence_to_integer a + sequence_to_integer b)).
Proof. unfold list_sum. now rewrite !list_to_int_ints. Qed.

Lemma weighted_sum_nonneg (l : list Z) (i : Z) :
  0 <= i -> Forall digit l -> 0 <= weighted_sum i l.
Proof.
  intros Hi H. revert i Hi. induction H as [|d l Hd _ IH]; intros i Hi; simpl.
  - lia.
  - specialize (IH (i + 1) ltac:(lia)). unfold digit in Hd.
    assert (0 < 10 ^ i) by (apply Z.pow_pos_nonneg; lia). nia.
Qed.

Lemma expected_sum_nonneg (p : problem) : well_formed p -> 0 <= expected_sum p.
Proof.
  destruct p as [[a b] c]. intros (_ & Ha & Hb & _). unfold expected_sum. simpl.
  pose proof (weighted_sum_nonneg a 0 ltac:(lia) Ha).
  pose proof (weighted_sum_nonneg b 0 ltac:(lia) Hb).
  unfold sequence_to_integer. lia.
Qed.

(** ** Random choices and comprehensions *)

Lemma choice_ok {A} (l : list A) (s : rng) :
  l <> [] -> exists a s', choice l s = (Ok a, s') /\ In a l.
Proof.
  intros Hl. destruct l as [|d l]; [congruence|].
  unfold choice, bind, draw, ret.
  assert (forall r : N,
    (N.to_nat (r mod N.of_nat (length (d :: l))) < length (d :: l))%nat) as Hlt.
  { intros r.
    assert (r mod N.of_nat (length (d :: l)) < N.of_nat (length (d :: l)))%N
      by (apply N.mod_lt; simpl; lia).
    lia. }
  destruct s as [|r s]; eexists; eexists; (split; [reflexivity|]);
    apply nth_In, Hlt.
Qed.

Lemma comprehension_ok {A B} (f : A -> M B) (P : A -> B -> Prop) (l : list A) :
  (forall x s, In x l -> exists b s', f x s = (Ok b, s') /\ P x b) ->
  forall s, exists bs s', comprehension f l s = (Ok bs, s') /\ Forall2 P l bs.
Proof.
  induction l as [|x l IH]; intros Hf s; simpl.
  - exists [], s. split; [reflexivity|constructor].
  - destruct (Hf x s (or_introl eq_refl)) as (b & s1 & Hb & HP).
    destruct (IH (fun y t Hy => Hf y t (or_intror Hy)) s1)
      as (bs & s2 & Hbs & HPs).
    exists (b :: bs), s2. split.
    + rewrite (bind_ok _ _ _ _ _ Hb), (bind_ok _ _ _ _ _ Hbs). reflexivity.
    + now constructor.
Qed.

Lemma range_nth_error lo hi (k : nat) :
  (k < Z.to_nat (hi - lo))%nat ->
  nth_error (range lo hi) k = Some (lo + Z.of_nat k).
Proof.
  intros H. unfold range. rewrite nth_error_map, nth_error_seq.
  destruct (Nat.ltb_spec k (Z.to_nat (hi - lo))) as [_|]; [|lia].
  reflexivity.
Qed.

Lemma Forall2_nth_error {A B} (P : A -> B -> Prop) l bs k x b :
  Forall2 P l bs -> nth_error l k = Some x -> nth_error bs k = Some b -> P x b.
Proof.
  intros H. revert k. induction H as [|x' y' l' bs' Hxy _ IH]; intros [|k] Hx Hb;
    simpl in *; try discriminate.
  - now inversion Hx; inversion Hb; subst.
  - eauto.
Qed.

Lemma Forall2_range_nth {B} (P : Z -> B -> Prop) (n : Z) (bs : list B) :
  Forall2 P (range 0 n) bs ->
  length bs = Z.to_nat n /\
  forall k b, nth_error bs k = Some b -> P (Z.of_nat k) b.
Proof.
  intros H.
  assert (length (range 0 n) = length bs) as Hlen
    by (eapply Forall2_length; exact H).
  rewrite range_length, Z.sub_0_r in Hlen.
  split; [congruence|].
  intros k b Hk.
  assert (k < length bs)%nat as Hlt by (apply nth_error_Some; congruence).
  eapply Forall2_nth_error; [exact H| |exact Hk].
  rewrite range_nth_error by (rewrite Z.sub_0_r; lia). f_equal.
Qed.

(** ** The problem generator *)

Lemma range_10_digit d : In d (range 0 10) -> digit d.
Proof. intros H. apply range_In in H. unfold digit. lia. Qed.

Lemma range_10_nonempty : range 0 10 <> [].
Proof. discriminate. Qed.

(** C2: for [1 <= min_size < max_size], [generate_problem] returns a triple
    [(a, b, c)] whose operands have one common length in
    [[min_size, max_size)], every [a[i]] is a digit, every [b[i]] lies in
    [[0, 9 - a[i]]] so that no column carries, and [c] is the sum of the two
    operands read least significant digit first. *)
Theorem generate_problem_no_carry (min_size max_size : Z) (s : rng) :
  1 <= min_size < max_size ->
  exists a b c s',
    generate_problem min_size max_size s = (Ok (a, b, c), s') /\
    length a = length b /\
    min_size <= len a < max_size /\
    Forall digit a /\
    (forall i ai bi,
       nth_error a i = Some ai -> nth_error b i = Some bi ->
       0 <= bi <= 9 - ai /\ ai + bi <= 9) /\
    c = VInt (sequence_to_integer a + sequence_to_integer b).
Proof.
  intros Hsz. unfold generate_problem.
  destruct (choice_ok (range min_size max_size) s) as (size & s1 & Hc & Hin).
  { rewrite range_cons by lia. discriminate. }
  apply range_In in Hin.
  destruct (comprehension_ok (fun _ : Z => choice (range 0 10))
              (fun _ d => digit d) (range 0 size)) with (s := s1)
    as (a & s2 & Ha & Hda).
  { intros x t _. destruct (choice_ok (range 0 10) t range_10_nonempty)
      as (d & t' & Hd & Hind).
    exists d, t'. split; [exact Hd|]. now apply range_10_digit. }
  apply Forall2_range_nth in Hda. destruct Hda as [Hlena Hda].
  destruct (comprehension_ok
              (fun i => let* r := choice (range 0 10) in
                        let* ai := lift (subscript a i) in
                        lift (py_mod r (10 - ai)))
              (fun i bi => exists ai, nth_error a (Z.to_nat i) = Some ai /\
                                      0 <= bi <= 9 - ai)
              (range 0 size)) with (s := s2)
    as (b & s3 & Hb & Hdb).
  { intros i t Hi. apply range_In in Hi.
    destruct (choice_ok (range 0 10) t range_10_nonempty)
      as (r & t' & Hr & Hinr).
    apply range_10_digit in Hinr.
    destruct (subscript_in_range a i) as (ai & Hai & Hnth).
    { unfold len. lia. }
    assert (digit ai) as Hdai.
    { specialize (Hda (Z.to_nat i) ai Hnth). exact Hda. }
    unfold digit in Hdai, Hinr.
    exists (r mod (10 - ai)), t'. split.
    - rewrite (bind_ok _ _ _ _ _ Hr). unfold bind, lift. rewrite Hai.
      unfold py_mod. destruct (Z.eqb_spec (10 - ai) 0); [lia|reflexivity].
    - exists ai. split; [exact Hnth|].
      pose proof (Z.mod_pos_bound r (10 - ai) ltac:(lia)). lia. }
  apply Forall2_range_nth in Hdb. destruct Hdb as [Hlenb Hdb].
  exists a, b, (VInt (sequence_to_integer a + sequence_to_integer b)), s3.
  split.
  { rewrite (bind_ok _ _ _ _ _ Hc), (bind_ok _ _ _ _ _ Ha),
      (bind_ok _ _ _ _ _ Hb).
    unfold bind, lift, ret. now rewrite list_sum_ints. }
  split; [congruence|].
  split; [unfold len; lia|].
  split.
  { apply List.Forall_forall. intros d Hd. apply In_nth_error in Hd.
    destruct Hd as [k Hk]. exact (Hda k d Hk). }
  split; [|reflexivity].
  intros i ai bi Hai Hbi.
  destruct (Hdb i bi Hbi) as (ai' & Hai' & Hbound).
  rewrite Nat2Z.id in Hai'. assert (ai' = ai) by congruence. subst ai'. lia.
Qed.

Lemma generate_problem_no_carry_witness :
  1 <= 2 < 3 /\
  exists a b c s',
    generate_problem 2 3 [0; 7; 3; 5; 9]%N = (Ok (a, b, c), s') /\
    length a = length b /\
    2 <= len a < 3 /\
    Forall digit a /\
    (forall i ai bi,
       nth_error a i = Some ai -> nth_error b i = Some bi ->
       0 <= bi <= 9 - ai /\ ai + bi <= 9) /\
    c = VInt (sequence_to_integer a + sequence_to_integer b).
Proof.
  split; [lia|]. apply (generate_problem_no_carry 2 3). lia.
Defined.

Example generate_problem_run :
  generate_problem 2 3 [0; 7; 3; 5; 9]%N = (Ok ([7; 3], [2; 2], VInt 59), []).
Proof. vm_compute. reflexivity. Qed.

(** ** The fitness evaluator *)

Section Evaluator.

Variable libm_pow : spec_float -> spec_float -> spec_float.

Lemma add_penalty (score : value) :
  py_add score (VInt 999) = Ok (penalised score).
Proof. destruct score; reflexivity. Qed.

(** One problem: the [try] with its bare [except] is the case analysis of
    [credited]; it never raises. *)
Lemma score_problem_credited (algorithm : candidate) (score : value)
    (a b : list Z) (answer : value) (s : rng) :
  score_problem libm_pow algorithm score (a, b, answer) s =
  (Ok (credited score
         (loop libm_pow a b algorithm.1.1 algorithm.1.2 algorithm.2 s).1
         answer),
   (loop libm_pow a b algorithm.1.1 algorithm.1.2 algorithm.2 s).2).
Proof.
  destruct algorithm as [[op acc] ch]. simpl.
  unfold score_problem, try_except, attempt, bind.
  destruct (loop libm_pow a b op acc ch s) as [[z|e] s1]; simpl.
  - unfold invalid_digit.
    destruct (existsb (fun x => py_gt x (VInt 9)) z); simpl.
    + unfold lift. now rewrite add_penalty.
    + unfold lift, abs_error.
      destruct (list_to_int z) as [v|e]; simpl;
        [|now rewrite add_penalty].
      destruct (py_sub v answer) as [d|e]; simpl;
        [|now rewrite add_penalty].
      destruct (py_add score (py_abs d)) as [t|e]; simpl;
        [reflexivity|now rewrite add_penalty].
  - unfold lift. now rewrite add_penalty.
Qed.

Lemma for_each_total_error (algorithm : candidate) (problems : list problem)
    (score : value) (s : rng) :
  for_each problems score (score_problem libm_pow algorithm) s =
  (Ok (total_error libm_pow algorithm score problems s).1,
   (total_error libm_pow algorithm score problems s).2).
Proof.
  revert score s. induction problems as [|[[a b] answer] rest IH];
    intros score s; simpl.
  - reflexivity.
  - unfold bind. rewrite score_problem_credited.
    destruct (loop libm_pow a b algorithm.1.1 algorithm.1.2 algorithm.2 s)
      as [outcome s1]. simpl. apply IH.
Qed.

(** C1 (as the code has it): the outcome of [candidate_score] is that of
    dividing the running total by the number of problems, and on a non-empty
    batch that division never divides by zero.  Each problem adds the fixed
    penalty 999 when the candidate's loop raises, when the produced sequence
    has an element above 9, or when computing
    [|sequence_to_integer(Z) - expected|] and adding it to the total
    overflows the host's floats; otherwise it adds that error.  No fault of
    one problem stops the evaluation of the next ones: the running total
    always exists. *)
Theorem candidate_score_mean_error (algorithm : candidate)
    (problems : list problem) (s : rng) :
  (forall score a b answer t,
     score_problem libm_pow algorithm score (a, b, answer) t =
     (Ok (credited score
            (loop libm_pow a b algorithm.1.1 algorithm.1.2 algorithm.2 t).1
            answer),
      (loop libm_pow a b algorithm.1.1 algorithm.1.2 algorithm.2 t).2)) /\
  running_total libm_pow algorithm problems s =
    (Ok (total_error libm_pow algorithm (VInt 0) problems s).1,
     (total_error libm_pow algorithm (VInt 0) problems s).2) /\
  candidate_score libm_pow algorithm problems s =
    (py_truediv (total_error libm_pow algorithm (VInt 0) problems s).1
                (VInt (len problems)),
     (total_error libm_pow algorithm (VInt 0) problems s).2) /\
  (problems <> [] ->
   (candidate_score libm_pow algorithm problems s).1
     <> Raise ZeroDivisionError).
Proof.
  split; [intros; apply score_problem_credited|].
  assert (running_total libm_pow algorithm problems s =
    (Ok (total_error libm_pow algorithm (VInt 0) problems s).1,
     (total_error libm_pow algorithm (VInt 0) problems s).2)) as H
    by apply for_each_total_error.
  split; [exact H|].
  assert (candidate_score libm_pow algorithm problems s =
    (py_truediv (total_error libm_pow algorithm (VInt 0) problems s).1
                (VInt (len problems)),
     (total_error libm_pow algorithm (VInt 0) problems s).2)) as Hc
    by (unfold candidate_score; now rewrite (bind_ok _ _ _ _ _ H)).
  split; [exact Hc|].
  intros Hne. rewrite Hc. simpl.
  apply truediv_by_nonzero. now apply len_nonempty.
Qed.

(** *** The always-zero chooser *)

Lemma loop_zero (a b : list Z) (op : operation) (acc : accumulator) (s : rng) :
  loop libm_pow a b op acc Zero s = (Ok [], s).
Proof. reflexivity. Qed.

Lemma score_problem_zero (op : operation) (acc : accumulator) (t : Z)
    (p : problem) (s : rng) :
  well_formed p ->
  score_problem libm_pow (op, acc, Zero) (VInt t) p s =
  (Ok (VInt (t + expected_sum p)), s).
Proof.
  intros Hp. pose proof (expected_sum_nonneg p Hp) as Hpos.
  destruct p as [[a b] answer]. destruct Hp as (_ & _ & _ & _ & ->).
  unfold expected_sum in *. simpl in *.
  unfold score_problem, try_except, attempt, bind. rewrite loop_zero. simpl.
  unfold lift. do 2 f_equal. f_equal. lia.
Qed.

Lemma running_total_zero (op : operation) (acc : accumulator)
    (problems : list problem) (t : Z) (s : rng) :
  Forall well_formed problems ->
  for_each problems (VInt t) (score_problem libm_pow (op, acc, Zero)) s =
  (Ok (VInt (t + batch_sum problems)), s).
Proof.
  intros H. revert t. induction H as [|p rest Hp _ IH]; intros t; simpl.
  - unfold ret. do 3 f_equal. unfold batch_sum. simpl. lia.
  - rewrite (bind_ok _ _ _ _ _ (score_problem_zero op acc t p s Hp)).
    rewrite IH. do 3 f_equal. unfold batch_sum. simpl. lia.
Qed.

(** C8: on [a = [2, 3]], [b = [1, 1]] the expected sum is 43; the candidate
    (add, append, full length) makes the loop return [[3, 4]], which converts
    to 43, so the problem adds an error of 0 to the candidate's total. *)
Theorem add_append_len_scenario (s : rng) (t : Z) :
  list_sum (ints [2; 3]) (ints [1; 1]) = Ok (VInt 43) /\
  loop libm_pow [2; 3] [1; 1] Add Append Len s = (Ok [VInt 3; VInt 4], s) /\
  list_to_int [VInt 3; VInt 4] = Ok (VInt 43) /\
  abs_error [VInt 3; VInt 4] (VInt 43) = Ok (VInt 0) /\
  score_problem libm_pow (Add, Append, Len) (VInt t) ([2; 3], [1; 1], VInt 43) s
    = (Ok (VInt (t + 0)), s) /\
  candidate_score libm_pow (Add, Append, Len) [([2; 3], [1; 1], VInt 43)] s
    = (Ok (VFloat (S754_zero false)), s).
Proof. repeat split; reflexivity. Qed.

End Evaluator.

(** *** Runs of the evaluator *)

Lemma scenario_well_formed : well_formed scenario.
Proof.
  assert (forall l, Forall (fun d => 0 <= d <= 9) l -> Forall digit l) as Hd
    by (intros l H; exact H).
  split; [reflexivity|].
  split; [apply Hd; repeat (constructor; [lia|]); constructor|].
  split; [apply Hd; repeat (constructor; [lia|]); constructor|].
  split; [|reflexivity].
  intros [|[|i]] ai bi Ha Hb; simpl in *;
    try (inversion Ha; inversion Hb; lia).
  destruct i; discriminate.
Qed.

Lemma candidate_score_mean_error_witness :
  running_total reference_pow (Div, Append, Len)
    [scenario; ([4; 2], [3; 0], VInt 46)] []
    = (Ok (VFloat (S754_finite false 8884053952430080 (-43))), []) /\
  candidate_score reference_pow (Div, Append, Len)
    [scenario; ([4; 2], [3; 0], VInt 46)] []
    = (Ok (VFloat (S754_finite false 8884053952430080 (-44))), []) /\
  [scenario; ([4; 2], [3; 0], VInt 46)] <> [] /\
  (candidate_score reference_pow (Div, Append, Len)
     [scenario; ([4; 2], [3; 0], VInt 46)] []).1 <> Raise ZeroDivisionError.
Proof.
  destruct (candidate_score_mean_error reference_pow (Div, Append, Len)
              [scenario; ([4; 2], [3; 0], VInt 46)] [])
    as (_ & Ht & Hc & Hz).
  split; [exact Ht|]. split; [exact Hc|].
  split; [discriminate|]. apply Hz. discriminate.
Defined.

Lemma problem_310_well_formed : well_formed problem_310.
Proof.
  unfold problem_310, ones_310.
  split; [reflexivity|].
  assert (Forall digit (repeat 1 310)) as Hd.
  { apply List.Forall_forall. intros d Hd. apply repeat_spec in Hd.
    subst d. unfold digit. lia. }
  split; [exact Hd|]. split; [exact Hd|]. split; [|reflexivity].
  intros i ai bi Ha Hb.
  apply nth_error_In, repeat_spec in Ha.
  apply nth_error_In, repeat_spec in Hb. lia.
Qed.

(** C1 fails as stated: a well-formed problem of 310 columns on which the
    loop of (divide, append, full length) raises nothing and produces no
    element above 9, and which still adds the penalty 999, because
    [10**309 * 1.0] overflows when the sequence is converted. *)
Lemma penalty_without_loop_fault :
  well_formed problem_310 /\
  match (loop reference_pow ones_310 ones_310 Div Append Len []).1 with
  | Ok z => invalid_digit z = false /\ list_to_int z = Raise OverflowError
  | Raise _ => False
  end /\
  score_problem reference_pow (Div, Append, Len) (VInt 0) problem_310 []
    = (Ok (VInt 999), []).
Proof.
  split; [exact problem_310_well_formed|].
  split; vm_compute; [split|]; reflexivity.
Qed.

(** ** The interpreter *)

Section Interpreter.

Variable libm_pow : spec_float -> spec_float -> spec_float.

Lemma choice_In {A} (l : list A) (s s' : rng) (a : A) :
  choice l s = (Ok a, s') -> In a l.
Proof.
  intros H. destruct l as [|d l]; [discriminate|].
  destruct (choice_ok (d :: l) s ltac:(discriminate)) as (a' & s'' & H' & Hin).
  congruence.
Qed.

Lemma chooser_bound (ch : chooser) (x : list Z) (s s' : rng) (n : Z) :
  call_chooser ch x s = (Ok n, s') -> 0 <= n <= len x.
Proof.
  pose proof (len_nonneg x) as Hx. destruct ch; simpl; intros H.
  - inversion H. lia.
  - apply choice_In, range_In in H. lia.
  - inversion H. lia.
Qed.

Lemma acc_ok (acc : accumulator) (z : list value) (v : value) (s : rng) :
  exists z' s', call_acc acc z v s = (Ok z', s').
Proof.
  destruct acc; simpl; try (eexists; eexists; reflexivity).
  unfold insert_rand.
  destruct (choice_ok (range 0 (len z + 1)) s) as (i & s' & Hi & _).
  { pose proof (len_nonneg z). rewrite range_cons by lia. discriminate. }
  rewrite (bind_ok _ _ _ _ _ Hi). eexists; eexists; reflexivity.
Qed.

Lemma op_no_index_error (op : operation) (a b : Z) :
  call_op libm_pow op a b <> Raise IndexError.
Proof.
  destruct op; simpl; try discriminate.
  - unfold div, py_truediv, int_truediv.
    destruct (b =? 0); [discriminate|].
    destruct (a =? 0); [discriminate|].
    destruct (SFdiv_core_binary _ _ _ _ _ _) as [[mz ez] lz].
    destruct (binary_round_aux _ _ _ _ _ _); discriminate.
  - unfold exp. destruct (0 <=? b); [discriminate|].
    unfold float_of_int.
    destruct (binary_normalize _ _ a _ _); simpl; try discriminate;
      destruct (binary_normalize _ _ b _ _); simpl; try discriminate;
      destruct (a =? 0); discriminate.
Qed.

Lemma for_each_no_index_error {A S} (l : list A) (body : S -> A -> M S) :
  (forall i z s, In i l -> (body z i s).1 <> Raise IndexError) ->
  forall z s, (for_each l z body s).1 <> Raise IndexError.
Proof.
  induction l as [|i l IH]; intros Hb z s; simpl.
  - discriminate.
  - unfold bind. specialize (Hb i z s (or_introl eq_refl)) as Hi.
    destruct (body z i s) as [[z'|e] s1]; simpl in *.
    + apply IH. intros j w t Hj. apply Hb. now right.
    + exact Hi.
Qed.

Lemma loop_body_in_range (x y : list Z) (op : operation) (acc : accumulator)
    (z : list value) (i : Z) (s : rng) :
  0 <= i < len x -> 0 <= i < len y ->
  (loop_body libm_pow x y op acc z i s).1 <> Raise IndexError.
Proof.
  intros Hx Hy. unfold loop_body, bind, lift.
  destruct (subscript_in_range x i Hx) as (xi & -> & _).
  destruct (subscript_in_range y i Hy) as (yi & -> & _).
  pose proof (op_no_index_error op xi yi) as Hop.
  destruct (call_op libm_pow op xi yi) as [v|e]; simpl.
  - destruct (acc_ok acc z v s) as (z' & s' & ->). discriminate.
  - intros He. apply Hop. now inversion He.
Qed.

Lemma loop_body_past_y (x y : list Z) (op : operation) (acc : accumulator)
    (z : list value) (i : Z) (s : rng) :
  0 <= i < len x -> len y <= i ->
  loop_body libm_pow x y op acc z i s = (Raise IndexError, s).
Proof.
  intros Hx Hy. unfold loop_body, bind, lift.
  destruct (subscript_in_range x i Hx) as (xi & -> & _).
  now rewrite (subscript_out_of_range y i Hy).
Qed.

(** C6 (as the code has it): the iteration count is what the chooser
    returns for [x], between 0 and [len(x)], and nothing bounds it by
    [len(y)]: the loop indexes both sequences at 0, 1, ... below the count.
    When [y] is at least as long as [x] no index is out of range; when the
    loop gets through the first [len(y)] turns and the count is larger, the
    access [y[len(y)]] raises [IndexError]. *)
Theorem loop_indexes_below_count (x y : list Z) (op : operation)
    (acc : accumulator) (ch : chooser) (s s1 : rng) (n : Z) :
  call_chooser ch x s = (Ok n, s1) ->
  0 <= n <= len x /\
  loop libm_pow x y op acc ch s =
    for_each (range 0 n) [] (loop_body libm_pow x y op acc) s1 /\
  (len x <= len y -> (loop libm_pow x y op acc ch s).1 <> Raise IndexError) /\
  (forall z s2,
     len y < n ->
     for_each (range 0 (len y)) [] (loop_body libm_pow x y op acc) s1
       = (Ok z, s2) ->
     loop libm_pow x y op acc ch s = (Raise IndexError, s2)).
Proof.
  intros Hch. pose proof (chooser_bound _ _ _ _ _ Hch) as Hn.
  assert (loop libm_pow x y op acc ch s =
          for_each (range 0 n) [] (loop_body libm_pow x y op acc) s1) as Hloop
    by (unfold loop; now rewrite (bind_ok _ _ _ _ _ Hch)).
  split; [exact Hn|]. split; [exact Hloop|]. split.
  - intros Hlen. rewrite Hloop. apply for_each_no_index_error.
    intros i z t Hi. apply range_In in Hi.
    apply loop_body_in_range; lia.
  - intros z s2 Hlt Hrun. rewrite Hloop.
    pose proof (len_nonneg y) as Hy.
    rewrite (range_split 0 (len y) n) by lia.
    rewrite (range_cons (len y) n) by lia.
    rewrite for_each_app, (bind_ok _ _ _ _ _ Hrun). simpl.
    apply bind_raise. apply loop_body_past_y; lia.
Qed.

End Interpreter.

Lemma loop_indexes_below_count_witness :
  call_chooser Len [1; 2] [] = (Ok 2, []) /\
  0 <= 2 <= len [1; 2] /\
  (len [1; 2] <= len [5; 6] ->
   (loop reference_pow [1; 2] [5; 6] Mult Append Len []).1 <> Raise IndexError).
Proof.
  split; [reflexivity|].
  pose proof (loop_indexes_below_count reference_pow [1; 2] [5; 6]
                Mult Append Len [] [] 2 eq_refl) as (H1 & _ & H2 & _).
  split; [exact H1|exact H2].
Defined.

(** C6 fails as stated: with [len(x) = 2] and [len(y) = 1] the full-length
    chooser returns 2, the first turn passes, and the second turn indexes
    [y] at position 1, which is [min(len(x), len(y))]. *)
Lemma loop_indexes_past_y :
  call_chooser Len [1; 2] [] = (Ok 2, []) /\
  Z.min (len [1; 2]) (len [1]) = 1 /\
  for_each (range 0 1) [] (loop_body reference_pow [1; 2] [1] Add Append) []
    = (Ok [VInt 2], []) /\
  subscript [1] 1 = Raise IndexError /\
  loop reference_pow [1; 2] [1] Add Append Len [] = (Raise IndexError, []).
Proof. repeat split; reflexivity. Qed.

(** ** Division by a zero digit *)

Section DivideByZero.

Variable libm_pow : spec_float -> spec_float -> spec_float.

Lemma div_by_zero (x : Z) : div x 0 = Raise ZeroDivisionError.
Proof. reflexivity. Qed.

Lemma loop_body_div_zero (a b : list Z) (acc : accumulator) (z : list value)
    (i : Z) (s : rng) :
  subscript b i = Ok 0 ->
  exists e, loop_body libm_pow a b Div acc z i s = (Raise e, s).
Proof.
  intros Hb. unfold loop_body, bind, lift. rewrite Hb.
  destruct (subscript a i) as [xi|e].
  - exists ZeroDivisionError. reflexivity.
  - exists e. reflexivity.
Qed.

Lemma for_each_raises {A S} (body : S -> A -> M S) (i : A) (l1 l2 : list A) :
  (forall z s, exists e, body z i s = (Raise e, s)) ->
  forall z s, exists e s', for_each (l1 ++ i :: l2) z body s = (Raise e, s').
Proof.
  intros Hi z s. rewrite for_each_app. unfold bind at 1.
  destruct (for_each l1 z body s) as [[z'|e] s1].
  - destruct (Hi z' s1) as [e He]. simpl. unfold bind. rewrite He. eauto.
  - eauto.
Qed.

(** C7: when the operation is divide and [b] holds a zero at an index below
    the chooser's iteration count, the loop raises, the problem adds the
    penalty 999 to the running total, and so does it inside any batch that
    contains the problem. *)
Theorem divide_by_zero_digit_penalised (acc : accumulator) (ch : chooser)
    (a b : list Z) (answer : value) (s s1 : rng) (n i : Z) :
  call_chooser ch a s = (Ok n, s1) ->
  0 <= i < n ->
  subscript b i = Ok 0 ->
  exists e s',
    loop libm_pow a b Div acc ch s = (Raise e, s') /\
    (forall score,
       score_problem libm_pow (Div, acc, ch) score (a, b, answer) s =
       (py_add score (VInt 999), s')) /\
    (forall score, py_add score (VInt 999) = Ok (penalised score)) /\
    (forall before after s0 total,
       running_total libm_pow (Div, acc, ch) before s0 = (Ok total, s) ->
       running_total libm_pow (Div, acc, ch)
         (before ++ (a, b, answer) :: after) s0 =
       for_each after (penalised total)
         (score_problem libm_pow (Div, acc, ch)) s').
Proof.
  intros Hch Hi Hb.
  assert (exists e s', loop libm_pow a b Div acc ch s = (Raise e, s'))
    as (e & s' & Hloop).
  { unfold loop. rewrite (bind_ok _ _ _ _ _ Hch).
    rewrite (range_split 0 i n) by lia. rewrite (range_cons i n) by lia.
    apply for_each_raises. intros z t. now apply loop_body_div_zero. }
  assert (forall score,
    score_problem libm_pow (Div, acc, ch) score (a, b, answer) s =
    (py_add score (VInt 999), s')) as Hscore.
  { intros score. unfold score_problem, try_except, attempt.
    rewrite (bind_raise _ _ _ _ _ Hloop). reflexivity. }
  exists e, s'. split; [exact Hloop|]. split; [exact Hscore|].
  split; [exact add_penalty|].
  intros before after s0 total Hbefore.
  unfold running_total in *. rewrite for_each_app.
  rewrite (bind_ok _ _ _ _ _ Hbefore). simpl.
  erewrite bind_ok; [reflexivity|]. rewrite Hscore. now rewrite add_penalty.
Qed.

End DivideByZero.

Lemma divide_by_zero_digit_penalised_witness :
  call_chooser Len [4; 2] [] = (Ok 2, []) /\
  0 <= 1 < 2 /\
  subscript [3; 0] 1 = Ok 0 /\
  exists e s',
    loop reference_pow [4; 2] [3; 0] Div Append Len [] = (Raise e, s') /\
    (forall score,
       score_problem reference_pow (Div, Append, Len) score
         ([4; 2], [3; 0], VInt 46) [] =
       (py_add score (VInt 999), s')) /\
    (forall score, py_add score (VInt 999) = Ok (penalised score)) /\
    (forall before after s0 total,
       running_total reference_pow (Div, Append, Len) before s0
         = (Ok total, []) ->
       running_total reference_pow (Div, Append, Len)
         (before ++ ([4; 2], [3; 0], VInt 46) :: after) s0 =
       for_each after (penalised total)
         (score_problem reference_pow (Div, Append, Len)) s').
Proof.
  split; [reflexivity|]. split; [lia|]. split; [reflexivity|].
  apply (divide_by_zero_digit_penalised reference_pow Append Len
           [4; 2] [3; 0] (VInt 46) [] [] 2 1); [reflexivity|lia|reflexivity].
Defined.

Example divide_by_zero_digit_run :
  candidate_score reference_pow (Div, Append, Len)
    [([4; 2], [3; 0], VInt 46)] []
  = (Ok (VFloat float_999), []).
Proof. vm_compute. reflexivity. Qed.

(** ** The reproducer *)

Lemma uniform_unit_ok (s : rng) :
  exists f s', uniform (VInt 0) (VInt 1) s = (Ok (VFloat f), s').
Proof.
  unfold uniform, bind, lift, random, draw, ret.
  destruct s as [|r s]; eexists; eexists; reflexivity.
Qed.

Lemma mutate_excludes {G} `{EqDecision G} (pool : list G) (g1 g2 g : G)
    (s s' : rng) :
  mutate pool g1 g2 s = (Ok g, s') -> In g pool /\ g <> g1 /\ g <> g2.
Proof.
  intros H0. unfold mutate in H0. apply choice_In in H0.
  apply filter_In in H0. destruct H0 as [Hin Hex]. split; [exact Hin|].
  unfold py_in in Hex. simpl in Hex.
  apply negb_true_iff in Hex. rewrite orb_false_r in Hex.
  apply orb_false_elim in Hex. destruct Hex as [H1 H2].
  apply bool_decide_eq_false in H1. apply bool_decide_eq_false in H2.
  split; assumption.
Qed.

Lemma operations_left (g1 g2 : operation) :
  (2 <= length (List.filter (fun x => negb (py_in x [g1; g2]))
                            BINARY_OPERATIONS))%nat.
Proof. destruct g1, g2; vm_compute; lia. Qed.

Lemma accumulators_left (g1 g2 : accumulator) :
  (2 <= length (List.filter (fun x => negb (py_in x [g1; g2]))
                            ACCUMULATORS))%nat.
Proof. destruct g1, g2; vm_compute; lia. Qed.

Lemma choosers_left (g1 g2 : chooser) :
  (1 <= length (List.filter (fun x => negb (py_in x [g1; g2]))
                            CHOOSERS))%nat.
Proof. destruct g1, g2; vm_compute; lia. Qed.

Lemma trait_ok {G} `{EqDecision G} (pool : list G) (g1 g2 : G) (s : rng) :
  (1 <= length (List.filter (fun x => negb (py_in x [g1; g2])) pool))%nat ->
  exists g s', trait pool g1 g2 s = (Ok g, s').
Proof.
  intros Hleft. unfold trait.
  destruct (uniform_unit_ok s) as (f & s1 & Hu).
  rewrite (bind_ok _ _ _ _ _ Hu).
  destruct (py_gt (VFloat f) quarter).
  - destruct (choice_ok [g1; g2] s1 ltac:(discriminate)) as (g & s2 & Hg & _).
    eauto.
  - unfold mutate.
    destruct (choice_ok
                (List.filter (fun x => negb (py_in x [g1; g2])) pool) s1)
      as (g & s2 & Hg & _).
    { intros E. rewrite E in Hleft. simpl in Hleft. lia. }
    eauto.
Qed.

Lemma breed_ok (c1 c2 : candidate) (s : rng) :
  exists child s', breed c1 c2 s = (Ok child, s').
Proof.
  unfold breed.
  destruct (trait_ok BINARY_OPERATIONS c1.1.1 c2.1.1 s) as (op & s1 & Hop).
  { pose proof (operations_left c1.1.1 c2.1.1). lia. }
  destruct (trait_ok ACCUMULATORS c1.1.2 c2.1.2 s1) as (acc & s2 & Hacc).
  { pose proof (accumulators_left c1.1.2 c2.1.2). lia. }
  destruct (trait_ok CHOOSERS c1.2 c2.2 s2) as (ch & s3 & Hch).
  { apply choosers_left. }
  rewrite (bind_ok _ _ _ _ _ Hop), (bind_ok _ _ _ _ _ Hacc),
    (bind_ok _ _ _ _ _ Hch).
  eexists; eexists; reflexivity.
Qed.

Lemma for_each_grows {A} (l : list A)
    (body : gset candidate -> A -> M (gset candidate)) :
  (forall st a s, exists st' s', body st a s = (Ok st', s') /\ st ⊆ st') ->
  forall st s, exists st' s', for_each l st body s = (Ok st', s') /\ st ⊆ st'.
Proof.
  intros Hb. induction l as [|a l IH]; intros st s; simpl.
  - exists st, s. split; [reflexivity|set_solver].
  - destruct (Hb st a s) as (st1 & s1 & H1 & Hsub1).
    destruct (IH st1 s1) as (st2 & s2 & H2 & Hsub2).
    exists st2, s2. rewrite (bind_ok _ _ _ _ _ H1). split; [exact H2|].
    set_solver.
Qed.

Lemma repopulate_grows (candidates : list candidate) (s : rng) :
  exists children s',
    repopulate candidates s = (Ok children, s') /\
    list_to_set candidates ⊆ children.
Proof.
  unfold repopulate. apply for_each_grows.
  intros st c1 t. apply for_each_grows.
  intros st' c2 t'. destruct (decide (c1 = c2)).
  - exists st', t'. split; [reflexivity|set_solver].
  - destruct (breed_ok c1 c2 t') as (child & t'' & Hchild).
    exists ({[child]} ∪ st'), t''. rewrite (bind_ok _ _ _ _ _ Hchild).
    split; [reflexivity|set_solver].
Qed.

(** C3: [repopulate] returns, and the population it returns contains every
    survivor it was given. *)
Theorem repopulate_keeps_survivors (candidates : list candidate) (s : rng) :
  exists children s',
    repopulate candidates s = (Ok children, s') /\
    list_to_set candidates ⊆ children.
Proof. apply repopulate_grows. Qed.


(** The three traits of a child are drawn one after the other, each by
    [trait] on its own pool. *)
Lemma breed_traits (c1 c2 child : candidate) (s s' : rng) :
  breed c1 c2 s = (Ok child, s') ->
  exists s1 s2,
    trait BINARY_OPERATIONS c1.1.1 c2.1.1 s = (Ok child.1.1, s1) /\
    trait ACCUMULATORS c1.1.2 c2.1.2 s1 = (Ok child.1.2, s2) /\
    trait CHOOSERS c1.2 c2.2 s2 = (Ok child.2, s').
Proof.
  unfold breed, bind. intros H0.
  destruct (trait BINARY_OPERATIONS c1.1.1 c2.1.1 s) as [[op|e] s1] eqn:E1;
    [|discriminate].
  destruct (trait ACCUMULATORS c1.1.2 c2.1.2 s1) as [[acc|e] s2] eqn:E2;
    [|discriminate].
  destruct (trait CHOOSERS c1.2 c2.2 s2) as [[ch|e] s3] eqn:E3; [|discriminate].
  inversion H0; subst. exists s1, s2. simpl. auto.
Qed.

Lemma comprehension_app {A B} (f : A -> M B) (l1 l2 : list A) (s : rng) :
  comprehension f (l1 ++ l2) s =
  (let* b1 := comprehension f l1 in
   let* b2 := comprehension f l2 in
   ret (b1 ++ b2)) s.
Proof.
  revert s. induction l1 as [|a l1 IH]; intros s; simpl.
  - unfold bind, ret. destruct (comprehension f l2 s) as [[b2|e] s2]; reflexivity.
  - unfold bind, ret in *. destruct (f a s) as [[b|e] s1]; [|reflexivity].
    rewrite IH. destruct (comprehension f l1 s1) as [[b1|e] s2]; [|reflexivity].
    destruct (comprehension f l2 s2) as [[b2|e] s3]; reflexivity.
Qed.

Lemma union_add_kid (child : candidate) (kids st : gset candidate) :
  kids ∪ ({[child]} ∪ st) = ({[child]} ∪ kids) ∪ st.
Proof.
  rewrite (assoc_L (∪)). f_equal. apply (comm_L (∪)).
Qed.

Lemma union_more_kids (k1 k2 : list candidate) (st : gset candidate) :
  list_to_set k2 ∪ (list_to_set k1 ∪ st) = list_to_set (k1 ++ k2) ∪ st.
Proof.
  rewrite list_to_set_app_L, (assoc_L (∪)). f_equal. apply (comm_L (∪)).
Qed.

Lemma inner_loop_crossovers (c1 : candidate) (l : list candidate)
    (st : gset candidate) (s : rng) :
  for_each l st (fun children c2 =>
      if decide (c1 = c2) then ret children
      else let* child := breed c1 c2 in ret ({[child]} ∪ children)) s =
  (let* kids := comprehension (fun p => breed p.1 p.2)
                  (flat_map (fun c2 => if decide (c1 = c2) then []
                                       else [(c1, c2)]) l) in
   ret (list_to_set kids ∪ st)) s.
Proof.
  revert st s. induction l as [|c2 l IH]; intros st s; simpl.
  - unfold bind, ret. simpl. now rewrite (left_id_L ∅ (∪)).
  - destruct (decide (c1 = c2)) as [Heq|Hne]; simpl.
    + unfold bind at 1. unfold ret at 1. apply IH.
    + unfold bind in *. simpl. destruct (breed c1 c2 s) as [[child|e] s1];
        [|reflexivity].
      unfold ret at 1. rewrite IH.
      destruct (comprehension _ _ s1) as [[kids|e] s2]; [|reflexivity].
      unfold ret. simpl. now rewrite union_add_kid.
Qed.

Lemma outer_loop_crossovers (candidates l : list candidate)
    (st : gset candidate) (s : rng) :
  for_each l st (fun children c1 =>
      for_each candidates children (fun children c2 =>
        if decide (c1 = c2) then ret children
        else let* child := breed c1 c2 in ret ({[child]} ∪ children))) s =
  (let* kids := comprehension (fun p => breed p.1 p.2)
                  (flat_map (fun c1 =>
                     flat_map (fun c2 => if decide (c1 = c2) then []
                                         else [(c1, c2)]) candidates) l) in
   ret (list_to_set kids ∪ st)) s.
Proof.
  revert st s. induction l as [|c1 l IH]; intros st s; simpl.
  - unfold bind, ret. simpl. now rewrite (left_id_L ∅ (∪)).
  - unfold bind at 1. rewrite inner_loop_crossovers.
    unfold bind. rewrite comprehension_app. unfold bind, ret in *.
    destruct (comprehension _ (flat_map _ candidates) s) as [[k1|e] s1];
      [|reflexivity].
    rewrite IH.
    destruct (comprehension _ _ s1) as [[k2|e] s2]; [|reflexivity].
    now rewrite union_more_kids.
Qed.

(** [repopulate] breeds one child for each crossover, in order, and adds
    the children to the set of the given candidates. *)
Lemma repopulate_crossovers (candidates : list candidate) (s : rng) :
  repopulate candidates s =
  (let* kids := comprehension (fun p => breed p.1 p.2)
                              (crossovers candidates) in
   ret (list_to_set kids ∪ list_to_set candidates)) s.
Proof. apply outer_loop_crossovers. Qed.

Lemma crossovers_In (candidates : list candidate) (c1 c2 : candidate) :
  In (c1, c2) (crossovers candidates) <->
  In c1 candidates /\ In c2 candidates /\ c1 <> c2.
Proof.
  unfold crossovers. rewrite in_flat_map. split.
  - intros (x & Hx & Hin). apply in_flat_map in Hin.
    destruct Hin as (y & Hy & Hin).
    destruct (decide (x = y)) as [|Hne]; [destruct Hin|].
    destruct Hin as [E|[]]. inversion E; subst. auto.
  - intros (H1 & H2 & Hne). exists c1. split; [exact H1|].
    apply in_flat_map. exists c2. split; [exact H2|].
    destruct (decide (c1 = c2)); [contradiction|now left].
Qed.

(** One position of a crossover: the draw decides between the mutation
    and the inheritance of the gene. *)
Lemma trait_branches {G} `{EqDecision G} (pool : list G) (g1 g2 g : G)
    (t t' : rng) :
  trait pool g1 g2 t = (Ok g, t') ->
  forall u r, uniform (VInt 0) (VInt 1) t = (Ok u, r) ->
    (py_gt u quarter = false ->
     mutate pool g1 g2 r = (Ok g, t') /\ In g pool /\ g <> g1 /\ g <> g2) /\
    (py_gt u quarter = true ->
     choice [g1; g2] r = (Ok g, t') /\ (g = g1 \/ g = g2)).
Proof.
  intros Ht u r Hu. unfold trait in Ht. rewrite (bind_ok _ _ _ _ _ Hu) in Ht.
  split; intros Hb; rewrite Hb in Ht.
  - split; [exact Ht|]. eapply mutate_excludes; exact Ht.
  - split; [exact Ht|]. apply choice_In in Ht. simpl in Ht.
    intuition congruence.
Qed.

(** C4: [repopulate] makes one crossover [breed c1 c2] for each ordered pair
    of different candidates of its list and adds the children to the given
    candidates.  Every crossover returns a child, and for each of the three
    gene positions: when the draw of [uniform(0, 1)] made for that position
    is not above 0.25, the child's gene is the one drawn by the mutation
    branch, a member of the position's pool that differs from the gene of
    [c1] and from the gene of [c2] at that position. *)
Theorem mutation_excludes_parents (candidates : list candidate) (s : rng) :
  (forall c1 c2,
     In (c1, c2) (crossovers candidates) <->
     In c1 candidates /\ In c2 candidates /\ c1 <> c2) /\
  repopulate candidates s =
    (let* kids := comprehension (fun p => breed p.1 p.2)
                                (crossovers candidates) in
     ret (list_to_set kids ∪ list_to_set candidates)) s /\
  (forall c1 c2 t,
     exists child t1 t2 t3,
       breed c1 c2 t = (Ok child, t3) /\
       trait BINARY_OPERATIONS c1.1.1 c2.1.1 t = (Ok child.1.1, t1) /\
       trait ACCUMULATORS c1.1.2 c2.1.2 t1 = (Ok child.1.2, t2) /\
       trait CHOOSERS c1.2 c2.2 t2 = (Ok child.2, t3) /\
       (forall u r,
          uniform (VInt 0) (VInt 1) t = (Ok u, r) ->
          py_gt u quarter = false ->
          mutate BINARY_OPERATIONS c1.1.1 c2.1.1 r = (Ok child.1.1, t1) /\
          In child.1.1 BINARY_OPERATIONS /\
          child.1.1 <> c1.1.1 /\ child.1.1 <> c2.1.1) /\
       (forall u r,
          uniform (VInt 0) (VInt 1) t1 = (Ok u, r) ->
          py_gt u quarter = false ->
          mutate ACCUMULATORS c1.1.2 c2.1.2 r = (Ok child.1.2, t2) /\
          In child.1.2 ACCUMULATORS /\
          child.1.2 <> c1.1.2 /\ child.1.2 <> c2.1.2) /\
       (forall u r,
          uniform (VInt 0) (VInt 1) t2 = (Ok u, r) ->
          py_gt u quarter = false ->
          mutate CHOOSERS c1.2 c2.2 r = (Ok child.2, t3) /\
          In child.2 CHOOSERS /\
          child.2 <> c1.2 /\ child.2 <> c2.2)).
Proof.
  split; [apply crossovers_In|]. split; [apply repopulate_crossovers|].
  intros c1 c2 t. destruct (breed_ok c1 c2 t) as (child & t3 & Hb).
  destruct (breed_traits _ _ _ _ _ Hb) as (t1 & t2 & H1 & H2 & H3).
  exists child, t1, t2, t3. do 4 (split; [assumption|]).
  split; [|split]; intros u r Hu Hbr.
  - now apply (trait_branches _ _ _ _ _ _ H1 u r Hu).
  - now apply (trait_branches _ _ _ _ _ _ H2 u r Hu).
  - now apply (trait_branches _ _ _ _ _ _ H3 u r Hu).
Qed.

Lemma mutation_excludes_parents_witness :
  uniform (VInt 0) (VInt 1) [0; 1; 2 ^ 52; 0; 0; 0]%N
    = (Ok (VFloat (S754_zero false)), [1; 2 ^ 52; 0; 0; 0]%N) /\
  py_gt (VFloat (S754_zero false)) quarter = false /\
  exists child t1 t3,
    breed (Add, Append, Len) (Div, Prepend, Zero) [0; 1; 2 ^ 52; 0; 0; 0]%N
      = (Ok child, t3) /\
    mutate BINARY_OPERATIONS Add Div [1; 2 ^ 52; 0; 0; 0]%N
      = (Ok child.1.1, t1) /\
    In child.1.1 BINARY_OPERATIONS /\ child.1.1 <> Add /\ child.1.1 <> Div.
Proof.
  split; [vm_compute; reflexivity|]. split; [reflexivity|].
  destruct (mutation_excludes_parents
              [(Add, Append, Len); (Div, Prepend, Zero)]
              [0; 1; 2 ^ 52; 0; 0; 0]%N) as (_ & _ & Hc).
  destruct (Hc (Add, Append, Len) (Div, Prepend, Zero)
               [0; 1; 2 ^ 52; 0; 0; 0]%N)
    as (child & t1 & t2 & t3 & Hb & _ & _ & _ & Hm & _).
  exists child, t1, t3. split; [exact Hb|].
  apply (Hm (VFloat (S754_zero false)) [1; 2 ^ 52; 0; 0; 0]%N);
    [vm_compute; reflexivity|reflexivity].
Defined.

(** The crossover of the run above: the operation is mutated, the
    accumulator inherited, the chooser mutated. *)
Example breed_run :
  breed (Add, Append, Len) (Div, Prepend, Zero) [0; 1; 2 ^ 52; 0; 0; 0]%N
    = (Ok (Exp, Append, RandInLen), []).
Proof. vm_compute. reflexivity. Qed.

(** Every gene is a member of its pool. *)
Lemma genes_in_pools :
  (forall g : operation, In g BINARY_OPERATIONS) /\
  (forall g : accumulator, In g ACCUMULATORS) /\
  (forall g : chooser, In g CHOOSERS).
Proof. repeat split; intros []; simpl; tauto. Qed.

(** C10: for each pool, what is left after removing the genes of two
    parents is not empty (at least 2 of the 4 operations, 2 of the 4
    accumulators, 1 of the 3 choosers), and [repopulate] returns a
    population on every list of candidates and every sequence of draws. *)
Theorem repopulate_total :
  length BINARY_OPERATIONS = 4%nat /\
  length ACCUMULATORS = 4%nat /\
  length CHOOSERS = 3%nat /\
  (forall g1 g2 : operation,
     List.filter (fun x => negb (py_in x [g1; g2])) BINARY_OPERATIONS <> []) /\
  (forall g1 g2 : accumulator,
     List.filter (fun x => negb (py_in x [g1; g2])) ACCUMULATORS <> []) /\
  (forall g1 g2 : chooser,
     List.filter (fun x => negb (py_in x [g1; g2])) CHOOSERS <> []) /\
  (forall (candidates : list candidate) (s : rng),
     exists children s', repopulate candidates s = (Ok children, s')).
Proof.
  repeat (split; [reflexivity|]).
  split; [intros g1 g2 E; pose proof (operations_left g1 g2) as H;
          rewrite E in H; simpl in H; lia|].
  split; [intros g1 g2 E; pose proof (accumulators_left g1 g2) as H;
          rewrite E in H; simpl in H; lia|].
  split; [intros g1 g2 E; pose proof (choosers_left g1 g2) as H;
          rewrite E in H; simpl in H; lia|].
  intros candidates s.
  destruct (repopulate_grows candidates s) as (children & s' & H & _).
  eauto.
Qed.

(** ** The selector *)

Lemma compare_cont_antisym (m1 m2 : positive) :
  PosDef.Pos.compare_cont Eq m2 m1 = CompOpp (PosDef.Pos.compare_cont Eq m1 m2).
Proof. exact (Pos.compare_antisym m1 m2). Qed.

Lemma SFcompare_antisym (f g : spec_float) :
  SFcompare g f = option_map CompOpp (SFcompare f g).
Proof.
  destruct f as [s1|s1| |s1 m1 e1], g as [s2|s2| |s2 m2 e2]; simpl;
    try reflexivity; try (destruct s1; reflexivity);
    try (destruct s2; reflexivity); try (destruct s1, s2; reflexivity).
  destruct s1, s2; simpl; try reflexivity;
    rewrite (Z.compare_antisym e1 e2); destruct (e1 ?= e2); simpl;
    try reflexivity; now rewrite (compare_cont_antisym m1 m2).
Qed.

Lemma py_compare_antisym (a b : value) :
  py_compare b a = option_map CompOpp (py_compare a b).
Proof.
  destruct a as [x|f], b as [y|g]; simpl.
  - now rewrite (Z.compare_antisym x y).
  - reflexivity.
  - destruct (int_float_compare y f) as [c|]; simpl; [|reflexivity].
    now rewrite CompOpp_involutive.
  - apply SFcompare_antisym.
Qed.

Lemma py_lt_asym (a b : value) : py_lt a b = true -> py_lt b a = false.
Proof.
  unfold py_lt. rewrite (py_compare_antisym a b).
  destruct (py_compare a b) as [[| |]|]; simpl; congruence.
Qed.

Lemma compare_cont_spec (m1 m2 : positive) :
  CompareSpec (Z.pos m1 = Z.pos m2) (Z.pos m1 < Z.pos m2) (Z.pos m2 < Z.pos m1)
              (PosDef.Pos.compare_cont Eq m1 m2).
Proof.
  change (PosDef.Pos.compare_cont Eq m1 m2) with (Z.pos m1 ?= Z.pos m2).
  apply Z.compare_spec.
Qed.

Lemma SFltb_rank (f g : spec_float) :
  f <> S754_nan -> g <> S754_nan ->
  (py_lt (VFloat f) (VFloat g) = true <-> rank_lt (float_rank f) (float_rank g)).
Proof.
  intros Hf Hg. unfold py_lt, rank_lt.
  destruct f as [[]|[]| |[] m1 e1], g as [[]|[]| |[] m2 e2];
    try congruence; simpl;
    try (split; intros; first [discriminate | reflexivity | lia]);
    destruct (Z.compare_spec e1 e2); simpl;
    try (split; intros; first [discriminate | reflexivity | lia]);
    destruct (compare_cont_spec m1 m2); simpl;
    split; intros; first [discriminate | reflexivity | lia].
Qed.

Lemma ascending_trans {A} (p q r : value * A) :
  is_number p.1 -> is_number q.1 -> is_number r.1 ->
  ascending p q -> ascending q r -> ascending p r.
Proof.
  unfold ascending.
  intros (f & -> & Hf) (g & -> & Hg) (h & -> & Hh) Hpq Hqr.
  pose proof (SFltb_rank g f Hg Hf) as H1.
  pose proof (SFltb_rank h g Hh Hg) as H2.
  pose proof (SFltb_rank h f Hh Hf) as H3.
  destruct (py_lt (VFloat h) (VFloat f)); [|reflexivity].
  rewrite Hpq in H1. rewrite Hqr in H2.
  assert (~ rank_lt (float_rank g) (float_rank f)) as N1
    by (intros N; apply H1 in N; discriminate).
  assert (~ rank_lt (float_rank h) (float_rank g)) as N2
    by (intros N; apply H2 in N; discriminate).
  assert (rank_lt (float_rank h) (float_rank f)) as P3 by now apply H3.
  exfalso. revert N1 N2 P3. unfold rank_lt.
  destruct (float_rank f) as [[f1 f2] f3], (float_rank g) as [[g1 g2] g3],
    (float_rank h) as [[h1 h2] h3]. simpl. lia.
Qed.

Lemma sorted_numbers_strongly {A} (l : list (value * A)) :
  Forall (fun p => is_number p.1) l ->
  Sorted ascending l -> StronglySorted ascending l.
Proof.
  intros Hn Hs. induction Hs as [|x l Hs IH Hhd].
  - constructor.
  - inversion Hn as [|? ? Hx Hl]; subst.
    specialize (IH Hl). constructor; [exact IH|].
    destruct l as [|y l]; [constructor|].
    inversion Hhd as [|? ? Hxy]; subst.
    inversion IH as [|? ? _ Hall]; subst.
    inversion Hl as [|? ? Hy Hl']; subst.
    constructor; [exact Hxy|].
    apply List.Forall_forall. intros z Hz.
    apply (ascending_trans x y z); try assumption.
    + eapply List.Forall_forall in Hl'; eauto.
    + eapply List.Forall_forall in Hall; eauto.
Qed.

Section Sorting.

Context {A : Type}.

Implicit Types (x y : value * A) (l : list (value * A)).

Lemma insert_by_key_perm x l : Permutation (x :: l) (insert_by_key x l).
Proof.
  induction l as [|y l IH]; simpl.
  - reflexivity.
  - destruct (py_lt y.1 x.1).
    + rewrite perm_swap. now apply perm_skip.
    + reflexivity.
Qed.

Lemma sorted_by_key_perm l : Permutation l (sorted_by_key l).
Proof.
  induction l as [|x l IH]; simpl.
  - reflexivity.
  - rewrite <- insert_by_key_perm. now apply perm_skip.
Qed.

Lemma insert_by_key_In x y l : In y (insert_by_key x l) <-> y = x \/ In y l.
Proof.
  split; intros H.
  - apply (Permutation_in _ (Permutation_sym (insert_by_key_perm x l))) in H.
    destruct H; auto.
  - apply (Permutation_in _ (insert_by_key_perm x l)).
    destruct H; [left|right]; auto.
Qed.

Lemma insert_by_key_hd x y l :
  ascending y x -> HdRel ascending y l -> HdRel ascending y (insert_by_key x l).
Proof.
  intros Hyx Hl. destruct l as [|z l]; simpl.
  - now constructor.
  - inversion Hl; subst. destruct (py_lt z.1 x.1); now constructor.
Qed.

Lemma insert_by_key_sorted x l :
  Sorted ascending l -> Sorted ascending (insert_by_key x l).
Proof.
  induction 1 as [|y l Hl IH Hhd]; simpl.
  - repeat constructor.
  - destruct (py_lt y.1 x.1) eqn:E.
    + constructor; [exact IH|]. apply insert_by_key_hd; [|exact Hhd].
      unfold ascending. now apply py_lt_asym.
    + constructor; [now constructor|]. constructor. exact E.
Qed.

Lemma sorted_by_key_sorted l : Sorted ascending (sorted_by_key l).
Proof.
  induction l as [|x l IH]; simpl.
  - constructor.
  - now apply insert_by_key_sorted.
Qed.

Lemma before_insert_old x a b l :
  before a b l -> before a b (insert_by_key x l).
Proof.
  induction 1 as [l Hin|z l Hb IH]; simpl.
  - destruct (py_lt a.1 x.1).
    + apply before_here. apply insert_by_key_In. now right.
    + apply before_later, before_here. exact Hin.
  - destruct (py_lt z.1 x.1).
    + apply before_later. exact IH.
    + apply before_later, before_later. assumption.
Qed.

Lemma before_insert_new x b l :
  In b l -> ascending x b -> before x b (insert_by_key x l).
Proof.
  unfold ascending. intros Hin Hxb. induction l as [|y l IH]; simpl.
  - destruct Hin.
  - destruct (py_lt y.1 x.1) eqn:E.
    + destruct Hin as [->|Hin]; [congruence|].
      apply before_later. now apply IH.
    + apply before_here. exact Hin.
Qed.

Lemma sorted_by_key_stable a b l :
  before a b l -> ascending a b -> before a b (sorted_by_key l).
Proof.
  intros Hb Hab. induction Hb as [l Hin|z l _ IH]; simpl.
  - apply before_insert_new; [|exact Hab].
    apply (Permutation_in _ (sorted_by_key_perm l)). exact Hin.
  - now apply before_insert_old.
Qed.

End Sorting.

Section Selector.

Variable libm_pow : spec_float -> spec_float -> spec_float.

Lemma truediv_float (x y v : value) :
  py_truediv x y = Ok v -> exists f, v = VFloat f.
Proof.
  unfold py_truediv, int_truediv. intros H0.
  destruct x as [a|fx], y as [b|fy]; simpl in H0.
  - destruct (b =? 0); [discriminate|].
    destruct (a =? 0); [inversion H0; eauto|].
    destruct (SFdiv_core_binary _ _ _ _ _ _) as [[mz ez] lz].
    destruct (binary_round_aux _ _ _ _ _ _); inversion H0; eauto.
  - destruct (float_of_int a); simpl in H0; [|discriminate].
    destruct (float_is_zero fy); inversion H0; eauto.
  - destruct (float_of_int b) as [g|]; simpl in H0; [|discriminate].
    destruct (float_is_zero g); inversion H0; eauto.
  - destruct (float_is_zero fy); inversion H0; eauto.
Qed.

Lemma candidate_score_float (c : candidate) (problems : list problem)
    (s s' : rng) (k : value) :
  candidate_score libm_pow c problems s = (Ok k, s') -> exists f, k = VFloat f.
Proof.
  unfold candidate_score, bind, lift. intros H0.
  destruct (running_total libm_pow c problems s) as [[t|e] s1];
    [|discriminate].
  inversion H0 as [[Hk Hs]]. eapply truediv_float; exact Hk.
Qed.

Lemma score_all_keys (all_candidates : list candidate)
    (problems : list problem) (s s' : rng) (keyed : list (value * candidate)) :
  score_all libm_pow all_candidates problems s = (Ok keyed, s') ->
  map snd keyed = all_candidates /\
  Forall (fun p => exists s1 s2 f,
            candidate_score libm_pow p.2 problems s1 = (Ok p.1, s2) /\
            p.1 = VFloat f) keyed.
Proof.
  unfold score_all. revert s keyed.
  induction all_candidates as [|c l IH]; intros s keyed H0; simpl in H0.
  - inversion H0. split; constructor.
  - unfold bind at 1 in H0. unfold bind at 1 in H0.
    destruct (candidate_score libm_pow c problems s) as [[k|e] s1] eqn:Ek;
      [|discriminate].
    simpl in H0. unfold bind in H0.
    destruct (comprehension _ l s1) as [[ks|e] s2] eqn:El; [|discriminate].
    inversion H0; subst. destruct (IH _ _ El) as [Hmap Hall].
    split; [simpl; now f_equal|].
    constructor; [|exact Hall]. simpl.
    destruct (candidate_score_float _ _ _ _ _ Ek) as [f Hf]. eauto.
Qed.

Lemma float_of_int_outcome (z : Z) :
  (exists f, float_of_int z = Ok f) \/ float_of_int z = Raise OverflowError.
Proof.
  unfold float_of_int. destruct (binary_normalize prec emax z 0 false); eauto.
Qed.

Lemma truediv_outcome (x y : value) :
  (exists f, py_truediv x y = Ok (VFloat f)) \/
  py_truediv x y = Raise ZeroDivisionError \/
  py_truediv x y = Raise OverflowError.
Proof.
  destruct x as [a|fx], y as [b|fy]; simpl.
  - unfold int_truediv. destruct (b =? 0); [auto|].
    destruct (a =? 0); [eauto|].
    destruct (SFdiv_core_binary _ _ _ _ _ _) as [[mz ez] lz].
    destruct (binary_round_aux _ _ _ _ _ _); eauto.
  - destruct (float_of_int_outcome a) as [[f ->]| ->]; simpl; [|auto].
    destruct (float_is_zero fy); eauto.
  - destruct (float_of_int_outcome b) as [[g ->]| ->]; simpl; [|auto].
    destruct (float_is_zero g); eauto.
  - destruct (float_is_zero fy); eauto.
Qed.

(** On a non-empty batch a score is returned unless the division of the
    total overflows the doubles. *)
Lemma candidate_score_outcome (c : candidate) (problems : list problem)
    (s : rng) :
  problems <> [] ->
  (exists f s', candidate_score libm_pow c problems s = (Ok (VFloat f), s')) \/
  (exists s', candidate_score libm_pow c problems s = (Raise OverflowError, s')).
Proof.
  intros Hne. unfold candidate_score, running_total.
  rewrite (bind_ok _ _ _ _ _ (for_each_total_error libm_pow c problems _ s)).
  unfold lift.
  pose proof (truediv_by_nonzero
                (total_error libm_pow c (VInt 0) problems s).1
                (len problems) (len_nonempty _ Hne)) as Hz.
  destruct (truediv_outcome (total_error libm_pow c (VInt 0) problems s).1
                            (VInt (len problems))) as [[f ->]|[E| ->]];
    [left; eauto|contradiction|right; eauto].
Qed.

Lemma sort_candidates_outcome (all_candidates : list candidate)
    (problems : list problem) (s : rng) :
  problems <> [] ->
  (exists keyed s',
     score_all libm_pow all_candidates problems s = (Ok keyed, s') /\
     sort_candidates libm_pow all_candidates problems s =
       (Ok (map snd (sorted_by_key keyed)), s')) \/
  (exists s',
     sort_candidates libm_pow all_candidates problems s =
       (Raise OverflowError, s')).
Proof.
  intros Hne.
  assert ((exists keyed s',
             score_all libm_pow all_candidates problems s = (Ok keyed, s')) \/
          (exists s',
             score_all libm_pow all_candidates problems s
               = (Raise OverflowError, s'))) as [(keyed & s' & H)|(s' & H)].
  { unfold score_all. revert s.
    induction all_candidates as [|c l IH]; intros s; simpl.
    - left. eauto.
    - unfold bind, ret in IH |- *.
      destruct (candidate_score_outcome c problems s Hne)
        as [(f & s1 & ->)|(s1 & ->)]; [|right; eauto].
      destruct (IH s1) as [(keyed & s2 & ->)|(s2 & ->)]; [left|right]; eauto. }
  - left. exists keyed, s'. split; [exact H|].
    unfold sort_candidates. now rewrite (bind_ok _ _ _ _ _ H).
  - right. exists s'. unfold sort_candidates.
    now rewrite (bind_raise _ _ _ _ _ H).
Qed.

End Selector.

(** ** Runs of the operations *)

Example exp_negative_exponent :
  exp reference_pow 2 (-1) = Ok (VFloat (S754_finite false 4503599627370496 (-53)))
  /\ exp reference_pow 0 (-1) = Raise ZeroDivisionError
  /\ exp reference_pow 0 0 = Ok (VInt 1)
  /\ exp reference_pow 9 9 = Ok (VInt 387420489).
Proof. repeat split; vm_compute; reflexivity. Qed.

Example div_rounds_once :
  div 1 3 = Ok (VFloat (S754_finite false 6004799503160661 (-54)))
  /\ div 2 1 = Ok (VFloat (S754_finite false 4503599627370496 (-51)))
  /\ div 0 (-5) = Ok (VFloat (S754_zero true)).
Proof. repeat split; vm_compute; reflexivity. Qed.

Example divide_scenario :
  loop reference_pow [2; 3] [1; 1] Div Append Len []
    = (Ok [VFloat (S754_finite false 4503599627370496 (-51));
           VFloat (S754_finite false 6755399441055744 (-51))], [])
  /\ score_problem reference_pow (Div, Append, Len) (VInt 0) scenario []
    = (Ok (VFloat (S754_finite false 6192449487634432 (-49))), []).
Proof. split; vm_compute; reflexivity. Qed.

(** * Further properties of the program *)

(** ** Digit sequences as numbers *)

Lemma weighted_sum_shift (l : list Z) (i : Z) :
  0 <= i -> weighted_sum (i + 1) l = 10 * weighted_sum i l.
Proof.
  revert i. induction l as [|d l IH]; intros i Hi; simpl.
  - lia.
  - rewrite (IH (i + 1)) by lia. rewrite Z.pow_add_r by lia. lia.
Qed.

Lemma sequence_to_integer_cons (d : Z) (l : list Z) :
  sequence_to_integer (d :: l) = d + 10 * sequence_to_integer l.
Proof.
  unfold sequence_to_integer. simpl.
  rewrite (weighted_sum_shift l 0) by lia. lia.
Qed.

Lemma sequence_to_integer_bound (l : list Z) :
  Forall digit l -> 0 <= sequence_to_integer l < 10 ^ len l.
Proof.
  induction 1 as [|d l Hd _ IH].
  - unfold sequence_to_integer, len. simpl. lia.
  - rewrite sequence_to_integer_cons, len_cons.
    rewrite Z.pow_add_r by (pose proof (len_nonneg l); lia).
    unfold digit in Hd. lia.
Qed.

Lemma sequence_to_integer_inj (l1 l2 : list Z) :
  Forall digit l1 -> Forall digit l2 -> length l1 = length l2 ->
  sequence_to_integer l1 = sequence_to_integer l2 -> l1 = l2.
Proof.
  intros H1. revert l2. induction H1 as [|d1 l1 Hd1 _ IH]; intros l2 H2 Hlen Heq.
  - destruct l2; [reflexivity|discriminate].
  - destruct H2 as [|d2 l2 Hd2 H2]; [discriminate|].
    rewrite !sequence_to_integer_cons in Heq. unfold digit in Hd1, Hd2.
    assert (d1 = d2) by lia. subst d2.
    f_equal. apply IH; [exact H2|simpl in Hlen; lia|lia].
Qed.

(** [list_to_int] reads a list of digits as a number below [10 ** len]: no
    fault, an int, and two digit lists of one length that convert to the same
    number are the same list. *)
Theorem list_to_int_digits (l1 l2 : list Z) :
  Forall digit l1 -> Forall digit l2 -> length l1 = length l2 ->
  (exists v, list_to_int (ints l1) = Ok (VInt v) /\ 0 <= v < 10 ^ len l1) /\
  (list_to_int (ints l1) = list_to_int (ints l2) -> l1 = l2).
Proof.
  intros H1 H2 Hlen. split.
  - exists (sequence_to_integer l1). split; [apply list_to_int_ints|].
    now apply sequence_to_integer_bound.
  - rewrite !list_to_int_ints. intros Heq.
    apply sequence_to_integer_inj; congruence.
Qed.

Lemma list_to_int_digits_witness :
  Forall digit [2; 3] /\ Forall digit [1; 1] /\
  length [2; 3] = length [1; 1] /\
  (exists v, list_to_int (ints [2; 3]) = Ok (VInt v) /\ 0 <= v < 10 ^ len [2; 3]).
Proof.
  assert (Forall digit [2; 3]) as H1
    by (repeat (constructor; [unfold digit; lia|]); constructor).
  assert (Forall digit [1; 1]) as H2
    by (repeat (constructor; [unfold digit; lia|]); constructor).
  split; [exact H1|]. split; [exact H2|]. split; [reflexivity|].
  apply (list_to_int_digits [2; 3] [1; 1] H1 H2 eq_refl).
Defined.

Lemma weighted_sum_app (l1 l2 : list Z) (i : Z) :
  weighted_sum i (l1 ++ l2) = weighted_sum i l1 + weighted_sum (i + len l1) l2.
Proof.
  revert i. induction l1 as [|d l1 IH]; intros i; simpl.
  - change (len []) with 0. rewrite Z.add_0_r. lia.
  - rewrite IH, len_cons. replace (i + 1 + len l1) with (i + (len l1 + 1)) by lia.
    lia.
Qed.

Lemma weighted_sum_scale (l : list Z) (i : Z) :
  0 <= i -> weighted_sum i l = 10 ^ i * weighted_sum 0 l.
Proof.
  intros Hi. revert i Hi. induction l as [|d l IH]; intros i Hi; simpl.
  - lia.
  - rewrite (IH (i + 1)) by lia. rewrite (IH (0 + 1)) by lia.
    rewrite Z.pow_add_r by lia. simpl. lia.
Qed.

(** Appending digits on the most significant side: the value of [a + b] as a
    list is the value of [a] plus [10 ** len(a)] times the value of [b], for
    any lists of ints. *)
Theorem list_to_int_append (a b : list Z) :
  list_to_int (ints (a ++ b)) =
  Ok (VInt (sequence_to_integer a + 10 ^ len a * sequence_to_integer b)) /\
  list_to_int (ints a) = Ok (VInt (sequence_to_integer a)) /\
  list_to_int (ints b) = Ok (VInt (sequence_to_integer b)).
Proof.
  rewrite !list_to_int_ints. repeat split.
  unfold sequence_to_integer. rewrite weighted_sum_app, Z.add_0_l.
  rewrite (weighted_sum_scale b (len a)) by apply len_nonneg. reflexivity.
Qed.

(** ** The operations on digits *)

Lemma digit_cases (x : Z) :
  digit x ->
  x = 0 \/ x = 1 \/ x = 2 \/ x = 3 \/ x = 4 \/
  x = 5 \/ x = 6 \/ x = 7 \/ x = 8 \/ x = 9.
Proof. unfold digit. lia. Qed.

Lemma div_digits (x y : Z) :
  digit x -> digit y -> y <> 0 ->
  exists f, div x y = Ok (VFloat f) /\
            py_gt (VFloat f) (VInt 9) = false /\
            py_lt (VFloat f) (VInt 0) = false.
Proof.
  intros Hx Hy Hy0.
  destruct (digit_cases x Hx) as [-> | [-> | [-> | [-> | [-> | [-> | [-> | [-> | [-> | ->]]]]]]]]];
  destruct (digit_cases y Hy) as [-> | [-> | [-> | [-> | [-> | [-> | [-> | [-> | [-> | ->]]]]]]]]];
    try congruence; eexists; (split; [vm_compute; reflexivity|]);
    split; vm_compute; reflexivity.
Qed.

Section Operations.

Variable libm_pow : spec_float -> spec_float -> spec_float.

(** On two digits the operations raise in one case only, a division by
    zero: [add], [mult] and [exp] return the int [x + y], [x * y] and
    [x ** y], and [div] by a non-zero digit returns a float that is neither
    below 0 nor above 9. *)
Theorem operations_on_digits (x y : Z) :
  digit x -> digit y ->
  add x y = Ok (VInt (x + y)) /\
  mult x y = Ok (VInt (x * y)) /\
  exp libm_pow x y = Ok (VInt (x ^ y)) /\
  (y = 0 -> div x y = Raise ZeroDivisionError) /\
  (y <> 0 ->
   exists f, div x y = Ok (VFloat f) /\
             py_gt (VFloat f) (VInt 9) = false /\
             py_lt (VFloat f) (VInt 0) = false).
Proof.
  intros Hx Hy. split; [reflexivity|]. split; [reflexivity|]. split.
  - unfold exp. unfold digit in Hy.
    destruct (Z.leb_spec 0 y); [reflexivity|lia].
  - split; [intros ->; reflexivity|]. now apply div_digits.
Qed.

End Operations.

Lemma operations_on_digits_witness :
  digit 7 /\ digit 2 /\
  exp reference_pow 7 2 = Ok (VInt (7 ^ 2)) /\
  (2 <> 0 ->
   exists f, div 7 2 = Ok (VFloat f) /\
             py_gt (VFloat f) (VInt 9) = false /\
             py_lt (VFloat f) (VInt 0) = false).
Proof.
  assert (digit 7) as H7 by (unfold digit; lia).
  assert (digit 2) as H2 by (unfold digit; lia).
  split; [exact H7|]. split; [exact H2|].
  destruct (operations_on_digits reference_pow 7 2 H7 H2)
    as (_ & _ & He & _ & Hd).
  split; [exact He|exact Hd].
Defined.

(** ** The accumulators and the choosers *)

(** [insert_rand] never raises: it puts the new element at some index
    between 0 and [len(prev)] and leaves the rest in order, so that taking
    the element out again gives [prev] back. *)
Theorem insert_rand_inserts (prev : list value) (new : value) (s : rng) :
  exists (i : nat) (s' : rng),
    insert_rand prev new s =
      (Ok (firstn i prev ++ new :: skipn i prev), s') /\
    (i <= length prev)%nat /\
    nth_error (firstn i prev ++ new :: skipn i prev) i = Some new /\
    firstn i (firstn i prev ++ new :: skipn i prev)
      ++ skipn (S i) (firstn i prev ++ new :: skipn i prev) = prev /\
    Permutation (new :: prev) (firstn i prev ++ new :: skipn i prev).
Proof.
  unfold insert_rand.
  destruct (choice_ok (range 0 (len prev + 1)) s) as (k & s' & Hk & Hin).
  { pose proof (len_nonneg prev). rewrite range_cons by lia. discriminate. }
  apply range_In in Hin. unfold len in Hin.
  exists (Z.to_nat k), s'.
  assert (Z.to_nat k <= length prev)%nat as Hle by lia.
  assert (length (firstn (Z.to_nat k) prev) = Z.to_nat k) as Hlen
    by (rewrite length_firstn; lia).
  split; [now rewrite (bind_ok _ _ _ _ _ Hk)|].
  split; [exact Hle|]. split; [|split].
  - rewrite nth_error_app2 by lia. rewrite Hlen, Nat.sub_diag. reflexivity.
  - assert (firstn (Z.to_nat k)
              (firstn (Z.to_nat k) prev ++ new :: skipn (Z.to_nat k) prev)
            = firstn (Z.to_nat k) prev) as ->.
    { rewrite firstn_app, Hlen, Nat.sub_diag. simpl. rewrite app_nil_r.
      apply firstn_all2. lia. }
    assert (skipn (S (Z.to_nat k))
              (firstn (Z.to_nat k) prev ++ new :: skipn (Z.to_nat k) prev)
            = skipn (Z.to_nat k) prev) as ->.
    { rewrite skipn_app, Hlen.
      replace (S (Z.to_nat k) - Z.to_nat k)%nat with 1%nat by lia.
      rewrite skipn_all2 by lia. reflexivity. }
    apply firstn_skipn.
  - rewrite <- Permutation_middle. constructor.
    now rewrite firstn_skipn.
Qed.

(** [rand_in_len] raises [IndexError] on an empty sequence and returns an
    index strictly below the length otherwise: it never returns the full
    length. *)
Theorem rand_in_len_below_length (seq : list Z) (s : rng) :
  (seq = [] -> rand_in_len seq s = (Raise IndexError, s)) /\
  (seq <> [] ->
   exists n s', rand_in_len seq s = (Ok n, s') /\ 0 <= n < len seq).
Proof.
  split.
  - intros ->. reflexivity.
  - intros Hne. unfold rand_in_len.
    destruct (choice_ok (range 0 (len seq)) s) as (n & s' & Hn & Hin).
    { destruct seq; [congruence|]. rewrite range_cons; [discriminate|].
      rewrite len_cons. pose proof (len_nonneg seq). lia. }
    apply range_In in Hin. eauto.
Qed.

(** ** What the loop produces *)

Section LoopOutput.

Variable libm_pow : spec_float -> spec_float -> spec_float.

Lemma acc_length (acc : accumulator) (z z' : list value) (v : value)
    (s s' : rng) :
  call_acc acc z v s = (Ok z', s') ->
  len z' = match acc with Replace => 1 | _ => len z + 1 end.
Proof.
  destruct acc; simpl; intros H0.
  - inversion H0. rewrite len_app. reflexivity.
  - inversion H0. rewrite len_cons. reflexivity.
  - inversion H0. reflexivity.
  - unfold insert_rand, bind, ret in H0.
    destruct (choice (range 0 (len z + 1)) s) as [[i|e] s1]; [|discriminate].
    inversion H0. rewrite len_app, len_cons.
    rewrite <- (firstn_skipn (Z.to_nat i) z) at 3. rewrite len_app. lia.
Qed.

Lemma loop_body_length (x y : list Z) (op : operation) (acc : accumulator)
    (z z' : list value) (i : Z) (s s' : rng) :
  loop_body libm_pow x y op acc z i s = (Ok z', s') ->
  len z' = match acc with Replace => 1 | _ => len z + 1 end.
Proof.
  unfold loop_body, bind, lift. intros H0.
  destruct (subscript x i); [|discriminate].
  destruct (subscript y i); [|discriminate].
  destruct (call_op libm_pow op _ _); [|discriminate].
  eapply acc_length; exact H0.
Qed.

Lemma for_each_length (x y : list Z) (op : operation) (acc : accumulator)
    (l : list Z) (z z' : list value) (s s' : rng) :
  for_each l z (loop_body libm_pow x y op acc) s = (Ok z', s') ->
  len z' = match acc with
           | Replace => match l with [] => len z | _ => 1 end
           | _ => len z + len l
           end.
Proof.
  revert z s. induction l as [|i l IH]; intros z s H0; simpl in H0.
  - inversion H0. destruct acc; change (len []) with 0; lia.
  - unfold bind in H0.
    destruct (loop_body libm_pow x y op acc z i s) as [[z1|e] s1] eqn:E;
      [|discriminate].
    apply loop_body_length in E. apply IH in H0. rewrite len_cons.
    destruct acc; try lia. destruct l; lia.
Qed.

(** When the loop returns, its output has one element per turn, as many
    as the chooser's count, for [append], [prepend] and [insert_rand]; with
    [replace] it has at most one, the last. *)
Theorem loop_output_length (x y : list Z) (op : operation) (acc : accumulator)
    (ch : chooser) (z : list value) (s s' : rng) :
  loop libm_pow x y op acc ch s = (Ok z, s') ->
  exists n s1,
    call_chooser ch x s = (Ok n, s1) /\
    0 <= n <= len x /\
    len z = match acc with Replace => Z.min n 1 | _ => n end.
Proof.
  unfold loop. intros H0. unfold bind in H0.
  destruct (call_chooser ch x s) as [[n|e] s1] eqn:E; [|discriminate].
  pose proof (chooser_bound _ _ _ _ _ E) as Hn.
  exists n, s1. split; [reflexivity|]. split; [exact Hn|].
  apply for_each_length in H0. change (len []) with 0 in H0.
  assert (len (range 0 n) = n) as Hr
    by (unfold len; rewrite range_length; lia).
  rewrite Hr in H0. destruct acc; try lia.
  destruct (range 0 n) eqn:Er.
  - change (len []) with 0 in Hr. lia.
  - rewrite len_cons in Hr. pose proof (len_nonneg l). lia.
Qed.

Lemma for_each_ok {A S} (l : list A) (body : S -> A -> M S) :
  (forall i z s, In i l -> exists z' s', body z i s = (Ok z', s')) ->
  forall z s, exists z' s', for_each l z body s = (Ok z', s').
Proof.
  induction l as [|i l IH]; intros Hb z s; simpl.
  - eexists; eexists; reflexivity.
  - destruct (Hb i z s (or_introl eq_refl)) as (z1 & s1 & H1).
    rewrite (bind_ok _ _ _ _ _ H1).
    apply IH. intros j w t Hj. apply Hb. now right.
Qed.

Lemma call_op_digits (op : operation) (x y : Z) :
  digit x -> digit y ->
  (op = Div /\ y = 0 /\ call_op libm_pow op x y = Raise ZeroDivisionError) \/
  (~ (op = Div /\ y = 0) /\ exists v, call_op libm_pow op x y = Ok v).
Proof.
  intros Hx Hy. destruct op; simpl.
  - right. split; [intros [? _]; discriminate|eauto].
  - right. split; [intros [? _]; discriminate|eauto].
  - destruct (Z.eq_dec y 0) as [->|Hy0].
    + left. auto.
    + right. split; [tauto|].
      destruct (div_digits x y Hx Hy Hy0) as (f & -> & _). eauto.
  - right. split; [intros [? _]; discriminate|].
    unfold exp, digit in *. destruct (Z.leb_spec 0 y); [eauto|lia].
Qed.

Lemma for_each_digits (a b : list Z) (op : operation) (acc : accumulator)
    (l : list Z) :
  Forall digit a -> Forall digit b ->
  (forall i, In i l -> 0 <= i < len a /\ 0 <= i < len b) ->
  forall z s,
    (exists s',
       for_each l z (loop_body libm_pow a b op acc) s
         = (Raise ZeroDivisionError, s') /\
       op = Div /\ exists i, In i l /\ subscript b i = Ok 0) \/
    (exists z' s',
       for_each l z (loop_body libm_pow a b op acc) s = (Ok z', s') /\
       ~ (op = Div /\ exists i, In i l /\ subscript b i = Ok 0)).
Proof.
  intros Ha Hb. induction l as [|i l IH]; intros Hl z s; simpl.
  - right. exists z, s. split; [reflexivity|]. intros (_ & j & [] & _).
  - destruct (Hl i (or_introl eq_refl)) as [Hia Hib].
    destruct (subscript_in_range a i Hia) as (xi & Hxi & Hnx).
    destruct (subscript_in_range b i Hib) as (yi & Hyi & Hny).
    assert (digit xi) as Hdx
      by (eapply List.Forall_forall in Ha; [exact Ha|eapply nth_error_In; eauto]).
    assert (digit yi) as Hdy
      by (eapply List.Forall_forall in Hb; [exact Hb|eapply nth_error_In; eauto]).
    assert (loop_body libm_pow a b op acc z i s =
            match call_op libm_pow op xi yi with
            | Ok v => call_acc acc z v s
            | Raise e => (Raise e, s)
            end) as Hbody.
    { unfold loop_body, bind, lift. rewrite Hxi, Hyi.
      destruct (call_op libm_pow op xi yi); reflexivity. }
    destruct (call_op_digits op xi yi Hdx Hdy)
      as [(Hop & Hy0 & Hc)|(Hnot & v & Hc)]; rewrite Hc in Hbody.
    + left. exists s. split; [now apply bind_raise|]. split; [exact Hop|].
      exists i. split; [now left|]. now rewrite Hyi, Hy0.
    + destruct (acc_ok acc z v s) as (z1 & s1 & Hacc).
      rewrite Hacc in Hbody. rewrite (bind_ok _ _ _ _ _ Hbody).
      destruct (IH (fun j Hj => Hl j (or_intror Hj)) z1 s1)
        as [(s' & Hr & Hop & j & Hj & Hbj)|(z' & s' & Hr & Hn)].
      * left. exists s'. split; [exact Hr|]. split; [exact Hop|].
        exists j. split; [now right|exact Hbj].
      * right. exists z', s'. split; [exact Hr|].
        intros (Hop & j & [<-|Hj] & Hbj).
        -- apply Hnot. split; [exact Hop|]. congruence.
        -- apply Hn. eauto.
Qed.

(** On a well-formed problem, once the chooser has returned its count, the
    loop raises in one case only: the operation is [div] and [b] holds a
    zero below the count; the fault is then [ZeroDivisionError].  In every
    other case the loop returns a sequence. *)
Theorem loop_faults_on_zero_divisor_only (a b : list Z) (answer : value)
    (op : operation) (acc : accumulator) (ch : chooser) (s s1 : rng) (n : Z) :
  well_formed (a, b, answer) ->
  call_chooser ch a s = (Ok n, s1) ->
  (exists s',
     loop libm_pow a b op acc ch s = (Raise ZeroDivisionError, s') /\
     op = Div /\ exists i, 0 <= i < n /\ subscript b i = Ok 0) \/
  (exists z s',
     loop libm_pow a b op acc ch s = (Ok z, s') /\
     ~ (op = Div /\ exists i, 0 <= i < n /\ subscript b i = Ok 0)).
Proof.
  intros (Hlen & Ha & Hb & _) Hch.
  pose proof (chooser_bound _ _ _ _ _ Hch) as Hn.
  unfold loop. rewrite (bind_ok _ _ _ _ _ Hch).
  destruct (for_each_digits a b op acc (range 0 n) Ha Hb) with (z := @nil value)
    (s := s1) as [(s' & Hr & Hop & i & Hi & Hbi)|(z & s' & Hr & Hnot)].
  { intros i Hi. apply range_In in Hi. unfold len in *. lia. }
  - left. exists s'. split; [exact Hr|]. split; [exact Hop|].
    exists i. apply range_In in Hi. auto.
  - right. exists z, s'. split; [exact Hr|].
    intros (Hop & i & Hi & Hbi). apply Hnot. split; [exact Hop|].
    exists i. split; [now apply range_In|exact Hbi].
Qed.

End LoopOutput.

Lemma loop_output_length_witness :
  loop reference_pow [2; 3] [1; 1] Mult Replace Len []
    = (Ok [VInt 3], []) /\
  exists n s1,
    call_chooser Len [2; 3] [] = (Ok n, s1) /\
    0 <= n <= len [2; 3] /\
    len [VInt 3] = Z.min n 1.
Proof.
  split; [reflexivity|].
  apply (loop_output_length reference_pow [2; 3] [1; 1] Mult Replace Len
           [VInt 3] [] []). reflexivity.
Defined.

Lemma loop_faults_on_zero_divisor_only_witness :
  well_formed scenario /\
  call_chooser Len [2; 3] [] = (Ok 2, []) /\
  ((exists s',
      loop reference_pow [2; 3] [1; 1] Div Append Len []
        = (Raise ZeroDivisionError, s') /\
      Div = Div /\ exists i, 0 <= i < 2 /\ subscript [1; 1] i = Ok 0) \/
   (exists z s',
      loop reference_pow [2; 3] [1; 1] Div Append Len [] = (Ok z, s') /\
      ~ (Div = Div /\ exists i, 0 <= i < 2 /\ subscript [1; 1] i = Ok 0))).
Proof.
  split; [exact scenario_well_formed|]. split; [reflexivity|].
  apply (loop_faults_on_zero_divisor_only reference_pow [2; 3] [1; 1]
           (VInt 43) Div Append Len [] [] 2 scenario_well_formed eq_refl).
Defined.

(** ** The candidate that adds *)

Lemma subscript_middle {A} (l1 l2 : list A) (x : A) :
  subscript (l1 ++ x :: l2) (len l1) = Ok x.
Proof.
  unfold len. rewrite subscript_nat, nth_error_app2 by lia.
  now rewrite Nat.sub_diag.
Qed.

Lemma column_sums_value (a b : list Z) :
  length a = length b ->
  sequence_to_integer (column_sums a b)
  = sequence_to_integer a + sequence_to_integer b.
Proof.
  revert b. induction a as [|x a IH]; intros [|y b] Hlen; try discriminate.
  - reflexivity.
  - unfold column_sums in *. simpl. rewrite !sequence_to_integer_cons.
    rewrite IH by (simpl in Hlen; lia). lia.
Qed.

Lemma column_sums_no_carry (a b : list Z) :
  (forall i ai bi,
     nth_error a i = Some ai -> nth_error b i = Some bi -> ai + bi <= 9) ->
  invalid_digit (ints (column_sums a b)) = false.
Proof.
  revert b. induction a as [|x a IH]; intros [|y b] Hc; try reflexivity.
  unfold column_sums, invalid_digit in *. simpl.
  rewrite IH by (intros i ai bi Ha Hb; exact (Hc (S i) ai bi Ha Hb)).
  rewrite orb_false_r. unfold py_gt. simpl.
  specialize (Hc 0%nat x y eq_refl eq_refl).
  destruct (Z.compare_spec (x + y) 9); try reflexivity. lia.
Qed.

Section Adder.

Variable libm_pow : spec_float -> spec_float -> spec_float.

Lemma for_each_add_append (a2 a1 b1 b2 : list Z) (z : list value) (s : rng) :
  length a1 = length b1 -> (length a2 <= length b2)%nat ->
  for_each (range (len a1) (len a1 + len a2)) z
    (loop_body libm_pow (a1 ++ a2) (b1 ++ b2) Add Append) s
  = (Ok (z ++ ints (column_sums a2 b2)), s).
Proof.
  revert a1 b1 b2 z. induction a2 as [|x a2 IH]; intros a1 b1 b2 z H1 H2.
  - rewrite range_nil by (change (len []) with 0; lia).
    simpl. unfold ret. now rewrite app_nil_r.
  - destruct b2 as [|y b2]; [simpl in H2; lia|].
    rewrite range_cons by (rewrite len_cons; pose proof (len_nonneg a2); lia).
    simpl for_each.
    assert (loop_body libm_pow (a1 ++ x :: a2) (b1 ++ y :: b2) Add Append
              z (len a1) s = (Ok (z ++ [VInt (x + y)]), s)) as Hbody.
    { unfold loop_body, bind, lift. rewrite subscript_middle.
      replace (len a1) with (len b1) by (unfold len; lia).
      rewrite subscript_middle. reflexivity. }
    rewrite (bind_ok _ _ _ _ _ Hbody).
    specialize (IH (a1 ++ [x]) (b1 ++ [y]) b2 (z ++ [VInt (x + y)])).
    rewrite <- !app_assoc in IH. simpl in IH.
    rewrite len_app in IH. change (len [x]) with 1 in IH.
    rewrite len_cons.
    replace (len a1 + (len a2 + 1)) with (len a1 + 1 + len a2) by lia.
    rewrite IH.
    + reflexivity.
    + rewrite !length_app. simpl. lia.
    + simpl in H2. lia.
Qed.

Lemma loop_add_append_len (a b : list Z) (s : rng) :
  (length a <= length b)%nat ->
  loop libm_pow a b Add Append Len s = (Ok (ints (column_sums a b)), s).
Proof.
  intros Hlen. unfold loop. simpl call_chooser. unfold bind, ret.
  pose proof (for_each_add_append a [] [] b [] s eq_refl Hlen) as H0.
  simpl in H0. change (len []) with 0 in H0. rewrite Z.add_0_l in H0.
  exact H0.
Qed.

Lemma score_problem_add_append_len (p : problem) (t : Z) (s : rng) :
  well_formed p ->
  score_problem libm_pow (Add, Append, Len) (VInt t) p s = (Ok (VInt t), s).
Proof.
  destruct p as [[a b] answer]. intros (Hlen & _ & _ & Hcarry & ->).
  unfold score_problem, try_except, attempt.
  rewrite (bind_ok _ _ _ _ _ (loop_add_append_len a b s ltac:(lia))).
  pose proof (column_sums_no_carry a b Hcarry) as Hv.
  unfold invalid_digit in Hv. rewrite Hv.
  unfold bind, lift. rewrite list_to_int_ints, column_sums_value by exact Hlen.
  simpl. do 3 f_equal. lia.
Qed.

Lemma running_total_add_append_len (problems : list problem) (t : Z) (s : rng) :
  Forall well_formed problems ->
  for_each problems (VInt t) (score_problem libm_pow (Add, Append, Len)) s
  = (Ok (VInt t), s).
Proof.
  induction 1 as [|p rest Hp _ IH]; simpl.
  - reflexivity.
  - now rewrite (bind_ok _ _ _ _ _ (score_problem_add_append_len p t s Hp)).
Qed.

Lemma candidate_score_add_append_len (problems : list problem) (s : rng) :
  Forall well_formed problems -> problems <> [] ->
  candidate_score libm_pow (Add, Append, Len) problems s
  = (Ok (VFloat (S754_zero false)), s).
Proof.
  intros Hwf Hne. unfold candidate_score, running_total.
  rewrite (bind_ok _ _ _ _ _ (running_total_add_append_len problems 0 s Hwf)).
  unfold lift. simpl. unfold int_truediv.
  pose proof (len_nonempty problems Hne) as Hn. pose proof (len_nonneg problems).
  destruct (Z.eqb_spec (len problems) 0); [contradiction|].
  simpl. destruct (Z.ltb_spec (len problems) 0); [lia|reflexivity].
Qed.

(** The candidate (add, append, full length) is the addition the search is
    after: whenever [b] is at least as long as [a] its loop returns the
    column sums, on a well-formed problem these convert to the expected sum,
    and on every non-empty batch of well-formed problems its score is 0.0,
    with no draw made. *)
Theorem add_append_len_is_exact (problems : list problem) (s : rng) :
  Forall well_formed problems -> problems <> [] ->
  (forall a b t, (length a <= length b)%nat ->
     loop libm_pow a b Add Append Len t = (Ok (ints (column_sums a b)), t)) /\
  (forall a b answer, In (a, b, answer) problems ->
     list_to_int (ints (column_sums a b)) = Ok answer /\
     invalid_digit (ints (column_sums a b)) = false) /\
  running_total libm_pow (Add, Append, Len) problems s = (Ok (VInt 0), s) /\
  candidate_score libm_pow (Add, Append, Len) problems s
    = (Ok (VFloat (S754_zero false)), s).
Proof.
  intros Hwf Hne.
  split; [intros; now apply loop_add_append_len|].
  split; [|split].
  - intros a b answer Hin.
    eapply List.Forall_forall in Hwf; [|exact Hin].
    destruct Hwf as (Hlen & _ & _ & Hcarry & ->).
    rewrite list_to_int_ints, column_sums_value by exact Hlen.
    split; [reflexivity|]. now apply column_sums_no_carry.
  - now apply running_total_add_append_len.
  - now apply candidate_score_add_append_len.
Qed.

End Adder.

Lemma add_append_len_is_exact_witness :
  Forall well_formed [scenario] /\ [scenario] <> [] /\
  candidate_score reference_pow (Add, Append, Len) [scenario] [3%N]
    = (Ok (VFloat (S754_zero false)), [3%N]).
Proof.
  assert (Forall well_formed [scenario]) as H
    by (constructor; [apply scenario_well_formed|constructor]).
  split; [exact H|]. split; [discriminate|].
  apply (add_append_len_is_exact reference_pow [scenario] [3%N] H).
  discriminate.
Defined.

(** ** Generated problems *)

Lemma generate_problem_well_formed (min_size max_size : Z) (s : rng) :
  1 <= min_size < max_size ->
  exists p s',
    generate_problem min_size max_size s = (Ok p, s') /\
    well_formed p /\
    min_size <= len p.1.1 < max_size.
Proof.
  intros Hsz. unfold generate_problem.
  destruct (choice_ok (range min_size max_size) s) as (size & s1 & Hc & Hin).
  { rewrite range_cons by lia. discriminate. }
  apply range_In in Hin.
  destruct (comprehension_ok (fun _ : Z => choice (range 0 10))
              (fun _ d => digit d) (range 0 size)) with (s := s1)
    as (a & s2 & Ha & Hda).
  { intros x t _. destruct (choice_ok (range 0 10) t range_10_nonempty)
      as (d & t' & Hd & Hind).
    exists d, t'. split; [exact Hd|]. now apply range_10_digit. }
  apply Forall2_range_nth in Hda. destruct Hda as [Hlena Hda].
  destruct (comprehension_ok
              (fun i => let* r := choice (range 0 10) in
                        let* ai := lift (subscript a i) in
                        lift (py_mod r (10 - ai)))
              (fun i bi => exists ai, nth_error a (Z.to_nat i) = Some ai /\
                                      0 <= bi <= 9 - ai)
              (range 0 size)) with (s := s2)
    as (b & s3 & Hb & Hdb).
  { intros i t Hi. apply range_In in Hi.
    destruct (choice_ok (range 0 10) t range_10_nonempty)
      as (r & t' & Hr & Hinr).
    apply range_10_digit in Hinr.
    destruct (subscript_in_range a i) as (ai & Hai & Hnth).
    { unfold len. lia. }
    pose proof (Hda (Z.to_nat i) ai Hnth) as Hdai.
    unfold digit in Hdai, Hinr.
    exists (r mod (10 - ai)), t'. split.
    - rewrite (bind_ok _ _ _ _ _ Hr). unfold bind, lift. rewrite Hai.
      unfold py_mod. destruct (Z.eqb_spec (10 - ai) 0); [lia|reflexivity].
    - exists ai. split; [exact Hnth|].
      pose proof (Z.mod_pos_bound r (10 - ai) ltac:(lia)). lia. }
  apply Forall2_range_nth in Hdb. destruct Hdb as [Hlenb Hdb].
  exists (a, b, VInt (sequence_to_integer a + sequence_to_integer b)), s3.
  split.
  { rewrite (bind_ok _ _ _ _ _ Hc), (bind_ok _ _ _ _ _ Ha),
      (bind_ok _ _ _ _ _ Hb).
    unfold bind, lift, ret. now rewrite list_sum_ints. }
  assert (forall k bk, nth_error b k = Some bk ->
            exists ak, nth_error a k = Some ak /\ 0 <= bk <= 9 - ak) as Hcol.
  { intros k bk Hk. destruct (Hdb k bk Hk) as (ak & Hak & Hbound).
    rewrite Nat2Z.id in Hak. eauto. }
  split; [|simpl; unfold len; lia].
  split; [congruence|]. split.
  { apply List.Forall_forall. intros d Hd. apply In_nth_error in Hd.
    destruct Hd as [k Hk]. exact (Hda k d Hk). }
  split.
  { apply List.Forall_forall. intros d Hd. apply In_nth_error in Hd.
    destruct Hd as [k Hk]. destruct (Hcol k d Hk) as (ak & Hak & Hbound).
    pose proof (Hda k ak Hak) as Hdak. unfold digit in *. lia. }
  split; [|reflexivity].
  intros i ai bi Hai Hbi. destruct (Hcol i bi Hbi) as (ak & Hak & Hbound).
  assert (ak = ai) by congruence. subst ak. lia.
Qed.

Lemma generated_batch_well_formed (min_size max_size : Z) (l : list Z)
    (s : rng) :
  1 <= min_size < max_size ->
  exists problems s',
    comprehension (fun _ => generate_problem min_size max_size) l s
      = (Ok problems, s') /\
    length problems = length l /\
    Forall well_formed problems /\
    Forall (fun p => min_size <= len p.1.1 < max_size) problems.
Proof.
  intros Hsz. revert s. induction l as [|i l IH]; intros s; simpl.
  - exists [], s. split; [reflexivity|]. repeat split; constructor.
  - destruct (generate_problem_well_formed min_size max_size s Hsz)
      as (p & s1 & Hp & Hwf & Hlen).
    destruct (IH s1) as (ps & s2 & Hps & Hl & Hall & Hlens).
    exists (p :: ps), s2.
    rewrite (bind_ok _ _ _ _ _ Hp), (bind_ok _ _ _ _ _ Hps).
    split; [reflexivity|]. split; [simpl; lia|].
    split; constructor; assumption.
Qed.

Section GeneratedBatches.

Variable libm_pow : spec_float -> spec_float -> spec_float.

(** A batch built as the script builds it,
    [[generate_problem(min_size, max_size) for _ in range(k)]] with
    [1 <= min_size < max_size], is never refused: it holds [k] well-formed
    problems with operands of [min_size] to [max_size - 1] digits, and the
    candidate (add, append, len) scores 0.0 on it when it is not empty. *)
Theorem generated_batch_is_solved (min_size max_size k : Z) (s : rng) :
  1 <= min_size < max_size ->
  exists problems s',
    comprehension (fun _ => generate_problem min_size max_size) (range 0 k) s
      = (Ok problems, s') /\
    len problems = Z.max 0 k /\
    Forall well_formed problems /\
    Forall (fun p => min_size <= len p.1.1 < max_size) problems /\
    (0 < k ->
     forall t, candidate_score libm_pow (Add, Append, Len) problems t
               = (Ok (VFloat (S754_zero false)), t)).
Proof.
  intros Hsz.
  destruct (generated_batch_well_formed min_size max_size (range 0 k) s Hsz)
    as (problems & s' & Hgen & Hlen & Hwf & Hlens).
  exists problems, s'. split; [exact Hgen|].
  rewrite range_length in Hlen.
  split; [unfold len; lia|]. split; [exact Hwf|]. split; [exact Hlens|].
  intros Hk t. apply candidate_score_add_append_len; [exact Hwf|].
  intros ->. simpl in Hlen. lia.
Qed.

(** [candidate_score] raises [ZeroDivisionError] exactly on the empty
    batch, whatever the candidate and the draws. *)
Theorem candidate_score_divides_by_batch_size (algorithm : candidate)
    (problems : list problem) (s : rng) :
  (candidate_score libm_pow algorithm problems s).1 = Raise ZeroDivisionError
  <-> problems = [].
Proof.
  split.
  - intros H0. destruct problems as [|p rest]; [reflexivity|]. exfalso.
    unfold candidate_score, running_total in H0.
    rewrite (bind_ok _ _ _ _ _
               (for_each_total_error libm_pow algorithm (p :: rest) _ s)) in H0.
    unfold lift in H0. simpl fst in H0.
    apply (truediv_by_nonzero _ _ (len_nonempty (p :: rest) ltac:(discriminate))
             H0).
  - intros ->. reflexivity.
Qed.

(** *** Candidates that make no draw *)

Lemma draw_free_ret {A} (a : A) : draw_free (ret a).
Proof. intros s. reflexivity. Qed.

Lemma draw_free_lift {A} (r : result A) : draw_free (lift r).
Proof. intros s. reflexivity. Qed.

Lemma draw_free_raise {A} (e : exn) : draw_free (@raise A e).
Proof. intros s. reflexivity. Qed.

Lemma draw_free_bind {A B} (m : M A) (k : A -> M B) :
  draw_free m -> (forall a, draw_free (k a)) -> draw_free (bind m k).
Proof.
  intros Hm Hk s. unfold bind. rewrite (Hm s).
  destruct (m []) as [[a|e] s0]; simpl.
  - rewrite (Hk a s), (Hk a s0). reflexivity.
  - reflexivity.
Qed.

Lemma draw_free_try_except {A} (m h : M A) :
  draw_free m -> draw_free h -> draw_free (try_except m h).
Proof.
  intros Hm Hh s. unfold try_except. rewrite (Hm s).
  destruct (m []) as [[a|e] s0]; simpl.
  - reflexivity.
  - rewrite (Hh s), (Hh s0). reflexivity.
Qed.

Lemma draw_free_for_each {A S} (l : list A) (body : S -> A -> M S) :
  (forall st a, draw_free (body st a)) ->
  forall st, draw_free (for_each l st body).
Proof.
  intros Hb. induction l as [|a l IH]; intros st; simpl.
  - apply draw_free_ret.
  - apply draw_free_bind; [apply Hb|exact IH].
Qed.

Lemma draw_free_loop (x y : list Z) (op : operation) (acc : accumulator)
    (ch : chooser) :
  acc <> InsertRand -> ch <> RandInLen ->
  draw_free (loop libm_pow x y op acc ch).
Proof.
  intros Hacc Hch. unfold loop. apply draw_free_bind.
  - destruct ch; [apply draw_free_ret|congruence|apply draw_free_ret].
  - intros n. apply draw_free_for_each. intros z i. unfold loop_body.
    repeat (apply draw_free_bind; [apply draw_free_lift|intros ?]).
    destruct acc; try congruence; apply draw_free_ret.
Qed.

(** A candidate whose accumulator is not [insert_rand] and whose chooser is
    not [rand_in_len] makes no draw when it is scored: its score is the same
    on every tape of draws and the generator is left where it was, so
    scoring it twice on one batch gives the same result. *)
Theorem deterministic_candidates_score_alike (op : operation)
    (acc : accumulator) (ch : chooser) (problems : list problem) (s : rng) :
  acc <> InsertRand -> ch <> RandInLen ->
  candidate_score libm_pow (op, acc, ch) problems s =
  ((candidate_score libm_pow (op, acc, ch) problems []).1, s).
Proof.
  intros Hacc Hch. revert s.
  change (draw_free (candidate_score libm_pow (op, acc, ch) problems)).
  unfold candidate_score. apply draw_free_bind; [|intros; apply draw_free_lift].
  unfold running_total. apply draw_free_for_each.
  intros score [[a b] answer]. unfold score_problem.
  apply draw_free_try_except; [|apply draw_free_lift].
  unfold attempt. apply draw_free_bind; [now apply draw_free_loop|].
  intros z. destruct (existsb _ z); [apply draw_free_raise|].
  repeat (apply draw_free_bind; [apply draw_free_lift|intros ?]).
  apply draw_free_lift.
Qed.

End GeneratedBatches.

Lemma generated_batch_is_solved_witness :
  1 <= 2 < 3 /\
  exists problems s',
    comprehension (fun _ => generate_problem 2 3) (range 0 2)
      [0; 7; 3; 5; 9]%N = (Ok problems, s') /\
    len problems = Z.max 0 2 /\
    Forall well_formed problems /\
    Forall (fun p => 2 <= len p.1.1 < 3) problems /\
    (0 < 2 ->
     forall t, candidate_score reference_pow (Add, Append, Len) problems t
               = (Ok (VFloat (S754_zero false)), t)).
Proof.
  split; [lia|].
  apply (generated_batch_is_solved reference_pow 2 3 2 [0; 7; 3; 5; 9]%N).
  lia.
Defined.

Lemma deterministic_candidates_score_alike_witness :
  Prepend <> InsertRand /\ Len <> RandInLen /\
  candidate_score reference_pow (Div, Prepend, Len) [scenario] [4; 2]%N =
  ((candidate_score reference_pow (Div, Prepend, Len) [scenario] []).1,
   [4; 2]%N).
Proof.
  split; [discriminate|]. split; [discriminate|].
  apply (deterministic_candidates_score_alike reference_pow Div Prepend Len
           [scenario] [4; 2]%N); discriminate.
Defined.

(** ** More on the reproducer *)

Lemma for_each_skip {A S} (l : list A) (body : S -> A -> M S) (st : S)
    (s : rng) :
  (forall a, In a l -> forall st' s', body st' a s' = (Ok st', s')) ->
  for_each l st body s = (Ok st, s).
Proof.
  induction l as [|a l IH]; intros Hb; simpl.
  - reflexivity.
  - rewrite (bind_ok _ _ _ _ _ (Hb a (or_introl eq_refl) st s)).
    apply IH. intros b Hin. apply Hb. now right.
Qed.

(** When all the candidates given to [repopulate] are the same one (a list
    of one candidate, or the empty list), there is no pair of distinct
    parents: no draw is made and the new population is the old one. *)
Theorem repopulate_without_pairs (candidates : list candidate) (s : rng) :
  (forall c1 c2, In c1 candidates -> In c2 candidates -> c1 = c2) ->
  repopulate candidates s = (Ok (list_to_set candidates), s).
Proof.
  intros Hsame. unfold repopulate. apply for_each_skip.
  intros c1 H1 st s'. apply for_each_skip.
  intros c2 H2 st' s''. rewrite (Hsame c1 c2 H1 H2).
  destruct (decide (c2 = c2)); [reflexivity|congruence].
Qed.

Lemma repopulate_without_pairs_witness :
  (forall c1 c2, In c1 [(Div, Replace, Zero)] -> In c2 [(Div, Replace, Zero)]
                 -> c1 = c2) /\
  repopulate [(Div, Replace, Zero)] [7; 8]%N
    = (Ok (list_to_set [(Div, Replace, Zero)]), [7; 8]%N).
Proof.
  assert (forall c1 c2 : candidate,
            In c1 [(Div, Replace, Zero)] -> In c2 [(Div, Replace, Zero)]
            -> c1 = c2) as H.
  { intros c1 c2 [<-|[]] [<-|[]]. reflexivity. }
  split; [exact H|].
  apply (repopulate_without_pairs [(Div, Replace, Zero)] [7; 8]%N H).
Defined.

Lemma size_add_one (x : candidate) (X : gset candidate) :
  (size ({[x]} ∪ X) <= S (size X))%nat.
Proof.
  rewrite size_union_alt, size_singleton.
  assert (X ∖ {[x]} ⊆ X) as Hsub
    by (intros y Hy; apply elem_of_difference in Hy; tauto).
  apply subseteq_size in Hsub. lia.
Qed.

Lemma size_list_to_set_le (l : list candidate) :
  (size (list_to_set l : gset candidate) <= length l)%nat.
Proof.
  induction l as [|x l IH].
  - rewrite list_to_set_nil, size_empty. reflexivity.
  - rewrite list_to_set_cons. pose proof (size_add_one x (list_to_set l)).
    simpl. lia.
Qed.

Lemma others_fewer (c1 : candidate) (l : list candidate) :
  In c1 l ->
  (S (length (List.filter (fun c2 => negb (bool_decide (c1 = c2))) l))
   <= length l)%nat.
Proof.
  induction l as [|c l IH]; intros Hin; [destruct Hin|]. simpl.
  destruct (decide (c1 = c)) as [->|Hne].
  - rewrite bool_decide_eq_true_2 by reflexivity. simpl.
    pose proof (filter_length_le
                  (fun c2 => negb (bool_decide (c = c2))) l). lia.
  - rewrite bool_decide_eq_false_2 by exact Hne. simpl.
    destruct Hin as [->|Hin]; [congruence|]. specialize (IH Hin). lia.
Qed.

Lemma inner_loop_size (c1 : candidate) (l : list candidate)
    (st st' : gset candidate) (s s' : rng) :
  for_each l st (fun children c2 =>
      if decide (c1 = c2) then ret children
      else let* child := breed c1 c2 in ret ({[child]} ∪ children)) s
    = (Ok st', s') ->
  (size st' <= size st
     + length (List.filter (fun c2 => negb (bool_decide (c1 = c2))) l))%nat.
Proof.
  revert st s. induction l as [|c2 l IH]; intros st s H0; simpl in H0.
  - inversion H0. simpl. lia.
  - unfold bind at 1 in H0. simpl.
    destruct (decide (c1 = c2)) as [Heq|Hne].
    + rewrite bool_decide_eq_true_2 by exact Heq. simpl in *.
      apply IH in H0. exact H0.
    + rewrite bool_decide_eq_false_2 by exact Hne. simpl.
      unfold bind, ret in H0.
      destruct (breed c1 c2 s) as [[child|e] s1]; [|discriminate].
      apply IH in H0. pose proof (size_add_one child st). lia.
Qed.

Lemma outer_loop_size (candidates l : list candidate)
    (st st' : gset candidate) (s s' : rng) :
  (forall c, In c l -> In c candidates) ->
  for_each l st (fun children c1 =>
      for_each candidates children (fun children c2 =>
        if decide (c1 = c2) then ret children
        else let* child := breed c1 c2 in ret ({[child]} ∪ children))) s
    = (Ok st', s') ->
  (size st' + length l <= size st + length l * length candidates)%nat.
Proof.
  revert st s. induction l as [|c1 l IH]; intros st s Hin H0; simpl in H0.
  - inversion H0. simpl. lia.
  - unfold bind at 1 in H0.
    destruct (for_each candidates st _ s) as [[st1|e] s1] eqn:E;
      [|discriminate].
    apply inner_loop_size in E.
    pose proof (others_fewer c1 candidates (Hin c1 (or_introl eq_refl))).
    apply IH in H0; [|intros c Hc; apply Hin; now right].
    simpl. lia.
Qed.

(** [repopulate] returns at most [n * n] candidates for a list of [n]: the
    [n] given ones and one child for each ordered pair of different
    parents.  From the 5 survivors of a round it builds at most 25. *)
Theorem repopulate_at_most_square (candidates : list candidate) (s : rng) :
  exists children s',
    repopulate candidates s = (Ok children, s') /\
    (size children <= length candidates * length candidates)%nat /\
    ((length candidates <= 5)%nat -> (size children <= 25)%nat).
Proof.
  destruct (repopulate_grows candidates s) as (children & s' & H0 & _).
  exists children, s'. split; [exact H0|].
  assert (size children <= length candidates * length candidates)%nat as Hsq.
  { unfold repopulate in H0.
    apply (outer_loop_size candidates candidates) in H0; [|auto].
    pose proof (size_list_to_set_le candidates). lia. }
  split; [exact Hsq|]. intros Hle. nia.
Qed.

(** In [repopulate] every crossover [breed c1 c2] returns a child, and for
    each of the three gene positions: when the draw of [uniform(0, 1)] made
    for that position is above 0.25, the choice between the two parents'
    genes is made and the child's gene is the gene of [c1] or the gene of
    [c2] at that position; a gene that both parents share is passed on. *)
Theorem inheritance_keeps_parent_gene (candidates : list candidate) (s : rng) :
  repopulate candidates s =
    (let* kids := comprehension (fun p => breed p.1 p.2)
                                (crossovers candidates) in
     ret (list_to_set kids ∪ list_to_set candidates)) s /\
  (forall c1 c2 t,
     exists child t1 t2 t3,
       breed c1 c2 t = (Ok child, t3) /\
       trait BINARY_OPERATIONS c1.1.1 c2.1.1 t = (Ok child.1.1, t1) /\
       trait ACCUMULATORS c1.1.2 c2.1.2 t1 = (Ok child.1.2, t2) /\
       trait CHOOSERS c1.2 c2.2 t2 = (Ok child.2, t3) /\
       (forall u r,
          uniform (VInt 0) (VInt 1) t = (Ok u, r) ->
          py_gt u quarter = true ->
          choice [c1.1.1; c2.1.1] r = (Ok child.1.1, t1) /\
          (child.1.1 = c1.1.1 \/ child.1.1 = c2.1.1) /\
          (c1.1.1 = c2.1.1 -> child.1.1 = c1.1.1)) /\
       (forall u r,
          uniform (VInt 0) (VInt 1) t1 = (Ok u, r) ->
          py_gt u quarter = true ->
          choice [c1.1.2; c2.1.2] r = (Ok child.1.2, t2) /\
          (child.1.2 = c1.1.2 \/ child.1.2 = c2.1.2) /\
          (c1.1.2 = c2.1.2 -> child.1.2 = c1.1.2)) /\
       (forall u r,
          uniform (VInt 0) (VInt 1) t2 = (Ok u, r) ->
          py_gt u quarter = true ->
          choice [c1.2; c2.2] r = (Ok child.2, t3) /\
          (child.2 = c1.2 \/ child.2 = c2.2) /\
          (c1.2 = c2.2 -> child.2 = c1.2))).
Proof.
  split; [apply repopulate_crossovers|].
  intros c1 c2 t. destruct (breed_ok c1 c2 t) as (child & t3 & Hb).
  destruct (breed_traits _ _ _ _ _ Hb) as (t1 & t2 & H1 & H2 & H3).
  exists child, t1, t2, t3. do 4 (split; [assumption|]).
  split; [|split]; intros u r Hu Hbr.
  - destruct (trait_branches _ _ _ _ _ _ H1 u r Hu) as [_ Hi].
    destruct (Hi Hbr) as [Hc Hg]. split; [exact Hc|]. split; [exact Hg|].
    intros E. rewrite <- E in Hg. tauto.
  - destruct (trait_branches _ _ _ _ _ _ H2 u r Hu) as [_ Hi].
    destruct (Hi Hbr) as [Hc Hg]. split; [exact Hc|]. split; [exact Hg|].
    intros E. rewrite <- E in Hg. tauto.
  - destruct (trait_branches _ _ _ _ _ _ H3 u r Hu) as [_ Hi].
    destruct (Hi Hbr) as [Hc Hg]. split; [exact Hc|]. split; [exact Hg|].
    intros E. rewrite <- E in Hg. tauto.
Qed.

Lemma inheritance_keeps_parent_gene_witness :
  uniform (VInt 0) (VInt 1) [2 ^ 52; 1; 2 ^ 52; 0; 0; 0]%N
    = (Ok (VFloat (S754_finite false 4503599627370496 (-53))),
       [1; 2 ^ 52; 0; 0; 0]%N) /\
  py_gt (VFloat (S754_finite false 4503599627370496 (-53))) quarter = true /\
  exists child t1 t3,
    breed (Add, Append, Len) (Div, Append, Zero)
          [2 ^ 52; 1; 2 ^ 52; 0; 0; 0]%N = (Ok child, t3) /\
    choice [Add; Div] [1; 2 ^ 52; 0; 0; 0]%N = (Ok child.1.1, t1) /\
    (child.1.1 = Add \/ child.1.1 = Div) /\
    (Add = Div -> child.1.1 = Add).
Proof.
  split; [vm_compute; reflexivity|]. split; [reflexivity|].
  destruct (inheritance_keeps_parent_gene
              [(Add, Append, Len); (Div, Append, Zero)]
              [2 ^ 52; 1; 2 ^ 52; 0; 0; 0]%N) as (_ & Hc).
  destruct (Hc (Add, Append, Len) (Div, Append, Zero)
               [2 ^ 52; 1; 2 ^ 52; 0; 0; 0]%N)
    as (child & t1 & t2 & t3 & Hb & _ & _ & _ & Hi & _).
  exists child, t1, t3. split; [exact Hb|].
  apply (Hi (VFloat (S754_finite false 4503599627370496 (-53)))
            [1; 2 ^ 52; 0; 0; 0]%N);
    [vm_compute; reflexivity|reflexivity].
Defined.

(** ** Seeds and names *)

(** [generate_candidate] never raises, and every candidate, the 48 triples
    of genes, is the outcome of some three draws. *)
Theorem generate_candidate_reaches_all :
  (forall s, exists c s', generate_candidate s = (Ok c, s')) /\
  (forall c r, exists r1 r2 r3,
     generate_candidate (r1 :: r2 :: r3 :: r) = (Ok c, r)).
Proof.
  split.
  - intros s. unfold generate_candidate.
    destruct (choice_ok BINARY_OPERATIONS s ltac:(discriminate))
      as (op & s1 & H1 & _).
    destruct (choice_ok ACCUMULATORS s1 ltac:(discriminate))
      as (acc & s2 & H2 & _).
    destruct (choice_ok CHOOSERS s2 ltac:(discriminate))
      as (ch & s3 & H3 & _).
    rewrite (bind_ok _ _ _ _ _ H1), (bind_ok _ _ _ _ _ H2),
      (bind_ok _ _ _ _ _ H3).
    eexists; eexists; reflexivity.
  - intros [[op acc] ch] r.
    exists (match op with Add => 0 | Mult => 1 | Div => 2 | Exp => 3 end)%N,
           (match acc with
            | Append => 0 | Prepend => 1 | Replace => 2 | InsertRand => 3
            end)%N,
           (match ch with Len => 0 | RandInLen => 1 | Zero => 2 end)%N.
    destruct op, acc, ch; reflexivity.
Qed.

Lemma candidate_of_algorithm_name (c : candidate) :
  exists name, algorithm_name c = Ok name /\ candidate_of_name name = Some c.
Proof. destruct c as [[[] []] []]; eexists; split; reflexivity. Qed.

Lemma candidate_of_print_algorithm (c : candidate) :
  exists text, print_algorithm c = Ok text /\
               candidate_of_name (String.substring 4 7 text) = Some c.
Proof.
  destruct c as [[[] []] []]; eexists; split; vm_compute; reflexivity.
Qed.

Lemma algorithm_name_inj (c1 c2 : candidate) :
  algorithm_name c1 = algorithm_name c2 -> c1 = c2.
Proof.
  destruct (candidate_of_algorithm_name c1) as (n1 & H1 & D1).
  destruct (candidate_of_algorithm_name c2) as (n2 & H2 & D2).
  intros Heq. rewrite H1, H2 in Heq. inversion Heq; subst. congruence.
Qed.

Lemma print_algorithm_inj (c1 c2 : candidate) :
  print_algorithm c1 = print_algorithm c2 -> c1 = c2.
Proof.
  destruct (candidate_of_print_algorithm c1) as (n1 & H1 & D1).
  destruct (candidate_of_print_algorithm c2) as (n2 & H2 & D2).
  intros Heq. rewrite H1, H2 in Heq. inversion Heq; subst. congruence.
Qed.

(** Names identify candidates: [algorithm_name] and the text of
    [print_algorithm] never raise, the name is ["add_"] followed by three
    letters from which the candidate can be read back, the text starts with
    ["def "] and that name, and two candidates with the same name, or with
    the same text, are the same candidate. *)
Theorem names_identify_candidates (c1 c2 : candidate) :
  (exists name text,
     algorithm_name c1 = Ok name /\ print_algorithm c1 = Ok text /\
     String.length name = 7%nat /\ String.prefix "add_" name = true /\
     String.prefix ("def " +:+ name) text = true /\
     candidate_of_name name = Some c1) /\
  (algorithm_name c1 = algorithm_name c2 -> c1 = c2) /\
  (print_algorithm c1 = print_algorithm c2 -> c1 = c2).
Proof.
  split; [|split].
  - destruct c1 as [[[] []] []]; eexists; eexists;
      repeat split; vm_compute; reflexivity.
  - apply algorithm_name_inj.
  - apply print_algorithm_inj.
Qed.

(** ** The text of a problem *)

Lemma str_digit (d : Z) : digit d -> str d = String (digit_char d) EmptyString.
Proof.
  intros Hd.
  destruct (digit_cases d Hd) as [-> | [-> | [-> | [-> | [-> | [-> | [-> | [-> | [-> | ->]]]]]]]]];
    reflexivity.
Qed.

Lemma digit_char_value (d : Z) :
  digit d -> Z.of_nat (Ascii.nat_of_ascii (digit_char d)) - 48 = d.
Proof.
  intros Hd.
  destruct (digit_cases d Hd) as [-> | [-> | [-> | [-> | [-> | [-> | [-> | [-> | [-> | ->]]]]]]]]];
    reflexivity.
Qed.

Lemma concat_str_digits (a : list Z) :
  Forall digit a -> String.concat "" (map str a) = digits_text a.
Proof.
  induction 1 as [|d a Hd Ha IH]; [reflexivity|].
  simpl map. cbn [String.concat digits_text].
  rewrite (str_digit d Hd). destruct a as [|d' a].
  - reflexivity.
  - rewrite IH. reflexivity.
Qed.

Lemma digits_text_app (l1 l2 : list Z) :
  digits_text (l1 ++ l2) = digits_text l1 +:+ digits_text l2.
Proof.
  induction l1 as [|d l1 IH]; simpl.
  - reflexivity.
  - now rewrite IH.
Qed.

Lemma string_app_cons (x : Ascii.ascii) (t u : string) :
  String x t +:+ u = String x (t +:+ u).
Proof. reflexivity. Qed.

Lemma string_app_snoc (t : string) (c : Ascii.ascii) (tail : string) :
  t +:+ String c tail = (t +:+ String c "") +:+ tail.
Proof.
  induction t as [|x t IHt]; [reflexivity|].
  rewrite !string_app_cons. now rewrite IHt.
Qed.

Lemma string_app_empty (t : string) : t +:+ "" = t.
Proof.
  induction t as [|x t IHt]; [reflexivity|].
  rewrite string_app_cons. now rewrite IHt.
Qed.

Lemma rev_app_digits (a : list Z) (tail : string) :
  String.rev_app (digits_text a) tail = digits_text (rev a) +:+ tail.
Proof.
  revert tail. induction a as [|d a IH]; intros tail.
  - reflexivity.
  - change (digits_text (d :: a)) with (String (digit_char d) (digits_text a)).
    simpl String.rev_app. rewrite IH. simpl rev. rewrite digits_text_app.
    change (digits_text [d]) with (String (digit_char d) EmptyString).
    apply string_app_snoc.
Qed.

Lemma operand_text_digits (a : list Z) :
  Forall digit a -> operand_text a = digits_text (rev a).
Proof.
  intros Ha. unfold operand_text, String.rev.
  rewrite (concat_str_digits a Ha), rev_app_digits.
  apply string_app_empty.
Qed.

Lemma decimal_value_snoc (l : list Z) (d acc : Z) :
  digit d ->
  decimal_value_from acc (digits_text (l ++ [d]))
  = 10 * decimal_value_from acc (digits_text l) + d.
Proof.
  intros Hd. revert acc.
  induction l as [|x l IH]; intros acc; simpl.
  - now rewrite (digit_char_value d Hd).
  - apply IH.
Qed.

Lemma decimal_value_rev (a : list Z) :
  Forall digit a ->
  decimal_value (digits_text (rev a)) = sequence_to_integer a.
Proof.
  unfold decimal_value. induction 1 as [|d a Hd Ha IH].
  - reflexivity.
  - simpl rev. rewrite (decimal_value_snoc _ _ _ Hd), IH.
    rewrite sequence_to_integer_cons. lia.
Qed.

(** [print_problem] shows each operand of digits with one character per
    digit, most significant digit first: read as a decimal numeral, the text
    of an operand denotes the number that [list_to_int] gives for it. *)
Theorem print_problem_shows_numbers (a b : list Z) :
  Forall digit a -> Forall digit b ->
  print_problem a b
    = ((digits_text (rev a) +:+ " + ") +:+ digits_text (rev b)) +:+ " = ?" /\
  String.length (operand_text a) = length a /\
  list_to_int (ints a) = Ok (VInt (decimal_value (operand_text a))) /\
  list_to_int (ints b) = Ok (VInt (decimal_value (operand_text b))).
Proof.
  intros Ha Hb. unfold print_problem.
  rewrite !operand_text_digits by assumption.
  rewrite !decimal_value_rev by assumption.
  rewrite !list_to_int_ints. repeat split.
  rewrite <- (length_rev a). generalize (rev a) as l. intros l.
  induction l as [|c l IHl]; simpl; [reflexivity|]. now rewrite IHl.
Qed.

Lemma print_problem_shows_numbers_witness :
  Forall digit [2; 3] /\ Forall digit [1; 1] /\
  print_problem [2; 3] [1; 1] = "32 + 11 = ?" /\
  list_to_int (ints [2; 3]) = Ok (VInt (decimal_value "32")).
Proof.
  assert (Forall digit [2; 3]) as H1
    by (repeat (constructor; [unfold digit; lia|]); constructor).
  assert (Forall digit [1; 1]) as H2
    by (repeat (constructor; [unfold digit; lia|]); constructor).
  split; [exact H1|]. split; [exact H2|].
  destruct (print_problem_shows_numbers [2; 3] [1; 1] H1 H2)
    as (Ht & _ & Hv & _).
  split; [exact Ht|exact Hv].
Defined.

(** ** The script *)

Lemma repopulate_size (candidates : list candidate) (children : gset candidate)
    (s s' : rng) :
  repopulate candidates s = (Ok children, s') ->
  (size children <= length candidates * length candidates)%nat.
Proof.
  unfold repopulate. intros H0.
  apply (outer_loop_size candidates candidates) in H0; [|auto].
  pose proof (size_list_to_set_le candidates). lia.
Qed.

Lemma comprehension_always {A B} (f : A -> M B) (l : list A) (s : rng) :
  (forall a t, exists b t', f a t = (Ok b, t')) ->
  exists bs s', comprehension f l s = (Ok bs, s') /\ length bs = length l.
Proof.
  intros Hf. revert s. induction l as [|a l IH]; intros s; simpl.
  - exists [], s. split; reflexivity.
  - destruct (Hf a s) as (b & s1 & Hb). destruct (IH s1) as (bs & s2 & Hbs & Hl).
    exists (b :: bs), s2.
    rewrite (bind_ok _ _ _ _ _ Hb), (bind_ok _ _ _ _ _ Hbs).
    split; [reflexivity|simpl; lia].
Qed.

Lemma generate_candidate_ok (s : rng) :
  exists c s', generate_candidate s = (Ok c, s').
Proof.
  unfold generate_candidate.
  destruct (choice_ok BINARY_OPERATIONS s ltac:(discriminate))
    as (op & s1 & H1 & _).
  destruct (choice_ok ACCUMULATORS s1 ltac:(discriminate))
    as (acc & s2 & H2 & _).
  destruct (choice_ok CHOOSERS s2 ltac:(discriminate)) as (ch & s3 & H3 & _).
  rewrite (bind_ok _ _ _ _ _ H1), (bind_ok _ _ _ _ _ H2),
    (bind_ok _ _ _ _ _ H3).
  eexists; eexists; reflexivity.
Qed.

Lemma for_each_last {A S} (Q : S -> Prop) (l : list A) (body : S -> A -> M S) :
  l <> [] ->
  (forall st a s st' s', body st a s = (Ok st', s') -> Q st') ->
  forall st s st' s', for_each l st body s = (Ok st', s') -> Q st'.
Proof.
  intros Hne Hb. induction l as [|a l IH]; [congruence|].
  intros st s st' s' H0. simpl in H0. unfold bind in H0.
  destruct (body st a s) as [[st1|e] s1] eqn:E; [|discriminate].
  destruct l as [|a' l].
  - simpl in H0. inversion H0; subst. eapply Hb; exact E.
  - eapply IH; [discriminate|exact H0].
Qed.

Section Script.

Variable libm_pow : spec_float -> spec_float -> spec_float.
Variable set_order : gset candidate -> list candidate.
Hypothesis set_order_lists : forall X, Permutation (set_order X) (elements X).

Lemma best_at_most_5 (candidates top : list candidate)
    (problems : list problem) (s s' : rng) :
  best libm_pow candidates problems s = (Ok top, s') ->
  (length top <= 5)%nat.
Proof.
  unfold best, bind, ret. intros H0.
  destruct (sort_candidates libm_pow candidates problems s) as [[r|e] s1];
    [|discriminate].
  inversion H0. rewrite length_firstn. lia.
Qed.

Lemma evolution_round_size (num_problems r : Z) (candidates next : gset candidate)
    (s s' : rng) :
  evolution_round libm_pow set_order num_problems candidates r s
    = (Ok next, s') ->
  (size next <= 25)%nat.
Proof.
  unfold evolution_round. intros H0. unfold bind at 1 in H0.
  destruct (comprehension _ (range 0 num_problems) s) as [[ps|e] s1];
    [|discriminate].
  unfold bind at 1 in H0.
  destruct (best libm_pow (set_order candidates) ps s1) as [[top|e] s2] eqn:E;
    [|discriminate].
  apply best_at_most_5 in E.
  unfold bind, lift in H0.
  destruct (pure_comprehension algorithm_name top); [|discriminate].
  destruct (subscript top 0); [|discriminate].
  destruct (print_algorithm _); [|discriminate].
  apply repopulate_size in H0. nia.
Qed.

(** What a run of the script leaves: after at least one round the
    population has at most 25 candidates, whatever the number of seeds; with
    no round it is the seed population, of at most [num_candidates]
    candidates. *)
Theorem evolution_population_bounded (num_candidates num_rounds num_problems : Z)
    (population : gset candidate) (s s' : rng) :
  evolution libm_pow set_order num_candidates num_rounds num_problems s
    = (Ok population, s') ->
  (0 < num_rounds -> (size population <= 25)%nat) /\
  (num_rounds <= 0 -> (size population <= Z.to_nat num_candidates)%nat).
Proof.
  unfold evolution, seed_candidates. intros H0. unfold bind at 1 in H0.
  destruct (bind _ _ s) as [[seeds|e] s1] eqn:Eseed; [|discriminate].
  split.
  - intros Hr.
    eapply (for_each_last (fun P => (size P <= 25)%nat)); [| |exact H0].
    + rewrite range_cons by lia. discriminate.
    + intros st r t st' t' Hround. eapply evolution_round_size; exact Hround.
  - intros Hr. rewrite range_nil in H0 by lia. simpl in H0.
    inversion H0; subst. unfold bind, ret in Eseed.
    destruct (comprehension _ (range 0 num_candidates) s) as [[l|e] s2] eqn:El;
      [|discriminate].
    inversion Eseed; subst.
    destruct (comprehension_always (fun _ : Z => generate_candidate)
                (range 0 num_candidates) s)
      as (l' & s3 & Hl' & Hlen); [intros _ t; apply generate_candidate_ok|].
    rewrite El in Hl'. inversion Hl'; subst.
    rewrite range_length in Hlen.
    pose proof (size_list_to_set_le l'). lia.
Qed.

(** With no seed candidate and at least one round the script stops in the
    first round with [IndexError]: the ranking is empty and [best[0]] does
    not exist. *)
Theorem evolution_without_seeds (num_candidates num_rounds num_problems : Z)
    (s : rng) :
  num_candidates <= 0 -> 0 < num_rounds ->
  exists s',
    evolution libm_pow set_order num_candidates num_rounds num_problems s
      = (Raise IndexError, s').
Proof.
  intros Hc Hr.
  assert (seed_candidates num_candidates s
          = (Ok (∅ : gset candidate), s)) as Hseed.
  { unfold seed_candidates. rewrite (range_nil 0 num_candidates) by lia.
    reflexivity. }
  destruct (generated_batch_well_formed 2 3 (range 0 num_problems) s
              ltac:(lia)) as (ps & s1 & Hps & _).
  assert (set_order ∅ = []) as Hempty.
  { apply Permutation_nil. rewrite set_order_lists.
    rewrite elements_empty. reflexivity. }
  exists s1. unfold evolution. rewrite (bind_ok _ _ _ _ _ Hseed).
  rewrite range_cons by lia. simpl for_each. apply bind_raise.
  unfold evolution_round.
  rewrite (bind_ok _ _ _ _ _ Hps), Hempty. reflexivity.
Qed.

(** With at least one seed candidate, at least one round and no problem per
    round, the script stops in the first round with [ZeroDivisionError],
    raised by the score of the first candidate. *)
Theorem evolution_without_problems (num_candidates num_rounds num_problems : Z)
    (s : rng) :
  0 < num_candidates -> 0 < num_rounds -> num_problems <= 0 ->
  exists s',
    evolution libm_pow set_order num_candidates num_rounds num_problems s
      = (Raise ZeroDivisionError, s').
Proof.
  intros Hc Hr Hp.
  destruct (comprehension_always (fun _ : Z => generate_candidate)
              (range 0 num_candidates) s)
    as (l & s1 & Hl & Hlen); [intros _ t; apply generate_candidate_ok|].
  rewrite range_length in Hlen.
  assert (seed_candidates num_candidates s
          = (Ok (list_to_set l : gset candidate), s1)) as Hseed
    by (unfold seed_candidates; now rewrite (bind_ok _ _ _ _ _ Hl)).
  destruct (set_order (list_to_set l)) as [|c order] eqn:Eorder.
  { exfalso. pose proof (set_order_lists (list_to_set l)) as Hperm.
    rewrite Eorder in Hperm. apply Permutation_nil in Hperm.
    apply elements_empty_inv in Hperm.
    destruct l as [|c l]; [simpl in Hlen; lia|].
    assert (c ∈ (list_to_set (c :: l) : gset candidate)) as Hin
      by (rewrite list_to_set_cons; apply elem_of_union_l, elem_of_singleton;
          reflexivity).
    rewrite Hperm in Hin. now apply elem_of_empty in Hin. }
  assert (candidate_score libm_pow c [] s1 = (Raise ZeroDivisionError, s1))
    as Hscore by reflexivity.
  exists s1. unfold evolution. rewrite (bind_ok _ _ _ _ _ Hseed).
  rewrite range_cons by lia. simpl for_each. apply bind_raise.
  unfold evolution_round.
  rewrite (range_nil 0 num_problems) by lia. simpl comprehension.
  unfold bind at 1. unfold ret at 1. rewrite Eorder.
  apply bind_raise. unfold best. apply bind_raise.
  unfold sort_candidates. apply bind_raise.
  unfold score_all. simpl comprehension. apply bind_raise.
  now apply bind_raise.
Qed.

End Script.

Lemma evolution_population_bounded_witness :
  evolution reference_pow elements 2 1 2
    [1; 0; 0; 2; 1; 2; 0; 0; 3; 1; 4; 1; 5; 9; 2; 6]%N
  = (Ok (list_to_set [(Div, Prepend, Zero); (Add, Replace, RandInLen);
                      (Mult, Append, Len)]), []) /\
  (0 < 1 ->
   (size (list_to_set [(Div, Prepend, Zero); (Add, Replace, RandInLen);
                       (Mult, Append, Len)] : gset candidate) <= 25)%nat).
Proof.
  assert (evolution reference_pow elements 2 1 2
            [1; 0; 0; 2; 1; 2; 0; 0; 3; 1; 4; 1; 5; 9; 2; 6]%N
          = (Ok (list_to_set [(Div, Prepend, Zero); (Add, Replace, RandInLen);
                              (Mult, Append, Len)]), [])) as H
    by (vm_compute; reflexivity).
  split; [exact H|].
  apply (evolution_population_bounded reference_pow elements 2 1 2 _ _ _ H).
Defined.

Lemma evolution_without_seeds_witness :
  (forall X : gset candidate, Permutation (elements X) (elements X)) /\
  0 <= 0 /\ 0 < 1 /\
  exists s',
    evolution reference_pow elements 0 1 2 [0; 7; 3; 5; 9]%N
      = (Raise IndexError, s').
Proof.
  split; [intros X; reflexivity|]. split; [lia|]. split; [lia|].
  apply (evolution_without_seeds reference_pow elements
           (fun X => Permutation_refl (elements X)) 0 1 2); lia.
Defined.

Lemma evolution_without_problems_witness :
  (forall X : gset candidate, Permutation (elements X) (elements X)) /\
  0 < 2 /\ 0 < 1 /\ 0 <= 0 /\
  exists s',
    evolution reference_pow elements 2 1 0 [1; 0; 0; 2; 1; 2]%N
      = (Raise ZeroDivisionError, s').
Proof.
  split; [intros X; reflexivity|]. split; [lia|]. split; [lia|].
  split; [lia|].
  apply (evolution_without_problems reference_pow elements
           (fun X => Permutation_refl (elements X)) 2 1 0); lia.
Defined.

(** * Scores on well-formed batches *)

(** ** Rounding *)

Lemma Zdigits2_le (m k : Z) : 0 <= m < 2 ^ k -> 0 <= k -> Zdigits2 m <= k.
Proof.
  intros [Hm Hlt] Hk. destruct m as [|p|p]; simpl; try lia.
  pose proof (digits2_pos_lower p) as Hlow.
  destruct (Z_le_gt_dec (Z.pos (digits2_pos p)) k) as [|Hgt]; [assumption|].
  assert (2 ^ k <= 2 ^ (Z.pos (digits2_pos p) - 1))
    by (apply Z.pow_le_mono_r; lia).
  lia.
Qed.

Lemma shr_fexp_nonneg (m e : Z) (l : location) :
  0 <= m -> 0 <= shr_m (shr_fexp prec emax m e l).1.
Proof.
  intros Hm. unfold shr_fexp, shr.
  destruct (fexp prec emax (Zdigits2 m + e) - e) as [|n|n]; simpl;
    rewrite ?shr_record_of_loc_m; try lia.
  rewrite iter_shr_1_m by (rewrite shr_record_of_loc_m; lia).
  rewrite shr_record_of_loc_m. apply Z.div_pos; [lia|].
  apply Z.pow_pos_nonneg; lia.
Qed.

Lemma round_nearest_even_bounds (m : Z) (l : location) :
  m <= round_nearest_even m l <= m + 1.
Proof.
  destruct l as [|[]]; simpl; try lia. destruct (Z.even m); lia.
Qed.

Lemma binary_round_aux_signed (sx : bool) (mx ex : Z) (lx : location) :
  0 <= mx -> signed sx (binary_round_aux prec emax sx mx ex lx).
Proof.
  intros Hm. unfold binary_round_aux.
  pose proof (shr_fexp_nonneg mx ex lx Hm) as H1.
  destruct (shr_fexp prec emax mx ex lx) as [mrs' e']. simpl in H1.
  pose proof (round_nearest_even_bounds (shr_m mrs') (loc_of_shr_record mrs'))
    as H2.
  pose proof (shr_fexp_nonneg
                (round_nearest_even (shr_m mrs') (loc_of_shr_record mrs'))
                e' loc_Exact ltac:(lia)) as H3.
  destruct (shr_fexp prec emax _ e' loc_Exact) as [mrs'' e'']. simpl in H3.
  destruct (shr_m mrs''); try lia; simpl; [reflexivity|].
  destruct (e'' <=? emax - prec); reflexivity.
Qed.

(** The result of a shift: the exponent it reaches and a bound on the
    mantissa. *)
Lemma shr_fexp_bound (m e k : Z) (l : location) :
  0 <= m < 2 ^ (k - e) -> e <= k - prec -> emin prec emax <= k - prec ->
  0 <= shr_m (shr_fexp prec emax m e l).1
    < 2 ^ (k - (shr_fexp prec emax m e l).2) /\
  (shr_fexp prec emax m e l).2 <= k - prec.
Proof.
  intros [Hm Hlt] He Hk.
  assert (e <= k - 53) as He' by exact He.
  assert (-1074 <= k - 53) as Hk' by exact Hk.
  pose proof (Zdigits2_le m (k - e) (conj Hm Hlt) ltac:(lia)) as Hd.
  unfold shr_fexp, shr.
  destruct (fexp prec emax (Zdigits2 m + e) - e) as [|n|n] eqn:En;
    cbn [fst snd]; rewrite ?shr_record_of_loc_m; try (split; [lia|exact He]).
  rewrite iter_shr_1_m by (rewrite shr_record_of_loc_m; lia).
  rewrite shr_record_of_loc_m.
  assert (e + Z.pos n <= k - 53) as Hle
    by (unfold fexp, emin, prec, emax in En; lia).
  split; [|exact Hle]. split.
  - apply Z.div_pos; [lia|]. apply Z.pow_pos_nonneg; lia.
  - apply Z.div_lt_upper_bound; [apply Z.pow_pos_nonneg; lia|].
    rewrite <- Z.pow_add_r by lia.
    replace (Z.pos n + (k - (e + Z.pos n))) with (k - e) by lia. exact Hlt.
Qed.

(** A mantissa below [2 ^ (1023 - ex)] rounds to a finite double: the
    rounding does not reach the infinities. *)
Lemma binary_round_aux_finite (sx : bool) (mx ex : Z) (lx : location) :
  0 <= mx < 2 ^ (1023 - ex) -> ex <= 970 ->
  forall s, binary_round_aux prec emax sx mx ex lx <> S754_infinity s.
Proof.
  intros Hm He s. unfold binary_round_aux.
  pose proof (shr_fexp_bound mx ex 1023 lx Hm He ltac:(vm_compute; discriminate))
    as [H1 H2].
  destruct (shr_fexp prec emax mx ex lx) as [mrs' e']. simpl in H1, H2.
  pose proof (round_nearest_even_bounds (shr_m mrs') (loc_of_shr_record mrs'))
    as H3.
  set (m2 := round_nearest_even (shr_m mrs') (loc_of_shr_record mrs')) in *.
  assert (0 <= m2 < 2 ^ (1024 - e')) as Hm2.
  { split; [lia|]. unfold prec in H2.
    replace (1024 - e') with (1 + (1023 - e')) by lia.
    rewrite Z.pow_add_r by lia. lia. }
  pose proof (shr_fexp_bound m2 e' 1024 loc_Exact Hm2
                ltac:(unfold prec in *; lia) ltac:(vm_compute; discriminate))
    as [H4 H5].
  destruct (shr_fexp prec emax m2 e' loc_Exact) as [mrs'' e'']. simpl in H4, H5.
  destruct (shr_m mrs''); try discriminate.
  destruct (Z.leb_spec e'' (emax - prec)); [discriminate|].
  unfold emax, prec in *. lia.
Qed.

(** The division of two positive ints. *)
Lemma SFdiv_core_binary_ints (a b : Z) :
  0 < a -> 0 < b ->
  exists e,
    SFdiv_core_binary prec emax a 0 b 0 =
      (a * 2 ^ (- e) / b, e, new_location b (a * 2 ^ (- e) mod b)) /\
    emin prec emax <= e <= 0.
Proof.
  intros Ha Hb. unfold SFdiv_core_binary.
  set (e := Z.min (fexp prec emax (Zdigits2 a + 0 - (Zdigits2 b + 0))) (0 - 0)).
  assert (emin prec emax <= e <= 0) as He
    by (unfold e, fexp, emin, prec, emax; lia).
  exists e. split; [|exact He].
  assert (match 0 - 0 - e with
          | 0 => a
          | Z.pos _ => Z.shiftl a (0 - 0 - e)
          | Z.neg _ => 0
          end = a * 2 ^ (- e)) as ->.
  { destruct (0 - 0 - e) as [|n|n] eqn:En; try lia.
    - replace (- e) with 0 by lia. lia.
    - rewrite Z.shiftl_mul_pow2 by lia. f_equal. f_equal. lia. }
  unfold Z.div, Z.modulo.
  destruct (Z.div_eucl (a * 2 ^ (- e)) b) as [q r]. reflexivity.
Qed.

(** [a / b] returns a float when the quotient is below [2 ^ 1023]. *)
Lemma int_truediv_returns (a b : Z) :
  0 <= a -> 0 < b -> a < 2 ^ 1023 * b ->
  exists f, int_truediv a b = Ok (VFloat f) /\ signed false f.
Proof.
  intros Ha Hb Hlt. unfold int_truediv.
  destruct (Z.eqb_spec b 0) as [|_]; [lia|].
  destruct (Z.eqb_spec a 0) as [|Ha0].
  - destruct (Z.ltb_spec b 0); [lia|]. eexists. split; reflexivity.
  - rewrite (Z.abs_eq a), (Z.abs_eq b) by lia.
    destruct (SFdiv_core_binary_ints a b ltac:(lia) Hb) as (e & -> & He).
    destruct (Z.ltb_spec a 0); [lia|]. destruct (Z.ltb_spec b 0); [lia|].
    simpl xorb.
    assert (0 <= a * 2 ^ (- e) / b < 2 ^ (1023 - e)) as Hq.
    { assert (0 < 2 ^ (- e)) by (apply Z.pow_pos_nonneg; lia).
      split; [apply Z.div_pos; nia|].
      apply Z.div_lt_upper_bound; [lia|].
      replace (1023 - e) with (1023 + - e) by lia.
      rewrite Z.pow_add_r by lia. nia. }
    pose proof (binary_round_aux_signed false _ e
                  (new_location b (a * 2 ^ (- e) mod b)) (proj1 Hq)) as Hs.
    pose proof (binary_round_aux_finite false _ e
                  (new_location b (a * 2 ^ (- e) mod b)) Hq ltac:(lia)) as Hf.
    destruct (binary_round_aux prec emax false _ e _) as [s|s| |s m x];
      simpl in Hs; try contradiction.
    + eexists. split; [reflexivity|exact Hs].
    + now destruct (Hf s).
    + eexists. split; [reflexivity|exact Hs].
Qed.

(** ** Numbers that are not negative *)

Lemma signed_nonneg (f : spec_float) : signed false f -> nonneg_float f.
Proof. destruct f; simpl; auto. Qed.

Lemma nonneg_float_number (f : spec_float) : nonneg_float f -> f <> S754_nan.
Proof. destruct f; simpl; congruence. Qed.

Lemma binary_round_signed (sx : bool) (mx : positive) (ex : Z) :
  signed sx (binary_round prec emax sx mx ex).
Proof.
  unfold binary_round. destruct (shl_align mx ex _) as [mz ez].
  apply binary_round_aux_signed. lia.
Qed.

Lemma binary_normalize_number (m e : Z) (sz : bool) :
  binary_normalize prec emax m e sz <> S754_nan /\
  (0 <= m -> nonneg_float (binary_normalize prec emax m e sz)).
Proof.
  unfold binary_normalize. destruct m as [|p|p].
  - split; [discriminate|]. intros _. exact I.
  - pose proof (binary_round_signed false p e) as Hs.
    split; [|intros _; now apply signed_nonneg].
    destruct (binary_round prec emax false p e); simpl in Hs;
      try discriminate; contradiction.
  - pose proof (binary_round_signed true p e) as Hs. split; [|lia].
    destruct (binary_round prec emax true p e); simpl in Hs;
      try discriminate; contradiction.
Qed.

Lemma SFadd_nonneg (x y : spec_float) :
  nonneg_float x -> nonneg_float y -> nonneg_float (SFadd prec emax x y).
Proof.
  destruct x as [sx|sx| |sx mx ex], y as [sy|sy| |sy my ey]; simpl;
    try tauto; try (intros -> ->; reflexivity); try (intros; subst; auto).
  - destruct sx, sy; exact I.
  - apply binary_normalize_number. simpl. lia.
Qed.

Lemma SFmul_nonneg (x y : spec_float) :
  nonneg_float x -> finite_float x -> nonneg_float y -> finite_float y ->
  nonneg_float (SFmul prec emax x y).
Proof.
  destruct x as [sx|sx| |sx mx ex], y as [sy|sy| |sy my ey]; simpl;
    try tauto.
  intros -> _ -> _. apply signed_nonneg.
  apply (binary_round_aux_signed false). lia.
Qed.

Lemma SFsub_number (x y : spec_float) :
  x <> S754_nan -> finite_float y -> SFsub prec emax x y <> S754_nan.
Proof.
  destruct x as [sx|sx| |sx mx ex], y as [sy|sy| |sy my ey]; simpl;
    try tauto; try discriminate.
  - intros _ _. destruct sx, sy; discriminate.
  - intros _ _. apply binary_normalize_number.
Qed.

Lemma SFabs_nonneg (f : spec_float) :
  f <> S754_nan -> nonneg_float (SFabs f).
Proof. destruct f; simpl; intros H; try exact I; try reflexivity. congruence. Qed.

Lemma SFdiv_core_binary_nonneg (m1 e1 m2 e2 : Z) :
  0 <= m1 -> 0 < m2 -> 0 <= (SFdiv_core_binary prec emax m1 e1 m2 e2).1.1.
Proof.
  intros H1 H2. unfold SFdiv_core_binary.
  set (s := e1 - e2 - _).
  set (m' := match s with 0 => m1 | Z.pos _ => Z.shiftl m1 s | Z.neg _ => 0 end).
  assert (0 <= m') as Hm'.
  { unfold m'. destruct s; try lia. apply Z.shiftl_nonneg. exact H1. }
  pose proof (Z.div_pos m' m2 Hm' H2) as Hq. unfold Z.div in Hq.
  destruct (Z.div_eucl m' m2) as [q r]. exact Hq.
Qed.

Lemma SFdiv_nonneg (x : spec_float) (my : positive) (ey : Z) :
  nonneg_float x ->
  nonneg_float (SFdiv prec emax x (S754_finite false my ey)).
Proof.
  destruct x as [sx|sx| |sx mx ex]; simpl; try tauto.
  - intros ->. reflexivity.
  - intros ->.
    pose proof (SFdiv_core_binary_nonneg (Z.pos mx) ex (Z.pos my) ey
                  ltac:(lia) ltac:(lia)) as Hq.
    destruct (SFdiv_core_binary prec emax (Z.pos mx) ex (Z.pos my) ey)
      as [[mz ez] lz]. simpl in Hq.
    apply signed_nonneg. now apply (binary_round_aux_signed false).
Qed.

Lemma float_of_int_nonneg (z : Z) (f : spec_float) :
  0 <= z -> float_of_int z = Ok f ->
  nonneg_float f /\ finite_float f /\
  (0 < z -> exists m e, f = S754_finite false m e).
Proof.
  intros Hz. unfold float_of_int.
  pose proof (binary_normalize_number z 0 false) as [_ Hn].
  specialize (Hn Hz).
  pose proof (fun s => binary_normalize_nonzero z s) as Hnz.
  destruct (binary_normalize prec emax z 0 false) as [s|s| |s m e];
    intros H0; inversion H0; subst; simpl in *; try contradiction.
  - repeat split. intros Hpos. destruct (Hnz s ltac:(lia)). reflexivity.
  - subst. repeat split. intros _. eauto.
Qed.

Lemma float_of_int_finite (z : Z) (f : spec_float) :
  float_of_int z = Ok f -> finite_float f.
Proof.
  unfold float_of_int.
  pose proof (binary_normalize_number z 0 false) as [Hn _].
  destruct (binary_normalize prec emax z 0 false);
    intros H0; inversion H0; subst; simpl; auto.
Qed.

Lemma py_add_nonneg (x y v : value) :
  nonneg_value x -> nonneg_value y -> py_add x y = Ok v -> nonneg_value v.
Proof.
  destruct x as [a|f], y as [b|g]; simpl; intros Hx Hy H0.
  - inversion H0. simpl. lia.
  - unfold float_binop in H0. simpl in H0.
    destruct (float_of_int a) as [fa|] eqn:E; simpl in H0; [|discriminate].
    inversion H0. simpl. apply SFadd_nonneg; [|exact Hy].
    now apply (float_of_int_nonneg a).
  - unfold float_binop in H0. simpl in H0.
    destruct (float_of_int b) as [fb|] eqn:E; simpl in H0; [|discriminate].
    inversion H0. simpl. apply SFadd_nonneg; [exact Hx|].
    now apply (float_of_int_nonneg b).
  - inversion H0. simpl. now apply SFadd_nonneg.
Qed.

Lemma py_mul_nonneg (w : Z) (x v : value) :
  0 <= w -> small_value x -> py_mul (VInt w) x = Ok v -> nonneg_value v.
Proof.
  destruct x as [b|g]; simpl; intros Hw Hx H0.
  - inversion H0. simpl. lia.
  - unfold float_binop in H0. simpl in H0.
    destruct (float_of_int w) as [fw|] eqn:E; simpl in H0; [|discriminate].
    inversion H0. simpl.
    destruct (float_of_int_nonneg w fw Hw E) as (Hn & Hf & _).
    now apply SFmul_nonneg.
Qed.

Lemma py_sum_nonneg (l : list value) (acc : result value) (v : value) :
  Forall nonneg_value l ->
  (forall a, acc = Ok a -> nonneg_value a) ->
  fold_left (fun acc t => rbind acc (fun s => py_add s t)) l acc = Ok v ->
  nonneg_value v.
Proof.
  intros Hl. revert acc. induction Hl as [|t l Ht _ IH]; intros acc Hacc H0;
    simpl in H0.
  - now apply Hacc.
  - apply IH in H0; [exact H0|]. intros a Ha.
    destruct acc as [a0|e]; simpl in Ha; [|discriminate].
    eapply py_add_nonneg; [|exact Ht|exact Ha]. now apply Hacc.
Qed.

Lemma pure_comprehension_Forall {A B} (f : A -> result B) (P : B -> Prop)
    (l : list A) (bs : list B) :
  (forall i b, In i l -> f i = Ok b -> P b) ->
  pure_comprehension f l = Ok bs -> Forall P bs.
Proof.
  revert bs. induction l as [|i l IH]; intros bs Hf H0; simpl in H0.
  - inversion H0. constructor.
  - destruct (f i) as [b|e] eqn:E; simpl in H0; [|discriminate].
    destruct (pure_comprehension f l) as [bs'|e]; simpl in H0; [|discriminate].
    inversion H0; subst. constructor.
    + apply (Hf i); [now left|exact E].
    + apply IH; [|reflexivity]. intros j b' Hj. apply Hf. now right.
Qed.

Lemma subscript_In {A} (l : list A) (i : Z) (a : A) :
  subscript l i = Ok a -> In a l.
Proof.
  unfold subscript. destruct (_ <? 0); [discriminate|].
  destruct (nth_error l _) eqn:E; intros H0; inversion H0; subst.
  eapply nth_error_In; exact E.
Qed.

Lemma list_to_int_nonneg (z : list value) (v : value) :
  Forall small_value z -> list_to_int z = Ok v -> nonneg_value v.
Proof.
  intros Hz. unfold list_to_int.
  destruct (pure_comprehension _ (range 0 (len z))) as [ts|e] eqn:E;
    simpl; [|discriminate].
  intros H0. unfold py_sum in H0.
  eapply py_sum_nonneg; [| |exact H0].
  - eapply pure_comprehension_Forall; [|exact E].
    intros i t Hi Ht. simpl in Ht.
    destruct (subscript z i) as [zi|] eqn:Ez; simpl in Ht; [|discriminate].
    apply range_In in Hi.
    eapply (py_mul_nonneg (10 ^ i)); [apply Z.pow_nonneg; lia| |exact Ht].
    eapply List.Forall_forall; [exact Hz|]. eapply subscript_In; exact Ez.
  - intros a Ha. inversion Ha. simpl. lia.
Qed.

Section NoNaN.

Variable libm_pow : spec_float -> spec_float -> spec_float.

Lemma call_op_small (op : operation) (x y : Z) (v : value) :
  digit x -> digit y -> call_op libm_pow op x y = Ok v -> small_value v.
Proof.
  intros Hx Hy. destruct op; simpl.
  - intros H0. inversion H0. simpl. unfold digit in *. lia.
  - intros H0. inversion H0. simpl. unfold digit in *. nia.
  - destruct (Z.eq_dec y 0) as [->|Hy0]; [discriminate|].
    destruct (digit_cases x Hx) as [-> | [-> | [-> | [-> | [-> | [-> | [-> | [-> | [-> | ->]]]]]]]]];
    destruct (digit_cases y Hy) as [-> | [-> | [-> | [-> | [-> | [-> | [-> | [-> | [-> | ->]]]]]]]]];
      try congruence; vm_compute; intros H0; inversion H0; auto.
  - unfold exp, digit in *. destruct (Z.leb_spec 0 y); [|lia].
    intros H0. inversion H0. simpl. apply Z.pow_nonneg. lia.
Qed.

Lemma call_acc_small (acc : accumulator) (z z' : list value) (v : value)
    (s s' : rng) :
  Forall small_value z -> small_value v ->
  call_acc acc z v s = (Ok z', s') -> Forall small_value z'.
Proof.
  intros Hz Hv. destruct acc; simpl; intros H0.
  - inversion H0. apply Forall_app. split; [exact Hz|]. now constructor.
  - inversion H0. now constructor.
  - inversion H0. now constructor.
  - unfold insert_rand, bind, ret in H0.
    destruct (choice _ s) as [[i|e] s1]; [|discriminate].
    inversion H0. apply Forall_app. split; [now apply Forall_take|].
    constructor; [exact Hv|]. now apply Forall_drop.
Qed.

Lemma for_each_small (a b : list Z) (op : operation) (acc : accumulator)
    (l : list Z) (z z' : list value) (s s' : rng) :
  Forall digit a -> Forall digit b -> Forall small_value z ->
  for_each l z (loop_body libm_pow a b op acc) s = (Ok z', s') ->
  Forall small_value z'.
Proof.
  intros Ha Hb. revert z s. induction l as [|i l IH]; intros z s Hz H0;
    simpl in H0.
  - inversion H0. now subst.
  - unfold bind at 1 in H0.
    destruct (loop_body libm_pow a b op acc z i s) as [[z1|e] s1] eqn:E;
      [|discriminate].
    apply (IH z1 s1); [|exact H0].
    unfold loop_body, bind, lift in E.
    destruct (subscript a i) as [xi|] eqn:Ex; [|discriminate].
    destruct (subscript b i) as [yi|] eqn:Ey; [|discriminate].
    destruct (call_op libm_pow op xi yi) as [v|] eqn:Ev; [|discriminate].
    eapply call_acc_small; [exact Hz| |exact E].
    eapply call_op_small; [| |exact Ev].
    + eapply List.Forall_forall; [exact Ha|]. eapply subscript_In; exact Ex.
    + eapply List.Forall_forall; [exact Hb|]. eapply subscript_In; exact Ey.
Qed.

Lemma loop_small (a b : list Z) (op : operation) (acc : accumulator)
    (ch : chooser) (z : list value) (s s' : rng) :
  Forall digit a -> Forall digit b ->
  loop libm_pow a b op acc ch s = (Ok z, s') -> Forall small_value z.
Proof.
  intros Ha Hb. unfold loop, bind. 
  destruct (call_chooser ch a s) as [[n|e] s1]; [|discriminate].
  apply for_each_small; auto.
Qed.

Lemma penalised_nonneg (score : value) :
  nonneg_value score -> nonneg_value (penalised score).
Proof.
  destruct score as [t|f]; simpl; [lia|]. intros Hf.
  now apply SFadd_nonneg.
Qed.

Lemma abs_error_nonneg (z : list value) (t : Z) (d : value) :
  Forall small_value z -> abs_error z (VInt t) = Ok d -> nonneg_value d.
Proof.
  intros Hz. unfold abs_error.
  destruct (list_to_int z) as [v|] eqn:Ev; simpl; [|discriminate].
  pose proof (list_to_int_nonneg z v Hz Ev) as Hv.
  destruct v as [a|f]; simpl.
  - intros H0. inversion H0. simpl. lia.
  - unfold float_binop. simpl.
    destruct (float_of_int t) as [ft|] eqn:Et; simpl; [|discriminate].
    intros H0. inversion H0. simpl. apply SFabs_nonneg.
    apply SFsub_number.
    + now apply nonneg_float_number.
    + eapply float_of_int_finite; exact Et.
Qed.

Lemma credited_nonneg (score : value) (outcome : result (list value))
    (t : Z) :
  nonneg_value score ->
  (forall z, outcome = Ok z -> Forall small_value z) ->
  nonneg_value (credited score outcome (VInt t)).
Proof.
  intros Hs Hz. unfold credited.
  destruct outcome as [z|e]; [|now apply penalised_nonneg].
  destruct (invalid_digit z); [now apply penalised_nonneg|].
  destruct (abs_error z (VInt t)) as [d|] eqn:Ed; simpl;
    [|now apply penalised_nonneg].
  destruct (py_add score d) as [total|] eqn:Et;
    [|now apply penalised_nonneg].
  eapply py_add_nonneg; [exact Hs| |exact Et].
  eapply abs_error_nonneg; [|exact Ed]. now apply Hz.
Qed.

Lemma total_error_nonneg (algorithm : candidate) (problems : list problem)
    (score : value) (s : rng) :
  Forall well_formed problems -> nonneg_value score ->
  nonneg_value (total_error libm_pow algorithm score problems s).1.
Proof.
  intros Hp. revert score s.
  induction Hp as [|[[a b] answer] rest Hwf _ IH]; intros score s Hs; simpl.
  - exact Hs.
  - destruct (loop libm_pow a b algorithm.1.1 algorithm.1.2 algorithm.2 s)
      as [outcome s1] eqn:E.
    apply IH. destruct Hwf as (_ & Ha & Hb & _ & ->).
    apply credited_nonneg; [exact Hs|].
    intros z ->. eapply loop_small; [exact Ha|exact Hb|exact E].
Qed.

Lemma truediv_number (total : value) (n : Z) (k : value) :
  nonneg_value total -> 0 < n ->
  py_truediv total (VInt n) = Ok k -> is_number k.
Proof.
  intros Ht Hn. destruct total as [t|f]; simpl in *.
  - unfold int_truediv. destruct (n =? 0); [discriminate|].
    destruct (t =? 0).
    + intros H0. inversion H0. eexists. split; [reflexivity|discriminate].
    + pose proof (SFdiv_core_binary_nonneg (Z.abs t) 0 (Z.abs n) 0
                    ltac:(lia) ltac:(lia)) as Hq.
      destruct (SFdiv_core_binary _ _ _ _ _ _) as [[mz ez] lz]. simpl in Hq.
      pose proof (binary_round_aux_signed (xorb (t <? 0) (n <? 0)) mz ez lz Hq)
        as Hs.
      destruct (binary_round_aux _ _ _ _ _ _); intros H0; inversion H0;
        simpl in Hs; try contradiction;
        (eexists; split; [reflexivity|discriminate]).
  - destruct (float_of_int n) as [g|] eqn:Eg; simpl; [|discriminate].
    destruct (float_of_int_nonneg n g ltac:(lia) Eg) as (_ & _ & Hg).
    destruct (Hg Hn) as (m & e & ->). simpl.
    intros H0. inversion H0. eexists. split; [reflexivity|].
    apply nonneg_float_number. now apply SFdiv_nonneg.
Qed.

(** On well-formed problems a score is a number: no candidate scores NaN. *)
Lemma candidate_score_number (c : candidate) (problems : list problem)
    (s s' : rng) (k : value) :
  Forall well_formed problems ->
  candidate_score libm_pow c problems s = (Ok k, s') -> is_number k.
Proof.
  intros Hp. unfold candidate_score, running_total.
  rewrite (bind_ok _ _ _ _ _ (for_each_total_error libm_pow c problems _ s)).
  unfold lift. intros H0. inversion H0 as [[Hk Hs]].
  destruct problems as [|p rest]; [simpl in Hk; discriminate|].
  eapply truediv_number; [|  |exact Hk].
  - apply total_error_nonneg; [exact Hp|simpl; lia].
  - rewrite len_cons. pose proof (len_nonneg rest). lia.
Qed.

End NoNaN.

Lemma iter_xO (p d : positive) : Z.pos (Pos.iter xO p d) = Z.pos p * 2 ^ Z.pos d.
Proof.
  revert p. induction d as [d IH|d IH|]; intros p; simpl Pos.iter.
  - rewrite Pos2Z.inj_xO, !IH. change (Z.pos d~1) with (2 * Z.pos d + 1).
    replace (2 * Z.pos d + 1) with (1 + Z.pos d + Z.pos d) by lia.
    rewrite !Z.pow_add_r by lia. lia.
  - rewrite !IH. change (Z.pos d~0) with (2 * Z.pos d).
    replace (2 * Z.pos d) with (Z.pos d + Z.pos d) by lia.
    rewrite !Z.pow_add_r by lia. lia.
  - rewrite Pos2Z.inj_xO. lia.
Qed.

(** [float(z)] returns for [0 <= z < 2 ** 1023]. *)
Lemma float_of_int_returns (z : Z) :
  0 <= z < 2 ^ 1023 -> exists f, float_of_int z = Ok f.
Proof.
  intros [Hz Hlt]. unfold float_of_int, binary_normalize.
  destruct z as [|p|p]; [eauto| |lia].
  unfold binary_round.
  assert (Z.pos (digits2_pos p) <= 1023) as Hd
    by (apply (Zdigits2_le (Z.pos p) 1023); lia).
  assert (exists mz ez,
            shl_align p 0 (fexp prec emax (Z.pos (digits2_pos p) + 0)) = (mz, ez)
            /\ ez <= 970 /\ Z.pos mz < 2 ^ (1023 - ez)) as (mz & ez & -> & He & Hm).
  { unfold shl_align.
    destruct (fexp prec emax (Z.pos (digits2_pos p) + 0) - 0) as [|n|n] eqn:En.
    - exists p, 0. split; [reflexivity|]. split; [lia|exact Hlt].
    - exists p, 0. split; [reflexivity|]. split; [lia|exact Hlt].
    - eexists; eexists. split; [reflexivity|].
      assert (fexp prec emax (Z.pos (digits2_pos p) + 0) = - Z.pos n) as ->
        by lia.
      split; [lia|]. rewrite iter_xO.
      replace (1023 - - Z.pos n) with (1023 + Z.pos n) by lia.
      rewrite Z.pow_add_r by lia.
      assert (0 < 2 ^ Z.pos n) by (apply Z.pow_pos_nonneg; lia). nia. }
  pose proof (binary_round_aux_finite false (Z.pos mz) ez loc_Exact
                ltac:(lia) He) as Hf.
  destruct (binary_round_aux prec emax false (Z.pos mz) ez loc_Exact) as [s|s| |s m e];
    eauto. now destruct (Hf s).
Qed.

(** ** Totals that stay ints *)

Lemma float_binop_float op (x y v : value) :
  float_binop op x y = Ok v -> ~ is_int v.
Proof.
  unfold float_binop.
  destruct (to_float x); simpl; [|discriminate].
  destruct (to_float y); simpl; [|discriminate].
  intros H0. inversion H0. simpl. tauto.
Qed.

Lemma py_add_int (x y : value) (z : Z) :
  py_add x y = Ok (VInt z) -> exists a b, x = VInt a /\ y = VInt b /\ z = a + b.
Proof.
  destruct x as [a|f], y as [b|g]; simpl; intros H0;
    try (apply float_binop_float in H0; simpl in H0; tauto).
  inversion H0. eauto.
Qed.

Lemma py_sub_int (x y : value) (z : Z) :
  py_sub x y = Ok (VInt z) -> exists a b, x = VInt a /\ y = VInt b /\ z = a - b.
Proof.
  destruct x as [a|f], y as [b|g]; simpl; intros H0;
    try (apply float_binop_float in H0; simpl in H0; tauto).
  inversion H0. eauto.
Qed.

Lemma py_mul_int (x y : value) (z : Z) :
  py_mul x y = Ok (VInt z) -> exists a b, x = VInt a /\ y = VInt b /\ z = a * b.
Proof.
  destruct x as [a|f], y as [b|g]; simpl; intros H0;
    try (apply float_binop_float in H0; simpl in H0; tauto).
  inversion H0. eauto.
Qed.

Lemma py_sum_int (ts : list value) (acc : result value) (v : Z) :
  fold_left (fun acc t => rbind acc (fun s => py_add s t)) ts acc = Ok (VInt v) ->
  Forall is_int ts.
Proof.
  revert acc. induction ts as [|t ts IH]; intros acc H0; simpl in H0.
  - constructor.
  - constructor; [|eapply IH; exact H0].
    assert (exists w, rbind acc (fun s => py_add s t) = Ok (VInt w)) as [w Hw].
    { clear IH. revert H0. generalize (rbind acc (fun s => py_add s t)).
      induction ts as [|t' ts IH]; intros r H0; simpl in H0; [eauto|].
      destruct (IH _ H0) as [w Hw]. destruct r as [a|e]; [|discriminate].
      simpl in Hw. apply py_add_int in Hw. destruct Hw as (a' & _ & -> & _).
      eauto. }
    destruct acc as [a|e]; [|discriminate]. simpl in Hw.
    apply py_add_int in Hw. destruct Hw as (_ & b & _ & -> & _). exact I.
Qed.

Lemma pure_comprehension_each {A B} (f : A -> result B) (P : B -> Prop)
    (l : list A) (bs : list B) :
  pure_comprehension f l = Ok bs -> Forall P bs ->
  forall i, In i l -> exists b, f i = Ok b /\ P b.
Proof.
  revert bs. induction l as [|j l IH]; intros bs H0 HP i Hi; [destruct Hi|].
  simpl in H0. destruct (f j) as [b|e] eqn:E; simpl in H0; [|discriminate].
  destruct (pure_comprehension f l) as [bs'|e]; simpl in H0; [|discriminate].
  inversion H0; subst. inversion HP; subst.
  destruct Hi as [->|Hi]; [eauto|]. eapply IH; eauto.
Qed.

Lemma ints_of_is_int (z : list value) :
  Forall is_int z -> exists l, z = ints l.
Proof.
  induction 1 as [|v z Hv _ [l ->]]; [now exists []|].
  destruct v as [x|f]; [|destruct Hv]. now exists (x :: l).
Qed.

(** When [list_to_int] returns an int, every element of the sequence is an
    int. *)
Lemma list_to_int_int (z : list value) (v : Z) :
  list_to_int z = Ok (VInt v) -> exists l, z = ints l.
Proof.
  unfold list_to_int.
  destruct (pure_comprehension _ (range 0 (len z))) as [ts|e] eqn:E;
    simpl; [|discriminate].
  intros H0. apply py_sum_int in H0.
  apply ints_of_is_int. apply List.Forall_forall. intros w Hw.
  apply In_nth_error in Hw. destruct Hw as [k Hk].
  assert (k < length z)%nat as Hlt by (apply nth_error_Some; congruence).
  destruct (pure_comprehension_each _ _ _ _ E H0 (Z.of_nat k)) as (t & Ht & Hi).
  { apply range_In. unfold len. lia. }
  cbn beta in Ht. rewrite subscript_nat, Hk in Ht. cbn [rbind] in Ht.
  destruct t as [t|]; [|destruct Hi].
  apply py_mul_int in Ht. destruct Ht as (_ & b & _ & -> & _). exact I.
Qed.

Lemma invalid_digit_ints (l : list Z) :
  invalid_digit (ints l) = false -> Forall (fun d => d <= 9) l.
Proof.
  unfold invalid_digit. induction l as [|d l IH]; simpl; [constructor|].
  intros H0. apply orb_false_elim in H0. destruct H0 as [Hd Hl].
  constructor; [|now apply IH].
  unfold py_gt in Hd. simpl in Hd.
  destruct (Z.compare_spec d 9); first [lia|discriminate].
Qed.

Lemma small_ints (l : list Z) :
  Forall small_value (ints l) -> Forall (fun d => 0 <= d) l.
Proof.
  induction l as [|d l IH]; simpl; intros H0; [constructor|].
  inversion H0; subst. constructor; [assumption|now apply IH].
Qed.

Lemma credited_int (score : value) (outcome : result (list value))
    (ans t1 : Z) :
  (forall z, outcome = Ok z -> Forall small_value z /\ len z <= 307) ->
  0 <= ans < column_bound ->
  credited score outcome (VInt ans) = VInt t1 ->
  exists t0, score = VInt t0 /\ t1 <= t0 + column_bound.
Proof.
  intros Hz Hans.
  assert (forall t1, penalised score = VInt t1 ->
            exists t0, score = VInt t0 /\ t1 <= t0 + column_bound) as Hpen.
  { destruct score as [t0|f]; simpl; intros t H0; [|discriminate].
    inversion H0. exists t0. split; [reflexivity|].
    unfold column_bound. lia. }
  unfold credited.
  destruct outcome as [z|e]; [|apply Hpen].
  destruct (invalid_digit z) eqn:Ev; [apply Hpen|].
  destruct (abs_error z (VInt ans)) as [d|] eqn:Ed; simpl; [|apply Hpen].
  destruct (py_add score d) as [total|] eqn:Et; [|apply Hpen].
  intros ->. apply py_add_int in Et. destruct Et as (t0 & e & -> & -> & ->).
  exists t0. split; [reflexivity|].
  unfold abs_error in Ed.
  destruct (list_to_int z) as [v|] eqn:Elv; simpl in Ed; [|discriminate].
  destruct (py_sub v (VInt ans)) as [d0|] eqn:Es; simpl in Ed; [|discriminate].
  inversion Ed as [Habs]. destruct d0 as [x|]; [|discriminate].
  simpl in Habs. inversion Habs; subst e.
  apply py_sub_int in Es. destruct Es as (a & b & -> & Hb & ->).
  inversion Hb; subst b.
  destruct (list_to_int_int z a Elv) as [l ->].
  destruct (Hz _ eq_refl) as [Hsmall Hlen].
  rewrite list_to_int_ints in Elv. inversion Elv; subst a.
  assert (Forall digit l) as Hd.
  { apply invalid_digit_ints in Ev. apply small_ints in Hsmall.
    apply List.Forall_forall. intros d Hin. unfold digit.
    eapply List.Forall_forall in Ev; [|exact Hin].
    eapply List.Forall_forall in Hsmall; [|exact Hin]. simpl in *. lia. }
  pose proof (sequence_to_integer_bound l Hd) as Hb'.
  rewrite len_ints in Hlen.
  assert (10 ^ len l <= 10 ^ 307) by (apply Z.pow_le_mono_r; lia).
  unfold column_bound in *. lia.
Qed.

Section Returns.

Variable libm_pow : spec_float -> spec_float -> spec_float.

Lemma loop_at_most_columns (a b : list Z) (op : operation) (acc : accumulator)
    (ch : chooser) (z : list value) (s s' : rng) :
  loop libm_pow a b op acc ch s = (Ok z, s') -> len z <= len a.
Proof.
  unfold loop, bind. destruct (call_chooser ch a s) as [[n|e] s1] eqn:E;
    [|discriminate].
  intros H0. apply chooser_bound in E. apply for_each_length in H0.
  change (len []) with 0 in H0.
  assert (len (range 0 n) = n) as Hr
    by (unfold len; rewrite range_length; lia).
  rewrite Hr in H0. destruct acc; try lia.
  destruct (range 0 n) eqn:Er; [lia|].
  rewrite len_cons in Hr. pose proof (len_nonneg l). lia.
Qed.

Lemma expected_sum_bound (a b : list Z) (answer : value) :
  well_formed (a, b, answer) -> len a <= 307 ->
  exists ans, answer = VInt ans /\ 0 <= ans < column_bound.
Proof.
  intros (Hlen & Ha & Hb & _ & ->) Hcols. eexists. split; [reflexivity|].
  pose proof (sequence_to_integer_bound a Ha) as H1.
  pose proof (sequence_to_integer_bound b Hb) as H2.
  assert (len b = len a) as Hl by (unfold len; lia). rewrite Hl in H2.
  assert (10 ^ len a <= 10 ^ 307)
    by (apply Z.pow_le_mono_r; [lia|exact Hcols]).
  unfold column_bound. lia.
Qed.

Lemma total_error_int (algorithm : candidate) (problems : list problem)
    (score : value) (s : rng) (t : Z) :
  Forall well_formed problems ->
  Forall (fun p : problem => len p.1.1 <= 307) problems ->
  (total_error libm_pow algorithm score problems s).1 = VInt t ->
  exists t0, score = VInt t0 /\ t <= t0 + len problems * column_bound.
Proof.
  intros Hp. revert score s.
  induction Hp as [|[[a b] answer] rest Hwf _ IH]; intros score s Hcols H0;
    simpl in H0.
  - exists t. split; [exact H0|]. change (len []) with 0. lia.
  - inversion Hcols as [|? ? Hc Hrest]; subst. simpl in Hc.
    destruct (loop libm_pow a b algorithm.1.1 algorithm.1.2 algorithm.2 s)
      as [outcome s1] eqn:E.
    destruct (IH _ _ Hrest H0) as (t1 & H1 & Ht).
    destruct (expected_sum_bound a b answer Hwf Hc) as (ans & -> & Hans).
    apply credited_int in H1; [|
      |exact Hans].
    + destruct H1 as (t0 & -> & Ht0). exists t0. split; [reflexivity|].
      rewrite len_cons. lia.
    + intros z ->. destruct Hwf as (_ & Ha & Hb & _). split.
      * eapply loop_small; [exact Ha|exact Hb|exact E].
      * apply loop_at_most_columns in E. lia.
Qed.

(** A candidate gets a score on every non-empty batch of well-formed
    problems of at most 307 columns. *)
Lemma candidate_score_returns (c : candidate) (problems : list problem)
    (s : rng) :
  Forall well_formed problems ->
  Forall (fun p : problem => len p.1.1 <= 307) problems ->
  problems <> [] -> len problems < 2 ^ 1023 ->
  exists f s', candidate_score libm_pow c problems s = (Ok (VFloat f), s').
Proof.
  intros Hp Hcols Hne Hn. unfold candidate_score, running_total.
  rewrite (bind_ok _ _ _ _ _ (for_each_total_error libm_pow c problems _ s)).
  unfold lift.
  pose proof (total_error_nonneg libm_pow c problems (VInt 0) s Hp
                ltac:(simpl; lia)) as Hpos.
  pose proof (total_error_int c problems (VInt 0) s) as Hint.
  pose proof (len_nonempty _ Hne) as Hlen. pose proof (len_nonneg problems).
  destruct (total_error libm_pow c (VInt 0) problems s) as [[t|f] s1];
    simpl in *.
  - destruct (Hint t Hp Hcols eq_refl) as (t0 & E0 & Ht). inversion E0; subst t0.
    destruct (int_truediv_returns t (len problems)) as (f & -> & _);
      [exact Hpos|lia| |eauto].
    assert (column_bound < 2 ^ 1023) by (vm_compute; reflexivity). nia.
  - destruct (float_of_int_returns (len problems) ltac:(lia)) as [g Hg].
    rewrite Hg. simpl. rewrite (float_of_int_nonzero _ _ Hlen Hg). eauto.
Qed.

End Returns.

(** ** Scores and rankings *)

Lemma batch_sum_bound (problems : list problem) :
  Forall well_formed problems ->
  Forall (fun p : problem => len p.1.1 <= 307) problems ->
  0 <= batch_sum problems <= len problems * column_bound.
Proof.
  intros Hp. induction Hp as [|[[a b] answer] rest Hwf _ IH]; intros Hcols.
  - unfold batch_sum. simpl. change (len []) with 0. lia.
  - inversion Hcols as [|? ? Hc Hrest]; subst. simpl in Hc.
    specialize (IH Hrest).
    destruct (expected_sum_bound a b answer Hwf Hc) as (ans & E & Hans).
    destruct Hwf as (_ & _ & _ & _ & ->). inversion E; subst ans.
    unfold batch_sum in *. cbn [map fold_right].
    change (expected_sum (a, b, VInt (sequence_to_integer a + sequence_to_integer b)))
      with (sequence_to_integer a + sequence_to_integer b).
    rewrite len_cons. lia.
Qed.

Section Scores.

Variable libm_pow : spec_float -> spec_float -> spec_float.

(** C9 (as the code has it): with the always-zero chooser the loop returns
    the empty sequence, which converts to 0 and holds no element above 9;
    every well-formed problem then adds exactly its expected sum to the
    running total, never the penalty, and the outcome of [candidate_score]
    is that of dividing the batch's total expected sum by the number of
    problems.  On a non-empty batch that outcome is a float that is a
    number, the mean, or an [OverflowError]; it is the mean whenever the
    total is below [2 ** 1023] times the number of problems, in particular
    when no problem has more than 307 columns. *)
Theorem zero_chooser_scores_expected_sums (op : operation) (acc : accumulator)
    (problems : list problem) (s : rng) :
  Forall well_formed problems ->
  (forall a b t, loop libm_pow a b op acc Zero t = (Ok [], t)) /\
  list_to_int [] = Ok (VInt 0) /\
  invalid_digit [] = false /\
  (forall p t, In p problems ->
     score_problem libm_pow (op, acc, Zero) (VInt t) p s =
     (Ok (VInt (t + Z.abs (0 - expected_sum p))), s) /\
     Z.abs (0 - expected_sum p) = expected_sum p) /\
  running_total libm_pow (op, acc, Zero) problems s =
    (Ok (VInt (batch_sum problems)), s) /\
  candidate_score libm_pow (op, acc, Zero) problems s =
    (py_truediv (VInt (batch_sum problems)) (VInt (len problems)), s) /\
  (problems <> [] ->
   (exists f,
      candidate_score libm_pow (op, acc, Zero) problems s = (Ok (VFloat f), s) /\
      f <> S754_nan) \/
   candidate_score libm_pow (op, acc, Zero) problems s
     = (Raise OverflowError, s)) /\
  (problems <> [] -> batch_sum problems < 2 ^ 1023 * len problems ->
   exists f,
     candidate_score libm_pow (op, acc, Zero) problems s = (Ok (VFloat f), s)) /\
  (problems <> [] ->
   Forall (fun p : problem => len p.1.1 <= 307) problems ->
   exists f,
     candidate_score libm_pow (op, acc, Zero) problems s = (Ok (VFloat f), s)).
Proof.
  intros H.
  split; [intros; apply loop_zero|].
  split; [reflexivity|]. split; [reflexivity|].
  assert (running_total libm_pow (op, acc, Zero) problems s =
          (Ok (VInt (batch_sum problems)), s)) as Ht.
  { unfold running_total. now rewrite running_total_zero. }
  assert (candidate_score libm_pow (op, acc, Zero) problems s =
    (py_truediv (VInt (batch_sum problems)) (VInt (len problems)), s)) as Hc
    by (unfold candidate_score; now rewrite (bind_ok _ _ _ _ _ Ht)).
  assert (0 <= batch_sum problems) as Hpos.
  { clear Ht Hc. induction H as [|p rest Hp _ IH]; [unfold batch_sum; simpl; lia|].
    pose proof (expected_sum_nonneg p Hp). unfold batch_sum in *. simpl. lia. }
  assert (problems <> [] -> batch_sum problems < 2 ^ 1023 * len problems ->
          exists f, candidate_score libm_pow (op, acc, Zero) problems s
                    = (Ok (VFloat f), s)) as Hsmall.
  { intros Hne Hlt. pose proof (len_nonempty _ Hne). pose proof (len_nonneg problems).
    rewrite Hc. simpl.
    destruct (int_truediv_returns (batch_sum problems) (len problems))
      as (f & -> & _); [exact Hpos|lia|lia|eauto]. }
  split; [|split; [exact Ht|split; [exact Hc|split; [|split; [exact Hsmall|]]]]].
  - intros p t Hin.
    assert (well_formed p) as Hp by (eapply List.Forall_forall; eauto).
    pose proof (expected_sum_nonneg p Hp).
    rewrite score_problem_zero by exact Hp.
    split; [do 3 f_equal|]; lia.
  - intros Hne.
    destruct (candidate_score_outcome libm_pow (op, acc, Zero) problems s Hne)
      as [(f & s' & E)|(s' & E)].
    + left. exists f. rewrite Hc in E. rewrite Hc. inversion E. split.
      * reflexivity.
      * rewrite <- Hc in E.
        destruct (candidate_score_number libm_pow _ _ _ _ _ H E)
          as (g & Hg & Hn). congruence.
    + right. rewrite Hc in E. rewrite Hc. now inversion E.
  - intros Hne Hcols. apply Hsmall; [exact Hne|].
    pose proof (batch_sum_bound problems H Hcols).
    pose proof (len_nonempty _ Hne). pose proof (len_nonneg problems).
    assert (column_bound < 2 ^ 1023) by (vm_compute; reflexivity). nia.
Qed.

Lemma score_all_numbers (all_candidates : list candidate)
    (problems : list problem) (s s' : rng) (keyed : list (value * candidate)) :
  Forall well_formed problems ->
  score_all libm_pow all_candidates problems s = (Ok keyed, s') ->
  map snd keyed = all_candidates /\
  Forall (fun p => exists s1 s2,
            candidate_score libm_pow p.2 problems s1 = (Ok p.1, s2) /\
            is_number p.1) keyed.
Proof.
  intros Hp H0. destruct (score_all_keys libm_pow _ _ _ _ _ H0) as [Hmap Hall].
  split; [exact Hmap|].
  apply List.Forall_forall. intros p Hin.
  eapply List.Forall_forall in Hall; [|exact Hin].
  destruct Hall as (s1 & s2 & f & Hs & _). exists s1, s2. split; [exact Hs|].
  eapply candidate_score_number; [exact Hp|exact Hs].
Qed.

Lemma score_all_returns (all_candidates : list candidate)
    (problems : list problem) (s : rng) :
  Forall well_formed problems ->
  Forall (fun p : problem => len p.1.1 <= 307) problems ->
  problems <> [] -> len problems < 2 ^ 1023 ->
  exists keyed s', score_all libm_pow all_candidates problems s = (Ok keyed, s').
Proof.
  intros Hp Hcols Hne Hn. unfold score_all.
  destruct (comprehension_always
              (fun c => let* k := candidate_score libm_pow c problems in ret (k, c))
              all_candidates s) as (keyed & s' & H0 & _); [|eauto].
  intros c t.
  destruct (candidate_score_returns libm_pow c problems t Hp Hcols Hne Hn)
    as (f & t' & Hf).
  rewrite (bind_ok _ _ _ _ _ Hf). eexists; eexists; reflexivity.
Qed.

(** C5 (as the code has it): on a batch of well-formed problems,
    [sort_candidates] raises [ZeroDivisionError] when the batch is empty and
    the population is not; on a non-empty batch it either raises
    [OverflowError], a candidate's total being too large an int for its mean
    to be a float, or scores every candidate with a number and returns the
    population reordered by a stable sort on the scores: a permutation of
    the scored population in which no candidate scores below an earlier one,
    and in which two candidates keep their order of the input whenever the
    later one does not score below the earlier one, ties included.  The
    survivors are the first 5 of that ranking, all of it when the population
    has fewer than 5 candidates.  A ranking is returned whenever no problem
    has more than 307 columns. *)
Theorem sort_candidates_ranks_stably (all_candidates : list candidate)
    (problems : list problem) (s : rng) :
  Forall well_formed problems ->
  (problems = [] -> all_candidates <> [] ->
   sort_candidates libm_pow all_candidates problems s
     = (Raise ZeroDivisionError, s)) /\
  (problems <> [] ->
   (exists s',
      sort_candidates libm_pow all_candidates problems s
        = (Raise OverflowError, s')) \/
   (exists keyed s',
      score_all libm_pow all_candidates problems s = (Ok keyed, s') /\
      map snd keyed = all_candidates /\
      Forall (fun p => exists s1 s2,
                candidate_score libm_pow p.2 problems s1 = (Ok p.1, s2) /\
                is_number p.1) keyed /\
      sort_candidates libm_pow all_candidates problems s =
        (Ok (map snd (sorted_by_key keyed)), s') /\
      Permutation keyed (sorted_by_key keyed) /\
      StronglySorted ascending (sorted_by_key keyed) /\
      (forall p q,
         before p q keyed -> ascending p q ->
         before p q (sorted_by_key keyed)) /\
      best libm_pow all_candidates problems s =
        (Ok (firstn 5 (map snd (sorted_by_key keyed))), s') /\
      ((length all_candidates < 5)%nat ->
       firstn 5 (map snd (sorted_by_key keyed))
         = map snd (sorted_by_key keyed)))) /\
  (problems <> [] ->
   Forall (fun p : problem => len p.1.1 <= 307) problems ->
   len problems < 2 ^ 1023 ->
   exists keyed s',
     score_all libm_pow all_candidates problems s = (Ok keyed, s') /\
     sort_candidates libm_pow all_candidates problems s =
       (Ok (map snd (sorted_by_key keyed)), s')).
Proof.
  intros Hp. split; [|split].
  - intros -> Hne. destruct all_candidates as [|c l]; [congruence|].
    reflexivity.
  - intros Hne.
    destruct (sort_candidates_outcome libm_pow all_candidates problems s Hne)
      as [(keyed & s' & Hscore & Hsort)|Hraise]; [right|now left].
    exists keyed, s'.
    destruct (score_all_numbers _ _ _ _ _ Hp Hscore) as [Hmap Hkeys].
    split; [exact Hscore|]. split; [exact Hmap|]. split; [exact Hkeys|].
    split; [exact Hsort|]. split; [apply sorted_by_key_perm|].
    split.
    { apply sorted_numbers_strongly; [|apply sorted_by_key_sorted].
      apply List.Forall_forall. intros p Hin.
      apply (Permutation_in _ (Permutation_sym (sorted_by_key_perm keyed)))
        in Hin.
      eapply List.Forall_forall in Hkeys; [|exact Hin].
      destruct Hkeys as (_ & _ & _ & Hn). exact Hn. }
    split; [intros p q; apply sorted_by_key_stable|].
    split.
    + unfold best. now rewrite (bind_ok _ _ _ _ _ Hsort).
    + intros Hlen. apply firstn_all2.
      rewrite length_map, <- (Permutation_length (sorted_by_key_perm keyed)).
      rewrite <- Hmap, length_map in Hlen. lia.
  - intros Hne Hcols Hn.
    destruct (score_all_returns all_candidates problems s Hp Hcols Hne Hn)
      as (keyed & s' & Hscore).
    exists keyed, s'. split; [exact Hscore|].
    unfold sort_candidates. now rewrite (bind_ok _ _ _ _ _ Hscore).
Qed.

End Scores.

Lemma zero_chooser_scores_expected_sums_witness :
  Forall well_formed [scenario] /\
  running_total reference_pow (Exp, InsertRand, Zero) [scenario] [5%N]
    = (Ok (VInt 43), [5%N]) /\
  candidate_score reference_pow (Exp, InsertRand, Zero) [scenario] [5%N]
    = (Ok (VFloat (S754_finite false 6051711999279104 (-47))), [5%N]).
Proof.
  assert (Forall well_formed [scenario]) as H
    by (constructor; [apply scenario_well_formed|constructor]).
  split; [exact H|].
  destruct (zero_chooser_scores_expected_sums reference_pow Exp InsertRand
              [scenario] [5%N] H) as (_ & _ & _ & _ & Ht & Hc & _).
  split; [exact Ht|exact Hc].
Defined.

(** C9 fails as stated: on a batch of one well-formed problem of 310
    columns the candidate (add, append, zero) gets no score, the division of
    the expected sum by 1 raises [OverflowError]. *)
Lemma zero_chooser_score_overflows :
  well_formed problem_310 /\
  candidate_score reference_pow (Add, Append, Zero) [problem_310] []
    = (Raise OverflowError, []).
Proof.
  split; [exact problem_310_well_formed|]. vm_compute. reflexivity.
Qed.

Lemma sort_candidates_ranks_stably_witness :
  Forall well_formed [scenario] /\
  sort_candidates reference_pow population_6 [scenario] [] =
    (Ok [(Add, Append, Len); (Add, Prepend, Len); (Mult, Append, Len);
         (Div, Append, Len); (Exp, Replace, Len); (Add, Append, Zero)], []) /\
  best reference_pow population_6 [scenario] [] =
    (Ok [(Add, Append, Len); (Add, Prepend, Len); (Mult, Append, Len);
         (Div, Append, Len); (Exp, Replace, Len)], []).
Proof.
  assert (Forall well_formed [scenario]) as H
    by (constructor; [apply scenario_well_formed|constructor]).
  split; [exact H|].
  destruct (sort_candidates_ranks_stably reference_pow population_6
              [scenario] [] H) as (_ & Hrank & _).
  destruct (Hrank ltac:(discriminate))
    as [(s' & Hraise)
       |(keyed & s' & Hscore & _ & _ & Hsort & _ & _ & _ & Hbest & _)].
  - vm_compute in Hraise. discriminate.
  - assert (score_all reference_pow population_6 [scenario] []
            = (Ok keyed_6, [])) as H6 by (vm_compute; reflexivity).
    rewrite H6 in Hscore. inversion Hscore; subst keyed s'.
    split; [exact Hsort|exact Hbest].
Defined.

(** C5 fails as stated: on a batch of one well-formed problem of 310
    columns, and on the empty batch, [sort_candidates] returns no ranking of
    a population of two candidates. *)
Lemma sort_candidates_raises :
  well_formed problem_310 /\
  sort_candidates reference_pow [(Add, Append, Zero); (Add, Append, Len)]
    [problem_310] [] = (Raise OverflowError, []) /\
  sort_candidates reference_pow [(Add, Append, Zero); (Add, Append, Len)]
    [] [] = (Raise ZeroDivisionError, []).
Proof.
  split; [exact problem_310_well_formed|]. split; vm_compute; reflexivity.
Qed.
